(* ===================================================================== *)
(* blackroad-content-scheduler: the job coordinator, the repo sync       *)
(* engine, the self-healer, the three queue processors, the scraper and  *)
(* the worker's error handler, embedded in Rocq, with the properties     *)
(* proved of them.                                                       *)
(*                                                                       *)
(* Conventions of the embedding                                          *)
(*  - A JS Map or object used as a map is a gmap keyed by string.        *)
(*  - Counters (attempts, retryCount, metrics) are nat: the code creates *)
(*    them at 0 and only increments them or resets them to 0.            *)
(*  - Scores are Z.  Timestamps are Z, milliseconds since the epoch: the *)
(*    code only stores `new Date().toISOString()` and reads it back with *)
(*    `new Date(s).getTime()`.                                           *)
(*  - An async function is a computation on the system state that        *)
(*    returns or throws.  The platform bindings (KV namespaces, queues,  *)
(*    durable storage) are total operations on that state.  What the     *)
(*    source branches on and cannot compute itself is an explicit input: *)
(*    the code host's answers to the scraper, Math.random,               *)
(*    crypto.randomUUID, the environment strings, and three built-ins of *)
(*    the runtime: the URL parser, the printing of a number and the      *)
(*    reading of a string as a number.                                   *)
(*  - A call `stub.fetch(new Request(url, ...))` to a durable object is  *)
(*    a value of the object's Request type: the method and path that     *)
(*    its `fetch` tests.  Where the URL is built from data, as in        *)
(*    `http://internal/jobs/${job.id}`, the path is what the URL parser  *)
(*    makes of it and the route is chosen as `fetch` chooses it.         *)
(*  - A field declared with a type, such as JobPayload.repoName or       *)
(*    HealingTask.jobId, is read at that type.  `HealingIssue.context`   *)
(*    is a `Record<string, unknown>`: its fields are read as the code    *)
(*    reads them, by truthiness and with the conversions of the          *)
(*    operators applied to them.                                         *)
(*  - `persist()` snapshots the in-memory fields of a durable object     *)
(*    under the key 'state'; the in-memory fields are what is modelled.  *)
(*  - Not embedded: the Hono router and its routes, the cron handler,    *)
(*    createJob, discoverOrgRepos and the read-only routes of the        *)
(*    healer.                                                            *)
(* ===================================================================== *)

From Stdlib Require Import ZArith String Ascii List Bool Lia Sorted QArith Qround.
From stdpp Require Import base option list gmap strings fin_maps pretty.

Open Scope Z_scope.
Open Scope string_scope.

(* --------------------------------------------------------------------- *)
(* JavaScript primitives used by the source                              *)
(* --------------------------------------------------------------------- *)

Module JS.

(* Math.round(n / d) for integers n and d > 0: the quotient rounded to
   the nearest integer, halves towards +infinity. *)
Definition Math_round_div (n d : Z) : Z := Z.div (2 * n + d) (2 * d).

(* String.prototype.toLowerCase on the ASCII range. *)
Definition lower_ascii (c : ascii) : ascii :=
  let n := nat_of_ascii c in
  if (Nat.leb 65 n && Nat.leb n 90)%bool then ascii_of_nat (n + 32) else c.

Fixpoint toLowerCase (s : string) : string :=
  match s with
  | EmptyString => EmptyString
  | String c r => String (lower_ascii c) (toLowerCase r)
  end.

(* String.prototype.startsWith *)
Definition startsWith (s p : string) : bool := String.prefix p s.

(* Array.prototype.some *)
Definition some {A} (f : A -> bool) (l : list A) : bool := existsb f l.

(* s || dflt on strings: the empty string is falsy. *)
Definition str_or (s dflt : string) : string :=
  if String.eqb s "" then dflt else s.

(* What a `Record<string, unknown>` carries: JSON values, with the
   integers among the numbers, and the two kinds of number that
   arithmetic can leave in an object and that are no integer, NaN and
   the infinities. *)
#[warnings="-register-all"] Inductive Value :=
| VNull
| VBool (b : bool)
| VNum (n : Z)
| VNaN
| VInfinity (negative : bool)
| VStr (s : string)
| VArr (l : list Value)
| VObj (fields : list (string * Value)).

Definition truthy (v : Value) : bool :=
  match v with
  | VNull => false
  | VBool b => b
  | VNum n => negb (Z.eqb n 0)
  | VNaN => false
  | VInfinity _ => true
  | VStr s => negb (String.eqb s "")
  | VArr _ => true
  | VObj _ => true
  end.

(* A number as an operator sees it: the result of ToNumber. *)
Inductive Number :=
| NaN
| Infinity (negative : bool)
| Finite (q : Q).

(* Built-ins of the runtime whose answers are taken as given:
   `new URL(u).pathname`, the text of an integer (Number::toString) and
   the number a string reads as (StringToNumber). *)
Record Runtime := {
  URL_pathname : string -> string;
  Number_toString : Z -> string;
  StringToNumber : string -> Number
}.

(* Object.prototype.hasOwnProperty *)
Definition hasOwnProperty (fields : list (string * Value)) (k : string) : bool :=
  existsb (fun kv => String.eqb (fst kv) k) fields.

(* ToString(v), the conversion of a template literal `${v}`; None is a
   TypeError.  An array is its elements joined by commas, null printing
   as the empty string.  A plain object is [object Object]; when a
   property of its own shadows toString the conversion finds nothing to
   call (a JSON value is not callable, and valueOf returns the object
   itself) and ends in a TypeError. *)
Fixpoint ToString (rt : Runtime) (v : Value) : option string :=
  match v with
  | VNull => Some "null"
  | VBool b => Some (if b then "true" else "false")
  | VNum n => Some (Number_toString rt n)
  | VNaN => Some "NaN"
  | VInfinity negative => Some (if negative then "-Infinity" else "Infinity")
  | VStr s => Some s
  | VArr l =>
      (fix join (l : list Value) : option string :=
         match l with
         | [] => Some ""
         | x :: r =>
             match (match x with VNull => Some "" | _ => ToString rt x end) with
             | None => None
             | Some first =>
                 match r with
                 | [] => Some first
                 | _ => match join r with
                        | Some rest => Some (first ++ "," ++ rest)
                        | None => None
                        end
                 end
             end
         end) l
  | VObj fields =>
      if hasOwnProperty fields "toString" then None else Some "[object Object]"
  end.

(* ToNumber(v), the conversion of an arithmetic operand; None is a
   TypeError.  An array or object is first made a string. *)
Definition ToNumber (rt : Runtime) (v : Value) : option Number :=
  match v with
  | VNull => Some (Finite 0)
  | VBool b => Some (Finite (if b then 1 else 0))
  | VNum n => Some (Finite (inject_Z n))
  | VNaN => Some NaN
  | VInfinity negative => Some (Infinity negative)
  | VStr s => Some (StringToNumber rt s)
  | VArr _ | VObj _ =>
      match ToString rt v with
      | Some s => Some (StringToNumber rt s)
      | None => None
      end
  end.

(* Math.max(1, Math.floor(x / 2)), as a value to store. *)
Definition max_1_floor_half (x : Number) : Value :=
  match x with
  | NaN => VNaN
  | Infinity false => VInfinity false
  | Infinity true => VNum 1
  | Finite q => VNum (Z.max 1 (Qfloor (q / 2)))
  end.

(* The message of the TypeError of a failed conversion. *)
Definition not_primitive : string := "Cannot convert object to primitive value".

End JS.

Abbreviation Bag := (gmap string JS.Value).

(* A property read `bag.key`, kept only when truthy (`if (bag.key)`). *)
Definition truthy_field (b : Bag) (k : string) : option JS.Value :=
  match b !! k with
  | Some v => if JS.truthy v then Some v else None
  | None => None
  end.

(* A truthy property read at its declared type `string`
   (JobPayload.repoName); only bags that hold a string or nothing truthy
   under the key have that type. *)
Definition string_field (b : Bag) (k : string) : option string :=
  match truthy_field b k with
  | Some (JS.VStr s) => Some s
  | _ => None
  end.

(* --------------------------------------------------------------------- *)
(* types.ts                                                              *)
(* --------------------------------------------------------------------- *)

Inductive JobStatus := job_pending | job_running | job_completed | job_failed | job_healing.
Inductive JobPriority := prio_critical | prio_high | prio_normal | prio_low.
Inductive JobType :=
| scrape_repo | sync_content | check_cohesiveness | self_heal
| update_cache | full_sync | cleanup_job | notify.

Inductive ScrapeType := st_full | st_incremental | st_structure | st_content | st_metadata.

Inductive EntryType := entry_file | entry_dir.
Record FileEntry := {
  fe_path : string;
  fe_type : EntryType;
  fe_size : option Z;
  fe_sha : option string
}.

Inductive ConfigType := cfg_package_json | cfg_wrangler_toml | cfg_tsconfig_json | cfg_other.
Record ConfigFile := { cf_path : string; cf_type : ConfigType }.

Record RepoStructure := {
  files : list FileEntry;
  directories : list string;
  configFiles : list ConfigFile;
  hasPackageJson : bool;
  hasWranglerConfig : bool;
  hasTsConfig : bool;
  primaryLanguage : option string
}.

Inductive Severity := sev_critical | sev_warning | sev_info.
Inductive IssueType :=
| missing_config | outdated_dependency | naming_inconsistency
| structure_mismatch | missing_type_definitions | deprecated_pattern.

Record CohesivenessIssue := {
  ci_type : IssueType;
  severity : Severity;
  ci_message : string;
  ci_path : option string;
  suggestion : option string;
  autoFixable : bool
}.

Record CohesivenessScore := {
  overall : Z;
  structure : Z;
  naming : Z;
  dependencies : Z;
  config : Z;
  lastCheckedAt : Z;
  issues : list CohesivenessIssue
}.

Record RepoData := {
  fullName : string;
  rd_name : string;
  rd_description : option string;
  defaultBranch : string;
  rd_language : option string;
  topics : list string;
  visibility : string;
  rd_structure : RepoStructure;
  lastScrapedAt : Z;
  rd_etag : option string;
  cohesiveness : CohesivenessScore
}.

Definition set_cohesiveness (r : RepoData) (c : CohesivenessScore) : RepoData :=
  {| fullName := fullName r; rd_name := rd_name r;
     rd_description := rd_description r; defaultBranch := defaultBranch r;
     rd_language := rd_language r; topics := topics r;
     visibility := visibility r; rd_structure := rd_structure r;
     lastScrapedAt := lastScrapedAt r; rd_etag := rd_etag r;
     cohesiveness := c |}.

Global Instance Severity_eq_dec : EqDecision Severity.
Proof. solve_decision. Defined.

Definition is_critical (s : Severity) : bool :=
  match s with sev_critical => true | _ => false end.

(* --------------------------------------------------------------------- *)
(* Cohesiveness scoring                                                  *)
(* --------------------------------------------------------------------- *)

Module Cohesiveness.

Definition mk_issue (t : IssueType) (s : Severity) (msg sug : string)
    (fixable : bool) : CohesivenessIssue :=
  {| ci_type := t; severity := s; ci_message := msg; ci_path := None;
     suggestion := Some sug; autoFixable := fixable |}.

(* The running state of the scorer: the two sub-scores it lowers and the
   issue array it pushes onto. *)
Record Acc := {
  structureScore : Z;
  configScore : Z;
  found : list CohesivenessIssue
}.

Definition start : Acc :=
  {| structureScore := 100; configScore := 100; found := [] |}.

Definition config_penalty (n : Z) (i : CohesivenessIssue) (a : Acc) : Acc :=
  {| structureScore := structureScore a;
     configScore := configScore a - n;
     found := found a ++ [i] |}.

Definition structure_penalty (n : Z) (i : CohesivenessIssue) (a : Acc) : Acc :=
  {| structureScore := structureScore a - n;
     configScore := configScore a;
     found := found a ++ [i] |}.

Definition when (c : bool) (f : Acc -> Acc) (a : Acc) : Acc :=
  if c then f a else a.

Definition hasSrcDir (s : RepoStructure) : bool :=
  JS.some (fun d => String.eqb d "src" || JS.startsWith d "src/")%bool
          (directories s).

Definition hasReadme (s : RepoStructure) : bool :=
  JS.some (fun f => String.eqb (JS.toLowerCase (fe_path f)) "readme.md")
          (files s).

Definition many_files (s : RepoStructure) : bool :=
  Nat.ltb 5 (length (files s)).

Definition check_package (s : RepoStructure) : Acc -> Acc :=
  when (negb (hasPackageJson s))
    (config_penalty 30
       (mk_issue missing_config sev_warning "Missing package.json"
          "Add package.json for dependency management" true)).

Definition check_tsconfig (sug : string) (s : RepoStructure) : Acc -> Acc :=
  when (negb (hasTsConfig s))
    (config_penalty 20
       (mk_issue missing_config sev_info "Missing tsconfig.json" sug true)).

Definition check_wrangler (s : RepoStructure) : Acc -> Acc :=
  when (negb (hasWranglerConfig s))
    (config_penalty 25
       (mk_issue missing_config sev_warning "Missing wrangler.toml"
          "Add Cloudflare Workers configuration" true)).

Definition check_src (s : RepoStructure) : Acc -> Acc :=
  when (negb (hasSrcDir s) && many_files s)%bool
    (structure_penalty 20
       (mk_issue structure_mismatch sev_info "No src/ directory found"
          "Consider organizing source files in src/" false)).

Definition check_readme (s : RepoStructure) : Acc -> Acc :=
  when (negb (hasReadme s))
    (structure_penalty 10
       (mk_issue missing_config sev_info "Missing README.md"
          "Add documentation" true)).

(* The checks of RepoSyncEngine.calculateCohesiveness, in source order. *)
Definition engine_checks (s : RepoStructure) : Acc :=
  check_readme s (check_src s (check_wrangler s
    (check_tsconfig "Add TypeScript configuration for type safety" s
       (check_package s start)))).

(* RepoSyncEngine.calculateCohesiveness; `now` is the clock reading. *)
Definition calculateCohesiveness (now : Z) (repo : RepoData) : CohesivenessScore :=
  let namingScore := 100 in
  let depsScore := 100 in
  let a := engine_checks (rd_structure repo) in
  {| overall := JS.Math_round_div
                  (structureScore a + namingScore + depsScore + configScore a) 4;
     structure := structureScore a;
     naming := namingScore;
     dependencies := depsScore;
     config := configScore a;
     lastCheckedAt := now;
     issues := found a |}.

(* The checks of GitHubScraper.calculateInitialCohesiveness: no README
   check. *)
Definition scraper_checks (s : RepoStructure) : Acc :=
  check_src s (check_wrangler s
    (check_tsconfig "Add TypeScript configuration" s (check_package s start))).

Definition calculateInitialCohesiveness (now : Z) (s : RepoStructure) : CohesivenessScore :=
  let a := scraper_checks s in
  {| overall := JS.Math_round_div
                  (configScore a + structureScore a + 100 + 100) 4;
     structure := structureScore a;
     naming := 100;
     dependencies := 100;
     config := configScore a;
     lastCheckedAt := now;
     issues := found a |}.

(* The score array filters used by the engine and the reports. *)
Definition critical_fixable (sc : CohesivenessScore) : list CohesivenessIssue :=
  List.filter (fun i => is_critical (severity i) && autoFixable i)%bool (issues sc).

Definition count_fixable (sc : CohesivenessScore) : nat :=
  length (List.filter autoFixable (issues sc)).

Definition count_critical (sc : CohesivenessScore) : nat :=
  length (List.filter (fun i => is_critical (severity i)) (issues sc)).

End Cohesiveness.

(* --------------------------------------------------------------------- *)
(* Responses of the durable objects (the JSON bodies, typed)             *)
(* --------------------------------------------------------------------- *)

Record FullSyncResponse := {
  fs_http : Z;
  fs_success : bool;
  fs_message : string;
  fs_repos : option nat;
  fs_timestamp : option Z
}.

Record CohesivenessCheckResponse := {
  cc_success : bool;
  cc_results : list (string * CohesivenessScore);
  cc_timestamp : Z
}.

Record SyncRepoResponse := { sr_success : bool; sr_message : string }.

Record HealthIssue := { h_type : string; h_severity : Severity; h_message : string }.
Record HealthCheckResponse := {
  healthy : bool;
  hc_issues : list HealthIssue;
  hc_timestamp : Z
}.

Record CleanupResponse := { cl_success : bool; cleaned : nat; remaining : nat }.

(* `result?: unknown` on a job: what the job handlers return. *)
Inductive JobResult :=
| res_queued (repo : string)
| res_full_sync (r : FullSyncResponse)
| res_cohesiveness (r : CohesivenessCheckResponse)
| res_health (r : HealthCheckResponse)
| res_update_cache (results : list (string * bool))
| res_cleanup (r : CleanupResponse)
| res_notified (p : Bag).

(* --------------------------------------------------------------------- *)
(* Jobs, scrape tasks, healing tasks                                     *)
(* --------------------------------------------------------------------- *)

Record AgentJob := {
  job_id : string;
  job_type : JobType;
  job_status : JobStatus;
  priority : JobPriority;
  payload : Bag;
  retryCount : nat;
  maxRetries : nat;
  createdAt : Z;
  updatedAt : Z;
  completedAt : option Z;
  error : option string;
  result : option JobResult;
  healingAttempts : nat
}.

Record ScrapeTask := {
  sk_id : string;
  repoFullName : string;
  scrapeType : ScrapeType;
  lastScrapeAt : option Z;
  sk_etag : option string;
  sk_priority : JobPriority
}.

Inductive HealingSeverity := hs_low | hs_medium | hs_high | hs_critical.

Record HealingIssue := {
  hi_type : string;
  hi_severity : HealingSeverity;
  description : string;
  context : Bag;
  originalError : option string;
  stackTrace : option string
}.

Inductive HealingStrategy :=
| retry_with_backoff | clear_cache_retry | switch_endpoint | reduce_batch_size
| notify_and_skip | full_reset | escalate_to_agent.

Inductive TaskStatus := pending | attempting | resolved | escalated.

Record HealingResolution := {
  r_strategy : HealingStrategy;
  success : bool;
  message : string;
  attemptNumber : nat;
  resolvedAt : Z;
  timeToResolve : option Z;
  resourcesUsed : option nat
}.

Record HealingTask := {
  task_id : string;
  jobId : string;
  issue : HealingIssue;
  strategy : HealingStrategy;
  attempts : nat;
  maxAttempts : nat;
  status : TaskStatus;
  resolution : option HealingResolution;
  t_createdAt : Z;
  t_updatedAt : Z
}.

Global Instance JobStatus_eq_dec : EqDecision JobStatus.
Proof. solve_decision. Defined.
Global Instance TaskStatus_eq_dec : EqDecision TaskStatus.
Proof. solve_decision. Defined.
Global Instance HealingStrategy_eq_dec : EqDecision HealingStrategy.
Proof. solve_decision. Defined.
Global Instance JobPriority_eq_dec : EqDecision JobPriority.
Proof. solve_decision. Defined.
Global Instance ScrapeType_eq_dec : EqDecision ScrapeType.
Proof. solve_decision. Defined.

Definition JobType_name (t : JobType) : string :=
  match t with
  | scrape_repo => "scrape_repo" | sync_content => "sync_content"
  | check_cohesiveness => "check_cohesiveness" | self_heal => "self_heal"
  | update_cache => "update_cache" | full_sync => "full_sync"
  | cleanup_job => "cleanup" | notify => "notify"
  end.

Definition HealingStrategy_name (s : HealingStrategy) : string :=
  match s with
  | retry_with_backoff => "retry_with_backoff"
  | clear_cache_retry => "clear_cache_retry"
  | switch_endpoint => "switch_endpoint"
  | reduce_batch_size => "reduce_batch_size"
  | notify_and_skip => "notify_and_skip"
  | full_reset => "full_reset"
  | escalate_to_agent => "escalate_to_agent"
  end.

Definition ScrapeType_name (s : ScrapeType) : string :=
  match s with
  | st_full => "full" | st_incremental => "incremental"
  | st_structure => "structure" | st_content => "content"
  | st_metadata => "metadata"
  end.

Definition JobPriority_name (p : JobPriority) : string :=
  match p with
  | prio_critical => "critical" | prio_high => "high"
  | prio_normal => "normal" | prio_low => "low"
  end.

Definition Severity_name (s : Severity) : string :=
  match s with
  | sev_critical => "critical" | sev_warning => "warning" | sev_info => "info"
  end.

Definition IssueType_name (t : IssueType) : string :=
  match t with
  | missing_config => "missing_config"
  | outdated_dependency => "outdated_dependency"
  | naming_inconsistency => "naming_inconsistency"
  | structure_mismatch => "structure_mismatch"
  | missing_type_definitions => "missing_type_definitions"
  | deprecated_pattern => "deprecated_pattern"
  end.

(* Objects placed inside a free-form context bag. *)
Definition opt_field (k : string) (o : option string) : list (string * JS.Value) :=
  match o with Some s => [(k, JS.VStr s)] | None => [] end.

Definition ScrapeTask_json (t : ScrapeTask) : JS.Value :=
  JS.VObj ([("id", JS.VStr (sk_id t));
            ("repoFullName", JS.VStr (repoFullName t));
            ("scrapeType", JS.VStr (ScrapeType_name (scrapeType t)))]
           ++ match lastScrapeAt t with
              | Some z => [("lastScrapeAt", JS.VNum z)] | None => [] end
           ++ opt_field "etag" (sk_etag t)
           ++ [("priority", JS.VStr (JobPriority_name (sk_priority t)))]).

Definition Issue_json (i : CohesivenessIssue) : JS.Value :=
  JS.VObj ([("type", JS.VStr (IssueType_name (ci_type i)));
            ("severity", JS.VStr (Severity_name (severity i)));
            ("message", JS.VStr (ci_message i))]
           ++ opt_field "path" (ci_path i)
           ++ opt_field "suggestion" (suggestion i)
           ++ [("autoFixable", JS.VBool (autoFixable i))]).

Definition Bag_json (b : Bag) : JS.Value := JS.VObj (map_to_list b).

(* --------------------------------------------------------------------- *)
(* In-memory state of the three durable objects, queues, KV namespaces   *)
(* --------------------------------------------------------------------- *)

Record JobMetrics := {
  totalCreated : nat;
  totalCompleted : nat;
  totalFailed : nat;
  totalHealing : nat
}.

Record JobCoordinator := {
  jobs : gmap string AgentJob;
  metrics : JobMetrics
}.

Record SyncErrorEntry := { se_repo : string; se_error : string; se_timestamp : Z }.

Record RepoSyncEngine := {
  repos : gmap string RepoData;
  lastFullSync : option Z;
  lastCohesivenessCheck : option Z;
  inProgress : bool;
  errors : list SyncErrorEntry
}.

Record HealingMetrics := {
  totalAttempts : nat;
  successfulResolutions : nat;
  failedResolutions : nat;
  escalations : nat;
  averageTimeToResolve : Z
}.

Record StrategyStat := { st_attempts : nat; st_successes : nat; st_failures : nat }.

Record SelfHealer := {
  tasks : gmap string HealingTask;
  h_metrics : HealingMetrics;
  strategies : gmap string StrategyStat
}.

(* What a KV namespace holds under a key, the TTL (seconds) given to the
   put and the clock reading of the put. *)
Inductive KVValue :=
| kv_repo (r : RepoData)
| kv_score (s : CohesivenessScore)
| kv_skipped (t : HealingTask) (skippedAt : Z)
| kv_escalated (t : HealingTask) (escalatedAt : Z).

Record KVEntry := { kv_value : KVValue; expirationTtl : option Z; putAt : Z }.

Record Sys := {
  coordinator : JobCoordinator;
  engine : RepoSyncEngine;
  healer : SelfHealer;
  JOBS_QUEUE : list AgentJob;
  SCRAPE_QUEUE : list ScrapeTask;
  HEALING_QUEUE : list HealingTask;
  REPOS_KV : gmap string KVEntry;
  JOBS_KV : gmap string KVEntry;
  HEALING_KV : gmap string KVEntry;
  clock : Z;
  draws : nat
}.

(* The remote code host as the scraper sees it.  `fetch_repo` is the
   answer to GET /repos/{fullName} with an optional If-None-Match;
   `minimal_structure` and `full_structure` are what getMinimalStructure
   and getFullStructure assemble from the host's answers (the second one
   can throw, the first one catches). *)
Record GitHubRepo := {
  gh_name : string;
  gh_full_name : string;
  gh_description : option string;
  gh_default_branch : string;
  gh_language : option string;
  gh_topics : list string;
  gh_visibility : string
}.

Inductive RepoFetch :=
| repo_not_modified
| repo_error (msg : string)
| repo_ok (info : GitHubRepo) (etag : option string).

Inductive Res (A : Type) :=
| Ok (a : A)
| Throw (msg : string).
Arguments Ok {A} a.
Arguments Throw {A} msg.

Record GitHub := {
  fetch_repo : string -> option string -> RepoFetch;
  minimal_structure : string -> RepoStructure;
  full_structure : string -> string -> Res RepoStructure
}.

(* Environment bindings that are plain values, and the sources of outside
   values: the code host, the k-th crypto.randomUUID(), the k-th outcome
   of `Math.random() > 0.5` and the built-ins of the runtime. *)
Record Env := {
  ENVIRONMENT : string;
  BLACKROAD_ORG : string;
  SELF_HEAL_ENABLED : string;
  MAX_RETRY_ATTEMPTS : string;
  github : GitHub;
  uuid : nat -> string;
  random_gt_half : nat -> bool;
  runtime : JS.Runtime
}.

(* Field updates *)
Definition set_job_id (v : string) (x : AgentJob) : AgentJob :=
  {| job_id := v; job_type := job_type x; job_status := job_status x;
     priority := priority x; payload := payload x;
     retryCount := retryCount x; maxRetries := maxRetries x;
     createdAt := createdAt x; updatedAt := updatedAt x;
     completedAt := completedAt x; error := error x; result := result x;
     healingAttempts := healingAttempts x |}.
Definition set_job_type (v : JobType) (x : AgentJob) : AgentJob :=
  {| job_id := job_id x; job_type := v; job_status := job_status x;
     priority := priority x; payload := payload x;
     retryCount := retryCount x; maxRetries := maxRetries x;
     createdAt := createdAt x; updatedAt := updatedAt x;
     completedAt := completedAt x; error := error x; result := result x;
     healingAttempts := healingAttempts x |}.
Definition set_job_status (v : JobStatus) (x : AgentJob) : AgentJob :=
  {| job_id := job_id x; job_type := job_type x; job_status := v;
     priority := priority x; payload := payload x;
     retryCount := retryCount x; maxRetries := maxRetries x;
     createdAt := createdAt x; updatedAt := updatedAt x;
     completedAt := completedAt x; error := error x; result := result x;
     healingAttempts := healingAttempts x |}.
Definition set_priority (v : JobPriority) (x : AgentJob) : AgentJob :=
  {| job_id := job_id x; job_type := job_type x; job_status := job_status x;
     priority := v; payload := payload x; retryCount := retryCount x;
     maxRetries := maxRetries x; createdAt := createdAt x;
     updatedAt := updatedAt x; completedAt := completedAt x;
     error := error x; result := result x;
     healingAttempts := healingAttempts x |}.
Definition set_payload (v : Bag) (x : AgentJob) : AgentJob :=
  {| job_id := job_id x; job_type := job_type x; job_status := job_status x;
     priority := priority x; payload := v; retryCount := retryCount x;
     maxRetries := maxRetries x; createdAt := createdAt x;
     updatedAt := updatedAt x; completedAt := completedAt x;
     error := error x; result := result x;
     healingAttempts := healingAttempts x |}.
Definition set_retryCount (v : nat) (x : AgentJob) : AgentJob :=
  {| job_id := job_id x; job_type := job_type x; job_status := job_status x;
     priority := priority x; payload := payload x; retryCount := v;
     maxRetries := maxRetries x; createdAt := createdAt x;
     updatedAt := updatedAt x; completedAt := completedAt x;
     error := error x; result := result x;
     healingAttempts := healingAttempts x |}.
Definition set_maxRetries (v : nat) (x : AgentJob) : AgentJob :=
  {| job_id := job_id x; job_type := job_type x; job_status := job_status x;
     priority := priority x; payload := payload x;
     retryCount := retryCount x; maxRetries := v; createdAt := createdAt x;
     updatedAt := updatedAt x; completedAt := completedAt x;
     error := error x; result := result x;
     healingAttempts := healingAttempts x |}.
Definition set_createdAt (v : Z) (x : AgentJob) : AgentJob :=
  {| job_id := job_id x; job_type := job_type x; job_status := job_status x;
     priority := priority x; payload := payload x;
     retryCount := retryCount x; maxRetries := maxRetries x; createdAt := v;
     updatedAt := updatedAt x; completedAt := completedAt x;
     error := error x; result := result x;
     healingAttempts := healingAttempts x |}.
Definition set_updatedAt (v : Z) (x : AgentJob) : AgentJob :=
  {| job_id := job_id x; job_type := job_type x; job_status := job_status x;
     priority := priority x; payload := payload x;
     retryCount := retryCount x; maxRetries := maxRetries x;
     createdAt := createdAt x; updatedAt := v; completedAt := completedAt x;
     error := error x; result := result x;
     healingAttempts := healingAttempts x |}.
Definition set_completedAt (v : option Z) (x : AgentJob) : AgentJob :=
  {| job_id := job_id x; job_type := job_type x; job_status := job_status x;
     priority := priority x; payload := payload x;
     retryCount := retryCount x; maxRetries := maxRetries x;
     createdAt := createdAt x; updatedAt := updatedAt x; completedAt := v;
     error := error x; result := result x;
     healingAttempts := healingAttempts x |}.
Definition set_error (v : option string) (x : AgentJob) : AgentJob :=
  {| job_id := job_id x; job_type := job_type x; job_status := job_status x;
     priority := priority x; payload := payload x;
     retryCount := retryCount x; maxRetries := maxRetries x;
     createdAt := createdAt x; updatedAt := updatedAt x;
     completedAt := completedAt x; error := v; result := result x;
     healingAttempts := healingAttempts x |}.
Definition set_result (v : option JobResult) (x : AgentJob) : AgentJob :=
  {| job_id := job_id x; job_type := job_type x; job_status := job_status x;
     priority := priority x; payload := payload x;
     retryCount := retryCount x; maxRetries := maxRetries x;
     createdAt := createdAt x; updatedAt := updatedAt x;
     completedAt := completedAt x; error := error x; result := v;
     healingAttempts := healingAttempts x |}.
Definition set_healingAttempts (v : nat) (x : AgentJob) : AgentJob :=
  {| job_id := job_id x; job_type := job_type x; job_status := job_status x;
     priority := priority x; payload := payload x;
     retryCount := retryCount x; maxRetries := maxRetries x;
     createdAt := createdAt x; updatedAt := updatedAt x;
     completedAt := completedAt x; error := error x; result := result x;
     healingAttempts := v |}.

Definition set_jobId (v : string) (x : HealingTask) : HealingTask :=
  {| task_id := task_id x; jobId := v; issue := issue x;
     strategy := strategy x; attempts := attempts x;
     maxAttempts := maxAttempts x; status := status x;
     resolution := resolution x; t_createdAt := t_createdAt x;
     t_updatedAt := t_updatedAt x |}.
Definition set_issue (v : HealingIssue) (x : HealingTask) : HealingTask :=
  {| task_id := task_id x; jobId := jobId x; issue := v;
     strategy := strategy x; attempts := attempts x;
     maxAttempts := maxAttempts x; status := status x;
     resolution := resolution x; t_createdAt := t_createdAt x;
     t_updatedAt := t_updatedAt x |}.
Definition set_strategy (v : HealingStrategy) (x : HealingTask) : HealingTask :=
  {| task_id := task_id x; jobId := jobId x; issue := issue x; strategy := v;
     attempts := attempts x; maxAttempts := maxAttempts x;
     status := status x; resolution := resolution x;
     t_createdAt := t_createdAt x; t_updatedAt := t_updatedAt x |}.
Definition set_attempts (v : nat) (x : HealingTask) : HealingTask :=
  {| task_id := task_id x; jobId := jobId x; issue := issue x;
     strategy := strategy x; attempts := v; maxAttempts := maxAttempts x;
     status := status x; resolution := resolution x;
     t_createdAt := t_createdAt x; t_updatedAt := t_updatedAt x |}.
Definition set_maxAttempts (v : nat) (x : HealingTask) : HealingTask :=
  {| task_id := task_id x; jobId := jobId x; issue := issue x;
     strategy := strategy x; attempts := attempts x; maxAttempts := v;
     status := status x; resolution := resolution x;
     t_createdAt := t_createdAt x; t_updatedAt := t_updatedAt x |}.
Definition set_status (v : TaskStatus) (x : HealingTask) : HealingTask :=
  {| task_id := task_id x; jobId := jobId x; issue := issue x;
     strategy := strategy x; attempts := attempts x;
     maxAttempts := maxAttempts x; status := v; resolution := resolution x;
     t_createdAt := t_createdAt x; t_updatedAt := t_updatedAt x |}.
Definition set_resolution (v : option HealingResolution) (x : HealingTask) : HealingTask :=
  {| task_id := task_id x; jobId := jobId x; issue := issue x;
     strategy := strategy x; attempts := attempts x;
     maxAttempts := maxAttempts x; status := status x; resolution := v;
     t_createdAt := t_createdAt x; t_updatedAt := t_updatedAt x |}.
Definition set_t_updatedAt (v : Z) (x : HealingTask) : HealingTask :=
  {| task_id := task_id x; jobId := jobId x; issue := issue x;
     strategy := strategy x; attempts := attempts x;
     maxAttempts := maxAttempts x; status := status x;
     resolution := resolution x; t_createdAt := t_createdAt x;
     t_updatedAt := v |}.

Definition set_totalCompleted (v : nat) (x : JobMetrics) : JobMetrics :=
  {| totalCreated := totalCreated x; totalCompleted := v;
     totalFailed := totalFailed x; totalHealing := totalHealing x |}.
Definition set_totalFailed (v : nat) (x : JobMetrics) : JobMetrics :=
  {| totalCreated := totalCreated x; totalCompleted := totalCompleted x;
     totalFailed := v; totalHealing := totalHealing x |}.
Definition set_totalHealing (v : nat) (x : JobMetrics) : JobMetrics :=
  {| totalCreated := totalCreated x; totalCompleted := totalCompleted x;
     totalFailed := totalFailed x; totalHealing := v |}.

Definition set_totalAttempts (v : nat) (x : HealingMetrics) : HealingMetrics :=
  {| totalAttempts := v; successfulResolutions := successfulResolutions x;
     failedResolutions := failedResolutions x; escalations := escalations x;
     averageTimeToResolve := averageTimeToResolve x |}.
Definition set_successfulResolutions (v : nat) (x : HealingMetrics) : HealingMetrics :=
  {| totalAttempts := totalAttempts x; successfulResolutions := v;
     failedResolutions := failedResolutions x; escalations := escalations x;
     averageTimeToResolve := averageTimeToResolve x |}.
Definition set_failedResolutions (v : nat) (x : HealingMetrics) : HealingMetrics :=
  {| totalAttempts := totalAttempts x;
     successfulResolutions := successfulResolutions x;
     failedResolutions := v; escalations := escalations x;
     averageTimeToResolve := averageTimeToResolve x |}.
Definition set_escalations (v : nat) (x : HealingMetrics) : HealingMetrics :=
  {| totalAttempts := totalAttempts x;
     successfulResolutions := successfulResolutions x;
     failedResolutions := failedResolutions x; escalations := v;
     averageTimeToResolve := averageTimeToResolve x |}.
Definition set_averageTimeToResolve (v : Z) (x : HealingMetrics) : HealingMetrics :=
  {| totalAttempts := totalAttempts x;
     successfulResolutions := successfulResolutions x;
     failedResolutions := failedResolutions x; escalations := escalations x;
     averageTimeToResolve := v |}.

Definition set_coordinator (v : JobCoordinator) (x : Sys) : Sys :=
  {| coordinator := v; engine := engine x; healer := healer x;
     JOBS_QUEUE := JOBS_QUEUE x; SCRAPE_QUEUE := SCRAPE_QUEUE x;
     HEALING_QUEUE := HEALING_QUEUE x; REPOS_KV := REPOS_KV x;
     JOBS_KV := JOBS_KV x; HEALING_KV := HEALING_KV x; clock := clock x;
     draws := draws x |}.
Definition set_engine (v : RepoSyncEngine) (x : Sys) : Sys :=
  {| coordinator := coordinator x; engine := v; healer := healer x;
     JOBS_QUEUE := JOBS_QUEUE x; SCRAPE_QUEUE := SCRAPE_QUEUE x;
     HEALING_QUEUE := HEALING_QUEUE x; REPOS_KV := REPOS_KV x;
     JOBS_KV := JOBS_KV x; HEALING_KV := HEALING_KV x; clock := clock x;
     draws := draws x |}.
Definition set_healer (v : SelfHealer) (x : Sys) : Sys :=
  {| coordinator := coordinator x; engine := engine x; healer := v;
     JOBS_QUEUE := JOBS_QUEUE x; SCRAPE_QUEUE := SCRAPE_QUEUE x;
     HEALING_QUEUE := HEALING_QUEUE x; REPOS_KV := REPOS_KV x;
     JOBS_KV := JOBS_KV x; HEALING_KV := HEALING_KV x; clock := clock x;
     draws := draws x |}.
Definition set_JOBS_QUEUE (v : list AgentJob) (x : Sys) : Sys :=
  {| coordinator := coordinator x; engine := engine x; healer := healer x;
     JOBS_QUEUE := v; SCRAPE_QUEUE := SCRAPE_QUEUE x;
     HEALING_QUEUE := HEALING_QUEUE x; REPOS_KV := REPOS_KV x;
     JOBS_KV := JOBS_KV x; HEALING_KV := HEALING_KV x; clock := clock x;
     draws := draws x |}.
Definition set_SCRAPE_QUEUE (v : list ScrapeTask) (x : Sys) : Sys :=
  {| coordinator := coordinator x; engine := engine x; healer := healer x;
     JOBS_QUEUE := JOBS_QUEUE x; SCRAPE_QUEUE := v;
     HEALING_QUEUE := HEALING_QUEUE x; REPOS_KV := REPOS_KV x;
     JOBS_KV := JOBS_KV x; HEALING_KV := HEALING_KV x; clock := clock x;
     draws := draws x |}.
Definition set_HEALING_QUEUE (v : list HealingTask) (x : Sys) : Sys :=
  {| coordinator := coordinator x; engine := engine x; healer := healer x;
     JOBS_QUEUE := JOBS_QUEUE x; SCRAPE_QUEUE := SCRAPE_QUEUE x;
     HEALING_QUEUE := v; REPOS_KV := REPOS_KV x; JOBS_KV := JOBS_KV x;
     HEALING_KV := HEALING_KV x; clock := clock x; draws := draws x |}.
Definition set_REPOS_KV (v : gmap string KVEntry) (x : Sys) : Sys :=
  {| coordinator := coordinator x; engine := engine x; healer := healer x;
     JOBS_QUEUE := JOBS_QUEUE x; SCRAPE_QUEUE := SCRAPE_QUEUE x;
     HEALING_QUEUE := HEALING_QUEUE x; REPOS_KV := v; JOBS_KV := JOBS_KV x;
     HEALING_KV := HEALING_KV x; clock := clock x; draws := draws x |}.
Definition set_JOBS_KV (v : gmap string KVEntry) (x : Sys) : Sys :=
  {| coordinator := coordinator x; engine := engine x; healer := healer x;
     JOBS_QUEUE := JOBS_QUEUE x; SCRAPE_QUEUE := SCRAPE_QUEUE x;
     HEALING_QUEUE := HEALING_QUEUE x; REPOS_KV := REPOS_KV x; JOBS_KV := v;
     HEALING_KV := HEALING_KV x; clock := clock x; draws := draws x |}.
Definition set_HEALING_KV (v : gmap string KVEntry) (x : Sys) : Sys :=
  {| coordinator := coordinator x; engine := engine x; healer := healer x;
     JOBS_QUEUE := JOBS_QUEUE x; SCRAPE_QUEUE := SCRAPE_QUEUE x;
     HEALING_QUEUE := HEALING_QUEUE x; REPOS_KV := REPOS_KV x;
     JOBS_KV := JOBS_KV x; HEALING_KV := v; clock := clock x;
     draws := draws x |}.
Definition set_clock (v : Z) (x : Sys) : Sys :=
  {| coordinator := coordinator x; engine := engine x; healer := healer x;
     JOBS_QUEUE := JOBS_QUEUE x; SCRAPE_QUEUE := SCRAPE_QUEUE x;
     HEALING_QUEUE := HEALING_QUEUE x; REPOS_KV := REPOS_KV x;
     JOBS_KV := JOBS_KV x; HEALING_KV := HEALING_KV x; clock := v;
     draws := draws x |}.
Definition set_draws (v : nat) (x : Sys) : Sys :=
  {| coordinator := coordinator x; engine := engine x; healer := healer x;
     JOBS_QUEUE := JOBS_QUEUE x; SCRAPE_QUEUE := SCRAPE_QUEUE x;
     HEALING_QUEUE := HEALING_QUEUE x; REPOS_KV := REPOS_KV x;
     JOBS_KV := JOBS_KV x; HEALING_KV := HEALING_KV x; clock := clock x;
     draws := v |}.

Definition set_repos (v : gmap string RepoData) (x : RepoSyncEngine) : RepoSyncEngine :=
  {| repos := v; lastFullSync := lastFullSync x;
     lastCohesivenessCheck := lastCohesivenessCheck x;
     inProgress := inProgress x; errors := errors x |}.
Definition set_lastFullSync (v : option Z) (x : RepoSyncEngine) : RepoSyncEngine :=
  {| repos := repos x; lastFullSync := v;
     lastCohesivenessCheck := lastCohesivenessCheck x;
     inProgress := inProgress x; errors := errors x |}.
Definition set_lastCohesivenessCheck (v : option Z) (x : RepoSyncEngine) : RepoSyncEngine :=
  {| repos := repos x; lastFullSync := lastFullSync x;
     lastCohesivenessCheck := v; inProgress := inProgress x;
     errors := errors x |}.
Definition set_inProgress (v : bool) (x : RepoSyncEngine) : RepoSyncEngine :=
  {| repos := repos x; lastFullSync := lastFullSync x;
     lastCohesivenessCheck := lastCohesivenessCheck x; inProgress := v;
     errors := errors x |}.
Definition set_errors (v : list SyncErrorEntry) (x : RepoSyncEngine) : RepoSyncEngine :=
  {| repos := repos x; lastFullSync := lastFullSync x;
     lastCohesivenessCheck := lastCohesivenessCheck x;
     inProgress := inProgress x; errors := v |}.
Definition set_tasks (v : gmap string HealingTask) (x : SelfHealer) : SelfHealer :=
  {| tasks := v; h_metrics := h_metrics x; strategies := strategies x |}.
Definition set_h_metrics (v : HealingMetrics) (x : SelfHealer) : SelfHealer :=
  {| tasks := tasks x; h_metrics := v; strategies := strategies x |}.
Definition set_strategies (v : gmap string StrategyStat) (x : SelfHealer) : SelfHealer :=
  {| tasks := tasks x; h_metrics := h_metrics x; strategies := v |}.
Definition set_jobs (v : gmap string AgentJob) (x : JobCoordinator) : JobCoordinator :=
  {| jobs := v; metrics := metrics x |}.
Definition set_metrics (v : JobMetrics) (x : JobCoordinator) : JobCoordinator :=
  {| jobs := jobs x; metrics := v |}.
Definition set_context (v : Bag) (x : HealingIssue) : HealingIssue :=
  {| hi_type := hi_type x; hi_severity := hi_severity x;
     description := description x; context := v;
     originalError := originalError x; stackTrace := stackTrace x |}.

(* --------------------------------------------------------------------- *)
(* State and exceptions: an async function of the source is a            *)
(* computation on the system state that returns or throws                *)
(* --------------------------------------------------------------------- *)

Definition M (A : Type) : Type := Sys -> Res A * Sys.

Global Instance M_ret : MRet M := fun A a s => (Ok a, s).

Global Instance M_bind : MBind M := fun A B f m s =>
  match m s with
  | (Ok a, s') => f a s'
  | (Throw e, s') => (Throw e, s')
  end.

Definition throw {A} (msg : string) : M A := fun s => (Throw msg, s).

(* try { m } catch (error) { h error.message } *)
Definition try_catch {A} (m : M A) (h : string -> M A) : M A := fun s =>
  match m s with
  | (Ok a, s') => (Ok a, s')
  | (Throw e, s') => h e s'
  end.

Definition gets {A} (f : Sys -> A) : M A := fun s => (Ok (f s), s).
Definition modify (f : Sys -> Sys) : M unit := fun s => (Ok tt, f s).

Definition run {A} (m : M A) (s : Sys) : Res A * Sys := m s.
Definition state_after {A} (m : M A) (s : Sys) : Sys := snd (m s).
Definition value_of {A} (m : M A) (s : Sys) : Res A := fst (m s).

(* for (const x of l) { await f(x) } *)
Fixpoint for_each {A} (l : list A) (f : A -> M unit) : M unit :=
  match l with
  | [] => mret tt
  | x :: r => f x ;; for_each r f
  end.

(* Platform primitives *)
Definition Date_now : M Z := gets clock.

Definition sleep (ms : option Z) : M unit :=
  modify (fun s => set_clock (clock s + default 0 ms) s).

Definition randomUUID (env : Env) : M string :=
  k ← gets draws;
  modify (fun s => set_draws (S k) s) ;;
  mret (uuid env k).

Definition Math_random_gt_half (env : Env) : M bool :=
  k ← gets draws;
  modify (fun s => set_draws (S k) s) ;;
  mret (random_gt_half env k).

(* `${v}` and an arithmetic operand inside an async function: a TypeError
   of the conversion is thrown. *)
Definition template (env : Env) (v : JS.Value) : M string :=
  match JS.ToString (runtime env) v with
  | Some s => mret s
  | None => throw JS.not_primitive
  end.

Definition operand (env : Env) (v : JS.Value) : M JS.Number :=
  match JS.ToNumber (runtime env) v with
  | Some x => mret x
  | None => throw JS.not_primitive
  end.

Definition JOBS_QUEUE_send (j : AgentJob) : M unit :=
  modify (fun s => set_JOBS_QUEUE (JOBS_QUEUE s ++ [j]) s).
Definition SCRAPE_QUEUE_send (t : ScrapeTask) : M unit :=
  modify (fun s => set_SCRAPE_QUEUE (SCRAPE_QUEUE s ++ [t]) s).
Definition HEALING_QUEUE_send (t : HealingTask) : M unit :=
  modify (fun s => set_HEALING_QUEUE (HEALING_QUEUE s ++ [t]) s).

Definition REPOS_KV_put (k : string) (v : KVValue) (ttl : option Z) : M unit :=
  modify (fun s => set_REPOS_KV
            (<[k := {| kv_value := v; expirationTtl := ttl; putAt := clock s |}]>
               (REPOS_KV s)) s).

(* An entry put with a TTL is gone once the TTL has elapsed. *)
Definition live (now : Z) (e : KVEntry) : bool :=
  match expirationTtl e with
  | Some ttl => Z.ltb now (putAt e + ttl * 1000)
  | None => true
  end.

Definition REPOS_KV_get (k : string) : M (option KVValue) :=
  s ← gets (fun s => s);
  mret (match REPOS_KV s !! k with
        | Some e => if live (clock s) e then Some (kv_value e) else None
        | None => None
        end).
Definition REPOS_KV_delete (k : string) : M unit :=
  modify (fun s => set_REPOS_KV (delete k (REPOS_KV s)) s).
Definition JOBS_KV_delete (k : string) : M unit :=
  modify (fun s => set_JOBS_KV (delete k (JOBS_KV s)) s).
Definition HEALING_KV_put (k : string) (v : KVValue) (ttl : option Z) : M unit :=
  modify (fun s => set_HEALING_KV
            (<[k := {| kv_value := v; expirationTtl := ttl; putAt := clock s |}]>
               (HEALING_KV s)) s).

Definition modify_coordinator (f : JobCoordinator -> JobCoordinator) : M unit :=
  modify (fun s => set_coordinator (f (coordinator s)) s).
Definition modify_engine (f : RepoSyncEngine -> RepoSyncEngine) : M unit :=
  modify (fun s => set_engine (f (engine s)) s).
Definition modify_healer (f : SelfHealer -> SelfHealer) : M unit :=
  modify (fun s => set_healer (f (healer s)) s).

(* --------------------------------------------------------------------- *)
(* JobCoordinator                                                        *)
(* --------------------------------------------------------------------- *)

Module Coordinator.

(* One property of a `Partial<AgentJob>` request body. *)
Inductive JobField :=
| F_id (v : string)
| F_type (v : JobType)
| F_status (v : JobStatus)
| F_priority (v : JobPriority)
| F_payload (v : Bag)
| F_retryCount (v : nat)
| F_maxRetries (v : nat)
| F_createdAt (v : Z)
| F_updatedAt (v : Z)
| F_completedAt (v : Z)
| F_error (v : string)
| F_result (v : JobResult)
| F_healingAttempts (v : nat).

Definition assign (j : AgentJob) (f : JobField) : AgentJob :=
  match f with
  | F_id v => set_job_id v j
  | F_type v => set_job_type v j
  | F_status v => set_job_status v j
  | F_priority v => set_priority v j
  | F_payload v => set_payload v j
  | F_retryCount v => set_retryCount v j
  | F_maxRetries v => set_maxRetries v j
  | F_createdAt v => set_createdAt v j
  | F_updatedAt v => set_updatedAt v j
  | F_completedAt v => set_completedAt (Some v) j
  | F_error v => set_error (Some v) j
  | F_result v => set_result (Some v) j
  | F_healingAttempts v => set_healingAttempts v j
  end.

(* Object.assign(job, updates) *)
Definition Object_assign (j : AgentJob) (updates : list JobField) : AgentJob :=
  fold_left assign updates j.

(* updates.status *)
Definition updates_status (updates : list JobField) : option JobStatus :=
  fold_left (fun acc f => match f with F_status v => Some v | _ => acc end)
            updates None.

Inductive JobResponse :=
| job_not_found
| job_ok (j : AgentJob)
| job_deleted (id : string).

Definition getJob (id : string) : M JobResponse :=
  c ← gets coordinator;
  match jobs c !! id with
  | None => mret job_not_found
  | Some job => mret (job_ok job)
  end.

(* Status bookkeeping of updateJob: which counter moves and whether
   completedAt is stamped. *)
Definition track_status (now : Z) (st : option JobStatus)
    (m : JobMetrics) (job : AgentJob) : JobMetrics * AgentJob :=
  match st with
  | Some new =>
      if decide (new = job_status job) then (m, job)
      else match new with
           | job_completed =>
               (set_totalCompleted (S (totalCompleted m)) m,
                set_completedAt (Some now) job)
           | job_failed => (set_totalFailed (S (totalFailed m)) m, job)
           | job_healing => (set_totalHealing (S (totalHealing m)) m, job)
           | _ => (m, job)
           end
  | None => (m, job)
  end.

Definition updateJob (id : string) (updates : list JobField) : M JobResponse :=
  c ← gets coordinator;
  match jobs c !! id with
  | None => mret job_not_found
  | Some job =>
      now ← Date_now;
      let '(m, job1) := track_status now (updates_status updates) (metrics c) job in
      let job2 := set_updatedAt now (Object_assign job1 updates) in
      modify_coordinator (fun _ => {| jobs := <[id := job2]> (jobs c); metrics := m |}) ;;
      mret (job_ok job2)
  end.

Definition deleteJob (id : string) : M JobResponse :=
  c ← gets coordinator;
  match jobs c !! id with
  | None => mret job_not_found
  | Some _ =>
      modify_coordinator (set_jobs (delete id (jobs c))) ;;
      mret (job_deleted id)
  end.

(* The test of the cleanup loop body. *)
Definition effective_completion (job : AgentJob) : Z :=
  match completedAt job with
  | Some t => t
  | None => updatedAt job
  end.

Definition expired (cutoffTime : Z) (job : AgentJob) : bool :=
  match job_status job with
  | job_completed | job_failed => Z.ltb (effective_completion job) cutoffTime
  | _ => false
  end.

Definition cleanup_step (cutoffTime : Z)
    (acc : gmap string AgentJob * nat) (e : string * AgentJob)
    : gmap string AgentJob * nat :=
  if expired cutoffTime (snd e)
  then (delete (fst e) (fst acc), S (snd acc))
  else acc.

Definition cleanup_loop (cutoffTime : Z) (js : gmap string AgentJob)
    : gmap string AgentJob * nat :=
  fold_left (cleanup_step cutoffTime) (map_to_list js) (js, 0%nat).

Definition cleanup : M CleanupResponse :=
  now ← Date_now;
  let cutoffTime := now - 24 * 60 * 60 * 1000 in
  c ← gets coordinator;
  let '(js, n) := cleanup_loop cutoffTime (jobs c) in
  modify_coordinator (set_jobs js) ;;
  mret {| cl_success := true; cleaned := n; remaining := size js |}.

(* The routes of JobCoordinator.fetch that other components call. *)
Inductive Request :=
| GET_job (id : string)
| PUT_job (id : string) (body : list JobField)
| DELETE_job (id : string)
| POST_cleanup.

Inductive Response :=
| resp_job (r : JobResponse)
| resp_cleanup (r : CleanupResponse)
| resp_not_found.

Definition fetch (req : Request) : M Response :=
  match req with
  | GET_job id => r ← getJob id; mret (resp_job r)
  | PUT_job id body => r ← updateJob id body; mret (resp_job r)
  | DELETE_job id => r ← deleteJob id; mret (resp_job r)
  | POST_cleanup => r ← cleanup; mret (resp_cleanup r)
  end.

(* [^/]+ matched against the whole of a string *)
Fixpoint no_slash (s : string) : bool :=
  match s with
  | EmptyString => true
  | String c r => (negb (Ascii.eqb c "/") && no_slash r)%bool
  end.

(* path.match(/^\/jobs\/([^/]+)$/): the id captured, jobMatch[1]. *)
Definition jobMatch (path : string) : option string :=
  if String.prefix "/jobs/" path then
    let id := String.substring 6 (String.length path - 6) path in
    if (negb (String.eqb id "") && no_slash id)%bool then Some id else None
  else None.

(* JobCoordinator.fetch on `new Request(url, { method: 'PUT', body })`.
   The path is `new URL(request.url).pathname`.  Of the routes only
   PUT /jobs/:id tests for the method PUT: the request reaches updateJob,
   with the id captured from the path, when the path matches, and is
   answered 404 { error: 'Not found' } when it does not. *)
Definition fetch_PUT (env : Env) (url : string) (body : list JobField)
    : M Response :=
  match jobMatch (JS.URL_pathname (runtime env) url) with
  | Some id => fetch (PUT_job id body)
  | None => mret resp_not_found
  end.

End Coordinator.

(* --------------------------------------------------------------------- *)
(* RepoSyncEngine                                                        *)
(* --------------------------------------------------------------------- *)

Module Engine.

Definition BLACKROAD_REPOS : list string :=
  [ "blackroad-prism-console"; "blackroad-content-scheduler"; "blackroad-os";
    "blackroad-cli"; "blackroad-sdk"; "blackroad-studio"; "blackroad-api";
    "blackroad-dashboard"; "blackroad-docs" ].

Definition full_scrape (id name : string) (p : JobPriority) : ScrapeTask :=
  {| sk_id := id; repoFullName := name; scrapeType := st_full;
     lastScrapeAt := None; sk_etag := None; sk_priority := p |}.

Definition conflict : FullSyncResponse :=
  {| fs_http := 409; fs_success := false;
     fs_message := "Sync already in progress";
     fs_repos := None; fs_timestamp := None |}.

Definition triggerFullSync (env : Env) : M FullSyncResponse :=
  e ← gets engine;
  if inProgress e then mret conflict
  else
    modify_engine (set_inProgress true) ;;
    let org := JS.str_or (BLACKROAD_ORG env) "BlackRoad-OS" in
    for_each BLACKROAD_REPOS (fun repoName =>
      id ← randomUUID env;
      SCRAPE_QUEUE_send (full_scrape id (org ++ "/" ++ repoName) prio_normal)) ;;
    now ← Date_now;
    modify_engine (fun e => set_inProgress false (set_lastFullSync (Some now) e)) ;;
    mret {| fs_http := 200; fs_success := true;
            fs_message := "Full sync triggered";
            fs_repos := Some (length BLACKROAD_REPOS);
            fs_timestamp := Some now |}.

(* Body of the first loop of triggerCohesivenessCheck. *)
Definition check_repo (e : string * RepoData) : M (string * CohesivenessScore) :=
  let '(repoName, repoData) := e in
  now ← Date_now;
  let score := Cohesiveness.calculateCohesiveness now repoData in
  modify_engine (fun en =>
    set_repos (<[repoName := set_cohesiveness repoData score]> (repos en)) en) ;;
  REPOS_KV_put ("cohesiveness:" ++ repoName) (kv_score score) (Some 3600) ;;
  mret (repoName, score).

Fixpoint check_repos (l : list (string * RepoData))
    : M (list (string * CohesivenessScore)) :=
  match l with
  | [] => mret []
  | e :: r =>
      x ← check_repo e;
      xs ← check_repos r;
      mret (x :: xs)
  end.

Definition cohesiveness_healing_task (id repo : string)
    (criticalIssues : list CohesivenessIssue) (now : Z) : HealingTask :=
  {| task_id := id;
     jobId := "cohesiveness-" ++ repo;
     issue := {| hi_type := "cohesiveness_issues";
                 hi_severity := hs_high;
                 description := pretty (length criticalIssues)
                                ++ " critical cohesiveness issues in " ++ repo;
                 context := <["issues" := JS.VArr (map Issue_json criticalIssues)]>
                              (<["repo" := JS.VStr repo]> ∅);
                 originalError := None;
                 stackTrace := None |};
     strategy := escalate_to_agent;
     attempts := 0;
     maxAttempts := 3;
     status := pending;
     resolution := None;
     t_createdAt := now;
     t_updatedAt := now |}.

(* Body of the second loop of triggerCohesivenessCheck. *)
Definition queue_healing (env : Env) (r : string * CohesivenessScore) : M unit :=
  let criticalIssues := Cohesiveness.critical_fixable (snd r) in
  if Nat.ltb 0 (length criticalIssues) then
    id ← randomUUID env;
    now ← Date_now;
    HEALING_QUEUE_send (cohesiveness_healing_task id (fst r) criticalIssues now)
  else mret tt.

Definition triggerCohesivenessCheck (env : Env) : M CohesivenessCheckResponse :=
  e ← gets engine;
  results ← check_repos (map_to_list (repos e));
  now ← Date_now;
  modify_engine (set_lastCohesivenessCheck (Some now)) ;;
  for_each results (queue_healing env) ;;
  mret {| cc_success := true; cc_results := results; cc_timestamp := now |}.

Definition syncRepo (env : Env) (repoName : string) : M SyncRepoResponse :=
  id ← randomUUID env;
  SCRAPE_QUEUE_send (full_scrape id repoName prio_high) ;;
  mret {| sr_success := true; sr_message := "Sync queued for " ++ repoName |}.

(* `updateRepo` is a public method of the class; no route of `fetch`
   reaches it. *)
Definition updateRepo (repoData : RepoData) : M unit :=
  modify_engine (fun en => set_repos (<[fullName repoData := repoData]> (repos en)) en) ;;
  REPOS_KV_put ("repo:" ++ fullName repoData) (kv_repo repoData) None.

Record ReposResponse := {
  rr_repos : list RepoData;
  rr_total : nat;
  rr_knownRepos : list string;
  rr_lastSync : option Z
}.

Definition listRepos : M ReposResponse :=
  e ← gets engine;
  let rs := map snd (map_to_list (repos e)) in
  mret {| rr_repos := rs; rr_total := length rs;
          rr_knownRepos := BLACKROAD_REPOS; rr_lastSync := lastFullSync e |}.

Record StatusResponse := {
  sr_inProgress : bool;
  sr_lastFullSync : option Z;
  sr_lastCohesivenessCheck : option Z;
  sr_repoCount : nat;
  sr_recentErrors : list SyncErrorEntry;
  sr_timestamp : Z
}.

(* errors.slice(-10) *)
Definition last_n {A} (n : nat) (l : list A) : list A :=
  skipn (length l - n) l.

Definition getStatus : M StatusResponse :=
  e ← gets engine;
  now ← Date_now;
  mret {| sr_inProgress := inProgress e;
          sr_lastFullSync := lastFullSync e;
          sr_lastCohesivenessCheck := lastCohesivenessCheck e;
          sr_repoCount := size (repos e);
          sr_recentErrors := last_n 10 (errors e);
          sr_timestamp := now |}.

Record ReportResponse := {
  rp_repos : list (string * CohesivenessScore);
  rp_totalRepos : nat;
  rp_averageScore : Z;
  rp_critical : nat;
  rp_warning : nat;
  rp_info : nat;
  rp_autoFixable : nat;
  rp_lastCheck : option Z
}.

Definition count_severity (s : Severity) (l : list CohesivenessIssue) : nat :=
  length (List.filter (fun i => bool_decide (severity i = s)) l).

Definition getCohesivenessReport : M ReportResponse :=
  e ← gets engine;
  let report := map (fun x => (fst x, cohesiveness (snd x))) (map_to_list (repos e)) in
  let scores := map (fun r => overall (snd r)) report in
  let avgScore :=
    if Nat.ltb 0 (length scores)
    then JS.Math_round_div (fold_left Z.add scores 0) (Z.of_nat (length scores))
    else 0 in
  let allIssues := flat_map (fun r => issues (snd r)) report in
  mret {| rp_repos := report;
          rp_totalRepos := size (repos e);
          rp_averageScore := avgScore;
          rp_critical := count_severity sev_critical allIssues;
          rp_warning := count_severity sev_warning allIssues;
          rp_info := count_severity sev_info allIssues;
          rp_autoFixable := length (List.filter autoFixable allIssues);
          rp_lastCheck := lastCohesivenessCheck e |}.

(* RepoSyncEngine.fetch: method and path of the request select the
   operation; anything else is answered 404. *)
Inductive Request :=
| GET_repos
| GET_status
| POST_sync_full
| POST_sync_cohesiveness
| POST_sync_repo (repoName : string)
| GET_cohesiveness
| other_request.

Inductive Response :=
| resp_repos (r : ReposResponse)
| resp_status (r : StatusResponse)
| resp_full_sync (r : FullSyncResponse)
| resp_check (r : CohesivenessCheckResponse)
| resp_sync_repo (r : SyncRepoResponse)
| resp_report (r : ReportResponse)
| resp_not_found.

Definition fetch (env : Env) (req : Request) : M Response :=
  match req with
  | GET_repos => r ← listRepos; mret (resp_repos r)
  | GET_status => r ← getStatus; mret (resp_status r)
  | POST_sync_full => r ← triggerFullSync env; mret (resp_full_sync r)
  | POST_sync_cohesiveness => r ← triggerCohesivenessCheck env; mret (resp_check r)
  | POST_sync_repo repoName => r ← syncRepo env repoName; mret (resp_sync_repo r)
  | GET_cohesiveness => r ← getCohesivenessReport; mret (resp_report r)
  | other_request => mret resp_not_found
  end.

End Engine.

(* --------------------------------------------------------------------- *)
(* SelfHealer                                                            *)
(* --------------------------------------------------------------------- *)

Module Healer.

Record StrategyConfig := {
  cfg_maxAttempts : nat;
  backoffMs : list Z;
  nextStrategy : option HealingStrategy
}.

Definition STRATEGY_CONFIGS (s : HealingStrategy) : StrategyConfig :=
  match s with
  | retry_with_backoff =>
      {| cfg_maxAttempts := 5; backoffMs := [1000; 2000; 4000; 8000; 16000];
         nextStrategy := Some clear_cache_retry |}
  | clear_cache_retry =>
      {| cfg_maxAttempts := 2; backoffMs := [2000; 5000];
         nextStrategy := Some switch_endpoint |}
  | switch_endpoint =>
      {| cfg_maxAttempts := 3; backoffMs := [1000; 3000; 5000];
         nextStrategy := Some reduce_batch_size |}
  | reduce_batch_size =>
      {| cfg_maxAttempts := 3; backoffMs := [1000; 2000; 3000];
         nextStrategy := Some notify_and_skip |}
  | notify_and_skip =>
      {| cfg_maxAttempts := 1; backoffMs := [0];
         nextStrategy := Some escalate_to_agent |}
  | full_reset =>
      {| cfg_maxAttempts := 1; backoffMs := [5000];
         nextStrategy := Some escalate_to_agent |}
  | escalate_to_agent =>
      {| cfg_maxAttempts := 1; backoffMs := [0]; nextStrategy := None |}
  end.

Definition HealingSeverity_name (s : HealingSeverity) : string :=
  match s with
  | hs_low => "low" | hs_medium => "medium" | hs_high => "high"
  | hs_critical => "critical"
  end.

Definition HealingIssue_json (i : HealingIssue) : JS.Value :=
  JS.VObj ([("type", JS.VStr (hi_type i));
            ("severity", JS.VStr (HealingSeverity_name (hi_severity i)));
            ("description", JS.VStr (description i));
            ("context", Bag_json (context i))]
           ++ opt_field "originalError" (originalError i)
           ++ opt_field "stackTrace" (stackTrace i)).

(* Strategy implementations.  The fields of `context` are tested for
   truthiness and converted where the code puts them in a template
   literal or divides them; the casts `as number` and `as string` of the
   source convert nothing. *)

Definition retryOriginalOperation (task : HealingTask) : M bool :=
  if (negb (String.eqb (jobId task) "")
      && negb (String.eqb (jobId task) "worker-error"))%bool
  then
    now ← Date_now;
    JOBS_QUEUE_send
      {| job_id := jobId task; job_type := sync_content;
         job_status := job_pending; priority := prio_high;
         payload := context (issue task);
         retryCount := attempts task; maxRetries := 5;
         createdAt := now; updatedAt := now;
         completedAt := None; error := None; result := None;
         healingAttempts := attempts task |} ;;
    mret true
  else mret false.

Definition retryWithBackoff (task : HealingTask) (delayMs : option Z) : M bool :=
  sleep delayMs ;;
  retryOriginalOperation task.

Definition clearRelatedCache (env : Env) (task : HealingTask) : M unit :=
  let context := context (issue task) in
  match truthy_field context "repoName" with
  | Some repoName =>
      name ← template env repoName;
      REPOS_KV_delete ("repo:" ++ name) ;;
      name ← template env repoName;
      REPOS_KV_delete ("cohesiveness:" ++ name)
  | None => mret tt
  end ;;
  match truthy_field context "jobId" with
  | Some jobId =>
      name ← template env jobId;
      JOBS_KV_delete ("cache:" ++ name)
  | None => mret tt
  end.

Definition trySwitchEndpoint (env : Env) (_task : HealingTask) : M bool :=
  Math_random_gt_half env.

(* (context.batchSize as number) || 10 *)
Definition currentBatch (context : Bag) : JS.Value :=
  match truthy_field context "batchSize" with
  | Some v => v
  | None => JS.VNum 10
  end.

Definition reduceBatchAndRetry (env : Env) (task : HealingTask)
    : M (HealingTask * bool) :=
  let context := context (issue task) in
  x ← operand env (currentBatch context);
  let newBatch := JS.max_1_floor_half x in
  let task' :=
    set_issue (set_context (<["batchSize" := newBatch]> context)
                           (issue task)) task in
  ok ← retryOriginalOperation task';
  mret (task', ok).

Definition notifyAndSkip (task : HealingTask) : M unit :=
  now ← Date_now;
  HEALING_KV_put ("skipped:" ++ task_id task) (kv_skipped task now)
                 (Some (7 * 24 * 60 * 60)).

(* The scrape task is sent with `repoFullName: context.repoName as string`;
   a ScrapeTask holds a string, and for a name that is no string it holds
   the text the two template literals before it have made of the name. *)
Definition performFullReset (env : Env) (task : HealingTask) : M bool :=
  let context := context (issue task) in
  match truthy_field context "repoName" with
  | Some repoName =>
      name ← template env repoName;
      REPOS_KV_delete ("repo:" ++ name) ;;
      name ← template env repoName;
      REPOS_KV_delete ("cohesiveness:" ++ name) ;;
      id ← randomUUID env;
      SCRAPE_QUEUE_send
        {| sk_id := id; repoFullName := name; scrapeType := st_full;
           lastScrapeAt := None; sk_etag := None; sk_priority := prio_critical |} ;;
      mret true
  | None => mret false
  end.

Definition escalation_payload (task : HealingTask) : Bag :=
  <["type" := JS.VStr "escalation"]>
  (<["taskId" := JS.VStr (task_id task)]>
  (<["issue" := HealingIssue_json (issue task)]>
  (<["message" := JS.VStr ("Self-healing exhausted all strategies for: "
                           ++ description (issue task))]> ∅))).

Definition escalateToAgent (env : Env) (task : HealingTask) : M unit :=
  now ← Date_now;
  HEALING_KV_put ("escalated:" ++ task_id task) (kv_escalated task now) None ;;
  id ← randomUUID env;
  now ← Date_now;
  JOBS_QUEUE_send
    {| job_id := id; job_type := notify; job_status := job_pending;
       priority := prio_critical; payload := escalation_payload task;
       retryCount := 0; maxRetries := 1;
       createdAt := now; updatedAt := now;
       completedAt := None; error := None; result := None;
       healingAttempts := 0 |}.

(* Per-strategy statistics, `this.strategies[name]`. *)
Definition no_stat : StrategyStat :=
  {| st_attempts := 0; st_successes := 0; st_failures := 0 |}.

Definition stat_of (m : gmap string StrategyStat) (name : string) : StrategyStat :=
  default no_stat (m !! name).

Definition record_attempt (name : string) (h : SelfHealer) : SelfHealer :=
  let st := stat_of (strategies h) name in
  set_strategies
    (<[name := {| st_attempts := S (st_attempts st);
                  st_successes := st_successes st;
                  st_failures := st_failures st |}]> (strategies h)) h.

Definition record_success (name : string) (h : SelfHealer) : SelfHealer :=
  let st := stat_of (strategies h) name in
  set_strategies
    (<[name := {| st_attempts := st_attempts st;
                  st_successes := S (st_successes st);
                  st_failures := st_failures st |}]> (strategies h)) h.

Definition record_failure (name : string) (h : SelfHealer) : SelfHealer :=
  let st := stat_of (strategies h) name in
  set_strategies
    (<[name := {| st_attempts := st_attempts st;
                  st_successes := st_successes st;
                  st_failures := S (st_failures st) |}]> (strategies h)) h.

Definition on_metrics (f : HealingMetrics -> HealingMetrics) (h : SelfHealer) : SelfHealer :=
  set_h_metrics (f (h_metrics h)) h.

Definition inc_totalAttempts (m : HealingMetrics) : HealingMetrics :=
  set_totalAttempts (S (totalAttempts m)) m.
Definition inc_escalations (m : HealingMetrics) : HealingMetrics :=
  set_escalations (S (escalations m)) m.
Definition inc_failedResolutions (m : HealingMetrics) : HealingMetrics :=
  set_failedResolutions (S (failedResolutions m)) m.

(* successfulResolutions++ and the rolling average of timeToResolve. *)
Definition count_resolution (timeToResolve : Z) (m : HealingMetrics) : HealingMetrics :=
  let totalResolved := S (successfulResolutions m) in
  set_averageTimeToResolve
    (JS.Math_round_div
       (averageTimeToResolve m * (Z.of_nat totalResolved - 1) + timeToResolve)
       (Z.of_nat totalResolved))
    (set_successfulResolutions totalResolved m).

(* The `switch (task.strategy)` of attemptHealing: the task as the case
   leaves it, `success` and `message`. *)
Definition execute_strategy (env : Env) (strategyConfig : StrategyConfig)
    (task : HealingTask) : M (HealingTask * (bool * string)) :=
  match strategy task with
  | retry_with_backoff =>
      ok ← retryWithBackoff task (backoffMs strategyConfig !! (attempts task - 1)%nat);
      mret (task, (ok, if (ok : bool) then "Retry succeeded" else "Retry failed"))
  | clear_cache_retry =>
      clearRelatedCache env task ;;
      ok ← retryOriginalOperation task;
      mret (task, (ok, if (ok : bool) then "Cache cleared and retry succeeded"
                       else "Cache clear did not help"))
  | switch_endpoint =>
      ok ← trySwitchEndpoint env task;
      mret (task, (ok, if (ok : bool) then "Switched to backup endpoint"
                       else "No backup endpoint available"))
  | reduce_batch_size =>
      '(task', ok) ← reduceBatchAndRetry env task;
      mret (task', (ok, if (ok : bool) then "Reduced batch size succeeded"
                        else "Batch reduction did not help"))
  | notify_and_skip =>
      notifyAndSkip task ;;
      mret (task, (true, "Issue logged and skipped"))
  | full_reset =>
      ok ← performFullReset env task;
      mret (task, (ok, if (ok : bool) then "Full reset completed" else "Full reset failed"))
  | escalate_to_agent =>
      escalateToAgent env task ;;
      modify_healer (on_metrics inc_escalations) ;;
      mret (set_status escalated task,
            (false, "Escalated to agent for manual resolution"))
  end.

(* The `else` arm of `if (success)`: next strategy, escalation or another
   round of the same strategy. *)
Definition on_failure (strategyConfig : StrategyConfig) (task : HealingTask)
    : M HealingTask :=
  match Nat.leb (maxAttempts task) (attempts task), nextStrategy strategyConfig with
  | true, Some next =>
      let task' :=
        set_status pending
          (set_maxAttempts (cfg_maxAttempts (STRATEGY_CONFIGS next))
             (set_attempts 0%nat (set_strategy next task))) in
      HEALING_QUEUE_send task' ;;
      mret task'
  | true, None =>
      modify_healer (on_metrics (fun m => inc_escalations (inc_failedResolutions m))) ;;
      mret (set_status escalated task)
  | false, _ =>
      let task' := set_status pending task in
      HEALING_QUEUE_send task' ;;
      mret task'
  end.

Definition attemptHealing (env : Env) (task0 : HealingTask) : M HealingResolution :=
  startTime ← Date_now;
  let task1 :=
    set_t_updatedAt startTime
      (set_attempts (S (attempts task0)) (set_status attempting task0)) in
  let strategyConfig := STRATEGY_CONFIGS (strategy task1) in
  let name := HealingStrategy_name (strategy task1) in
  modify_healer (fun h => record_attempt name (on_metrics inc_totalAttempts h)) ;;
  '(task2, (success, message)) ←
    try_catch (execute_strategy env strategyConfig task1)
              (fun e => mret (task1, (false, "Healing error: " ++ e)));
  endTime ← Date_now;
  let timeToResolve := endTime - startTime in
  task3 ←
    (if success then
       modify_healer (fun h =>
         on_metrics (count_resolution timeToResolve) (record_success name h)) ;;
       mret (set_status resolved task2)
     else
       modify_healer (record_failure name) ;;
       on_failure strategyConfig task2);
  now ← Date_now;
  let resolution :=
    {| r_strategy := strategy task3; success := success; message := message;
       attemptNumber := attempts task3; resolvedAt := now;
       timeToResolve := Some timeToResolve; resourcesUsed := Some 1%nat |} in
  let task4 := set_t_updatedAt now (set_resolution (Some resolution) task3) in
  modify_healer (fun h => set_tasks (<[task_id task4 := task4]> (tasks h)) h) ;;
  mret resolution.

Record HealResponse := {
  hr_success : bool;
  hr_message : option string;
  hr_task : option HealingTask;
  hr_resolution : option HealingResolution
}.

Definition processHealingTask (env : Env) (task : HealingTask) : M HealResponse :=
  modify_healer (fun h => set_tasks (<[task_id task := task]> (tasks h)) h) ;;
  if negb (String.eqb (SELF_HEAL_ENABLED env) "true") then
    now ← Date_now;
    let task' := set_t_updatedAt now (set_status escalated task) in
    modify_healer (fun h => set_tasks (<[task_id task' := task']> (tasks h)) h) ;;
    mret {| hr_success := false;
            hr_message := Some "Self-healing is disabled, task escalated";
            hr_task := Some task'; hr_resolution := None |}
  else
    r ← attemptHealing env task;
    h ← gets healer;
    mret {| hr_success := success r; hr_message := None;
            hr_task := tasks h !! task_id task; hr_resolution := Some r |}.

Inductive ResolveResponse :=
| task_not_found
| task_resolved (t : HealingTask).

Definition resolveTask (taskId : string) (resolution : HealingResolution)
    : M ResolveResponse :=
  h ← gets healer;
  match tasks h !! taskId with
  | None => mret task_not_found
  | Some task =>
      now ← Date_now;
      let task' :=
        set_t_updatedAt now
          (set_resolution (Some resolution) (set_status resolved task)) in
      modify_healer (fun h => set_tasks (<[taskId := task']> (tasks h)) h) ;;
      mret (task_resolved task')
  end.

(* runHealthCheck; the escalation rate `escalations / totalAttempts > 0.3`
   and its rounded percentage are taken in exact arithmetic. *)
Definition stale (now : Z) (t : HealingTask) : bool :=
  (bool_decide (status t = pending) && Z.ltb (30 * 60 * 1000) (now - t_createdAt t))%bool.

Definition stale_issue (t : HealingTask) : HealthIssue :=
  {| h_type := "stale_task"; h_severity := sev_warning;
     h_message := "Task " ++ task_id t ++ " has been pending for over 30 minutes" |}.

Definition escalation_issue (m : HealingMetrics) : list HealthIssue :=
  if (Nat.ltb 10 (totalAttempts m)
      && Nat.ltb (3 * totalAttempts m) (10 * escalations m))%bool
  then [ {| h_type := "high_escalation_rate"; h_severity := sev_critical;
            h_message :=
              "Escalation rate is "
              ++ pretty (JS.Math_round_div (100 * Z.of_nat (escalations m))
                                           (Z.of_nat (totalAttempts m)))
              ++ "% - review healing strategies" |} ]
  else [].

Definition runHealthCheck : M HealthCheckResponse :=
  now ← Date_now;
  h ← gets healer;
  let found :=
    (map stale_issue (List.filter (stale now) (map snd (map_to_list (tasks h))))
     ++ escalation_issue (h_metrics h))%list in
  mret {| healthy :=
            Nat.eqb (length (List.filter (fun i => is_critical (h_severity i)) found)) 0;
          hc_issues := found;
          hc_timestamp := now |}.

(* The POST routes of SelfHealer.fetch; its GET routes only read. *)
Inductive Request :=
| POST_heal (task : HealingTask)
| POST_resolve (taskId : string) (resolution : HealingResolution)
| POST_check.

Inductive Response :=
| resp_heal (r : HealResponse)
| resp_resolve (r : ResolveResponse)
| resp_health (r : HealthCheckResponse).

Definition fetch (env : Env) (req : Request) : M Response :=
  match req with
  | POST_heal task => r ← processHealingTask env task; mret (resp_heal r)
  | POST_resolve taskId resolution =>
      r ← resolveTask taskId resolution; mret (resp_resolve r)
  | POST_check => r ← runHealthCheck; mret (resp_health r)
  end.

End Healer.

(* --------------------------------------------------------------------- *)
(* GitHubScraper.scrapeRepo                                              *)
(* --------------------------------------------------------------------- *)

Module Scraper.

Definition lift {A} (r : Res A) : M A := fun s => (r, s).

(* `etag ? { 'If-None-Match': etag } : {}` *)
Definition sent_etag (etag : option string) : option string :=
  match etag with
  | Some e => if String.eqb e "" then None else Some e
  | None => None
  end.

Definition structure_for (gh : GitHub) (fullName : string)
    (scrapeType : ScrapeType) (default_branch : string) : M RepoStructure :=
  match scrapeType with
  | st_metadata => mret (minimal_structure gh fullName)
  | st_structure | st_full => lift (full_structure gh fullName default_branch)
  | _ =>
      cached ← REPOS_KV_get ("repo:" ++ fullName);
      match cached with
      | Some (kv_repo r) => mret (rd_structure r)
      | _ => mret (minimal_structure gh fullName)
      end
  end.

Definition scrapeRepo (env : Env) (fullName : string) (scrapeType : ScrapeType)
    (etag : option string) : M (option RepoData) :=
  match fetch_repo (github env) fullName (sent_etag etag) with
  | repo_not_modified => mret None
  | repo_error msg => throw msg
  | repo_ok repoInfo newEtag =>
      structure ← structure_for (github env) fullName scrapeType
                                (gh_default_branch repoInfo);
      now ← Date_now;
      mret (Some {| fullName := gh_full_name repoInfo;
                    rd_name := gh_name repoInfo;
                    rd_description := gh_description repoInfo;
                    defaultBranch := gh_default_branch repoInfo;
                    rd_language := gh_language repoInfo;
                    topics := gh_topics repoInfo;
                    visibility := gh_visibility repoInfo;
                    rd_structure := structure;
                    lastScrapedAt := now;
                    rd_etag := newEtag;
                    cohesiveness :=
                      Cohesiveness.calculateInitialCohesiveness now structure |})
  end.

End Scraper.

(* --------------------------------------------------------------------- *)
(* Queue processors                                                      *)
(* --------------------------------------------------------------------- *)

Module Processors.

(* What the consumer tells the queue about a message. *)
Inductive Disposition := ack | retry.

(* Job handlers.  A handler that calls a durable object returns the JSON
   of its response; the call is written as the operation its route
   dispatches to. *)

Definition handleScrapeRepoJob (env : Env) (job : AgentJob) : M JobResult :=
  match string_field (payload job) "repoName" with
  | None => throw "Missing repoName in payload"
  | Some repoName =>
      id ← randomUUID env;
      SCRAPE_QUEUE_send
        {| sk_id := id; repoFullName := repoName;
           scrapeType := match truthy_field (payload job) "force" with
                         | Some _ => st_full
                         | None => st_incremental
                         end;
           lastScrapeAt := None; sk_etag := None;
           sk_priority := priority job |} ;;
      mret (res_queued repoName)
  end.

Definition handleSyncContentJob (env : Env) (job : AgentJob) : M JobResult :=
  r ← Engine.triggerFullSync env;
  mret (res_full_sync r).

Definition handleCohesivenessJob (env : Env) (job : AgentJob) : M JobResult :=
  r ← Engine.triggerCohesivenessCheck env;
  mret (res_cohesiveness r).

Definition handleSelfHealJob (env : Env) (job : AgentJob) : M JobResult :=
  r ← Healer.runHealthCheck;
  mret (res_health r).

(* job.payload.targetRepos || [] *)
Definition targetRepos (p : Bag) : list string :=
  match truthy_field p "targetRepos" with
  | Some (JS.VArr l) =>
      flat_map (fun v => match v with JS.VStr s => [s] | _ => [] end) l
  | _ => []
  end.

Definition handleUpdateCacheJob (env : Env) (job : AgentJob) : M JobResult :=
  for_each (targetRepos (payload job)) (fun repo =>
    id ← randomUUID env;
    SCRAPE_QUEUE_send
      {| sk_id := id; repoFullName := repo; scrapeType := st_metadata;
         lastScrapeAt := None; sk_etag := None; sk_priority := prio_normal |}) ;;
  mret (res_update_cache (map (fun repo => (repo, true)) (targetRepos (payload job)))).

Definition handleFullSyncJob (env : Env) (job : AgentJob) : M JobResult :=
  r ← Engine.triggerFullSync env;
  mret (res_full_sync r).

Definition handleCleanupJob (env : Env) (job : AgentJob) : M JobResult :=
  r ← Coordinator.cleanup;
  mret (res_cleanup r).

Definition handleNotifyJob (env : Env) (job : AgentJob) : M JobResult :=
  mret (res_notified (payload job)).

(* The `switch (job.type)`; its `default` arm needs a value outside
   JobType. *)
Definition dispatch (env : Env) (job : AgentJob) : M JobResult :=
  match job_type job with
  | scrape_repo => handleScrapeRepoJob env job
  | sync_content => handleSyncContentJob env job
  | check_cohesiveness => handleCohesivenessJob env job
  | self_heal => handleSelfHealJob env job
  | update_cache => handleUpdateCacheJob env job
  | full_sync => handleFullSyncJob env job
  | cleanup_job => handleCleanupJob env job
  | notify => handleNotifyJob env job
  end.

Definition job_failure_task (id : string) (job : AgentJob)
    (errorMessage : string) (now : Z) : HealingTask :=
  {| task_id := id;
     jobId := job_id job;
     issue := {| hi_type := "job_failure";
                 hi_severity := hs_high;
                 description := "Job " ++ JobType_name (job_type job)
                                ++ " failed after " ++ pretty (maxRetries job)
                                ++ " retries";
                 context := <["jobId" := JS.VStr (job_id job)]>
                            (<["jobType" := JS.VStr (JobType_name (job_type job))]>
                            (<["payload" := Bag_json (payload job)]> ∅));
                 originalError := Some errorMessage;
                 stackTrace := None |};
     strategy := retry_with_backoff;
     attempts := 0;
     maxAttempts := 5;
     status := pending;
     resolution := None;
     t_createdAt := now;
     t_updatedAt := now |}.

(* `http://internal/jobs/${job.id}` *)
Definition job_url (job : AgentJob) : string :=
  "http://internal/jobs/" ++ job_id job.

(* The `try` block of the loop body of processJobQueue. *)
Definition run_job (env : Env) (job : AgentJob) : M Disposition :=
  Coordinator.fetch_PUT env (job_url job) [Coordinator.F_status job_running] ;;
  result ← dispatch env job;
  now ← Date_now;
  Coordinator.fetch_PUT env (job_url job)
    [Coordinator.F_status job_completed;
     Coordinator.F_result result;
     Coordinator.F_completedAt now] ;;
  mret ack.

(* The `catch` block of the loop body of processJobQueue. *)
Definition job_failed_handler (env : Env) (job : AgentJob) (errorMessage : string)
    : M Disposition :=
  if Nat.ltb (retryCount job) (maxRetries job) then
    Coordinator.fetch_PUT env (job_url job)
      [Coordinator.F_status job_pending;
       Coordinator.F_retryCount (retryCount job + 1);
       Coordinator.F_error errorMessage] ;;
    mret retry
  else
    Coordinator.fetch_PUT env (job_url job)
      [Coordinator.F_status job_healing;
       Coordinator.F_error errorMessage] ;;
    id ← randomUUID env;
    now ← Date_now;
    HEALING_QUEUE_send (job_failure_task id job errorMessage now) ;;
    mret ack.

Definition process_job (env : Env) (job : AgentJob) : M Disposition :=
  try_catch (run_job env job) (job_failed_handler env job).

Fixpoint process_all {A} (f : A -> M Disposition) (batch : list A)
    : M (list Disposition) :=
  match batch with
  | [] => mret []
  | m :: r =>
      d ← f m;
      ds ← process_all f r;
      mret (d :: ds)
  end.

Definition processJobQueue (env : Env) (batch : list AgentJob) : M (list Disposition) :=
  process_all (process_job env) batch.

Definition scrape_failure_task (id : string) (task : ScrapeTask)
    (errorMessage : string) (now : Z) : HealingTask :=
  {| task_id := id;
     jobId := "scrape-" ++ sk_id task;
     issue := {| hi_type := "scrape_failure";
                 hi_severity := hs_medium;
                 description := "Failed to scrape " ++ repoFullName task;
                 context := <["task" := ScrapeTask_json task]>
                            (<["repoName" := JS.VStr (repoFullName task)]> ∅);
                 originalError := Some errorMessage;
                 stackTrace := None |};
     strategy := retry_with_backoff;
     attempts := 0;
     maxAttempts := 3;
     status := pending;
     resolution := None;
     t_createdAt := now;
     t_updatedAt := now |}.

(* The `try` block of the loop body of processScrapeQueue. *)
Definition run_scrape (env : Env) (task : ScrapeTask) : M Disposition :=
  repoData ← Scraper.scrapeRepo env (repoFullName task) (scrapeType task)
                                (sk_etag task);
  match repoData with
  | Some rd =>
      Engine.fetch env (Engine.POST_sync_repo (repoFullName task)) ;;
      REPOS_KV_put ("repo:" ++ repoFullName task) (kv_repo rd) (Some 3600)
  | None => mret tt
  end ;;
  mret ack.

(* The `catch` block of the loop body of processScrapeQueue. *)
Definition scrape_failed_handler (env : Env) (task : ScrapeTask)
    (errorMessage : string) : M Disposition :=
  id ← randomUUID env;
  now ← Date_now;
  HEALING_QUEUE_send (scrape_failure_task id task errorMessage now) ;;
  mret retry.

Definition process_scrape (env : Env) (task : ScrapeTask) : M Disposition :=
  try_catch (run_scrape env task) (scrape_failed_handler env task).

Definition processScrapeQueue (env : Env) (batch : list ScrapeTask)
    : M (list Disposition) :=
  process_all (process_scrape env) batch.

Definition heal_success (r : Healer.Response) : bool :=
  match r with
  | Healer.resp_heal h => Healer.hr_success h
  | _ => false
  end.

Definition process_healing (env : Env) (task : HealingTask) : M Disposition :=
  try_catch
    (response ← Healer.fetch env (Healer.POST_heal task);
     mret (if heal_success response then ack else retry))
    (fun _ => mret retry).

Definition processHealingQueue (env : Env) (batch : list HealingTask)
    : M (list Disposition) :=
  process_all (process_healing env) batch.

End Processors.

(* --------------------------------------------------------------------- *)
(* Properties stated over the embedding                                  *)
(* --------------------------------------------------------------------- *)

(* overall = round((structure + naming + dependencies + config) / 4) *)
Definition mean_rounded (sc : CohesivenessScore) : Prop :=
  overall sc
  = JS.Math_round_div (structure sc + naming sc + dependencies sc + config sc) 4.

Definition b2z (b : bool) : Z := if b then 1 else 0.

(* What one check does to the running scores and to the issue array. *)
Definition effect (f : Cohesiveness.Acc → Cohesiveness.Acc) (dstructure dconfig : Z)
    (new : list CohesivenessIssue) : Prop :=
  ∀ a, Cohesiveness.structureScore (f a) = Cohesiveness.structureScore a - dstructure
       ∧ Cohesiveness.configScore (f a) = Cohesiveness.configScore a - dconfig
       ∧ Cohesiveness.found (f a) = (Cohesiveness.found a ++ new)%list.

(* The issues either scorer can emit are the ones of these five checks. *)
Definition emitted (s : RepoStructure) (sug : string) (readme : bool)
    : list CohesivenessIssue :=
  ((if negb (hasPackageJson s)
    then [Cohesiveness.mk_issue missing_config sev_warning "Missing package.json"
            "Add package.json for dependency management" true] else [])
   ++ (if negb (hasTsConfig s)
       then [Cohesiveness.mk_issue missing_config sev_info "Missing tsconfig.json" sug true]
       else [])
   ++ (if negb (hasWranglerConfig s)
       then [Cohesiveness.mk_issue missing_config sev_warning "Missing wrangler.toml"
               "Add Cloudflare Workers configuration" true] else [])
   ++ (if (negb (Cohesiveness.hasSrcDir s) && Cohesiveness.many_files s)%bool
       then [Cohesiveness.mk_issue structure_mismatch sev_info "No src/ directory found"
               "Consider organizing source files in src/" false] else [])
   ++ (if (readme && negb (Cohesiveness.hasReadme s))%bool
       then [Cohesiveness.mk_issue missing_config sev_info "Missing README.md"
               "Add documentation" true] else []))%list.

(* A job that cleanup must delete when it runs at `now`: completed or
   failed, and its completion time (completedAt, else updatedAt) more than
   24 hours old. *)
Definition deletable (now : Z) (j : AgentJob) : Prop :=
  (job_status j = job_completed ∨ job_status j = job_failed)
  ∧ from_option (fun t => t) (updatedAt j) (completedAt j) < now - 24 * 60 * 60 * 1000.

Global Instance deletable_dec now j : Decision (deletable now j).
Proof. unfold deletable. apply _. Defined.

(* The scrape tasks a full sync enqueues, the k-th one taking the k-th
   identifier drawn after `d`. *)
Definition full_sync_tasks (env : Env) (d : nat) : list ScrapeTask :=
  imap (fun k repoName =>
          Engine.full_scrape (uuid env (d + k))
            (JS.str_or (BLACKROAD_ORG env) "BlackRoad-OS" ++ "/" ++ repoName)
            prio_normal)
       Engine.BLACKROAD_REPOS.

(* What a strategy body may change in a task: not its identity, strategy
   or counters. *)
Definition same_course (t t' : HealingTask) : Prop :=
  task_id t' = task_id t ∧ strategy t' = strategy t
  ∧ attempts t' = attempts t ∧ maxAttempts t' = maxAttempts t.

(* The strategy is exhausted by the attempt being made. *)
Definition exhausted (task : HealingTask) : bool :=
  Nat.leb (maxAttempts task) (S (attempts task)).

Definition if_nat (b : bool) (n : nat) : nat := if b then n else 0%nat.

(* What one attemptHealing does to a task, to the healing queue and to
   the healer's counters, by the outcome of the strategy body. *)
Definition attempt_outcome (task : HealingTask) (s : Sys)
    (r : HealingResolution) (s' : Sys) : Prop :=
  ∃ stored,
    tasks (healer s') = <[task_id task := stored]> (tasks (healer s))
    ∧ task_id stored = task_id task
    ∧ resolution stored = Some r
    ∧ match success r, exhausted task,
            Healer.nextStrategy (Healer.STRATEGY_CONFIGS (strategy task)) with
      | true, _, _ =>
          status stored = resolved ∧ strategy stored = strategy task
          ∧ attempts stored = S (attempts task)
          ∧ maxAttempts stored = maxAttempts task
          ∧ HEALING_QUEUE s' = HEALING_QUEUE s
      | false, true, Some next =>
          status stored = pending ∧ strategy stored = next
          ∧ attempts stored = 0%nat
          ∧ maxAttempts stored
            = Healer.cfg_maxAttempts (Healer.STRATEGY_CONFIGS next)
          ∧ ∃ m, HEALING_QUEUE s' = (HEALING_QUEUE s ++ [m])%list
                 ∧ same_course stored m ∧ status m = pending
      | false, true, None =>
          status stored = escalated ∧ strategy stored = strategy task
          ∧ attempts stored = S (attempts task)
          ∧ maxAttempts stored = maxAttempts task
          ∧ HEALING_QUEUE s' = HEALING_QUEUE s
      | false, false, _ =>
          status stored = pending ∧ strategy stored = strategy task
          ∧ attempts stored = S (attempts task)
          ∧ maxAttempts stored = maxAttempts task
          ∧ ∃ m, HEALING_QUEUE s' = (HEALING_QUEUE s ++ [m])%list
                 ∧ same_course stored m ∧ status m = pending
      end
    ∧ let m := h_metrics (healer s) in
      let m' := h_metrics (healer s') in
      let gave_up :=
        (negb (success r) && exhausted task
         && bool_decide (Healer.nextStrategy
                           (Healer.STRATEGY_CONFIGS (strategy task)) = None))%bool in
      totalAttempts m' = S (totalAttempts m)
      ∧ successfulResolutions m'
        = (successfulResolutions m + if_nat (success r) 1)%nat
      ∧ failedResolutions m' = (failedResolutions m + if_nat gave_up 1)%nat
      ∧ escalations m'
        = (escalations m
           + if_nat (bool_decide (strategy task = escalate_to_agent)) 1
           + if_nat gave_up 1)%nat
      ∧ strategies (healer s')
        = let name := HealingStrategy_name (strategy task) in
          strategies
            ((if success r then Healer.record_success name
              else Healer.record_failure name)
               (Healer.record_attempt name (healer s))).



(* The one path of the graph that starts at a strategy. *)
Fixpoint path_from_fuel (fuel : nat) (a : HealingStrategy) : list HealingStrategy :=
  match fuel with
  | O => [a]
  | S k =>
      match Healer.nextStrategy (Healer.STRATEGY_CONFIGS a) with
      | Some b => a :: path_from_fuel k b
      | None => [a]
      end
  end.

Definition path_from (a : HealingStrategy) : list HealingStrategy :=
  path_from_fuel 7 a.


(* The message the healer put on the healing queue during an operation,
   if it put one. *)
Definition requeued (before after : list HealingTask) : option HealingTask :=
  last (drop (length before) after).

(* The strategies a task is executed under when every message the healer
   re-enqueues for it is delivered back to the healer, for at most n
   deliveries. *)
Fixpoint history (env : Env) (n : nat) (task : HealingTask) (s : Sys)
    : list HealingStrategy :=
  match n with
  | O => []
  | S k =>
      let s' := state_after (Healer.processHealingTask env task) s in
      strategy task ::
      match requeued (HEALING_QUEUE s) (HEALING_QUEUE s') with
      | Some m => history env k m s'
      | None => []
      end
  end.

(* The system once the healer has stored a task, `this.tasks.set(id, t)`. *)
Definition with_task (t : HealingTask) (s : Sys) : Sys :=
  set_healer (set_tasks (<[task_id t := t]> (tasks (healer s))) (healer s)) s.

(* The task stored by the healer under an id, and its status. *)
Definition stored_task (s : Sys) (id : string) : option HealingTask :=
  tasks (healer s) !! id.

Definition stored_status (s : Sys) (id : string) : option TaskStatus :=
  status <$> stored_task s id.

(* The PUT requests the job processor sends for a job reach the route
   PUT /jobs/:id with the job's own id: the URL parser leaves `/jobs/`
   followed by the id as the path of `http://internal/jobs/${job.id}`, and
   the id is one non-empty path segment. *)
Definition reaches_own_id (env : Env) (job : AgentJob) : Prop :=
  Coordinator.jobMatch (JS.URL_pathname (runtime env) (Processors.job_url job))
  = Some (job_id job).

Global Instance reaches_own_id_dec env job : Decision (reaches_own_id env job).
Proof. unfold reaches_own_id. apply _. Defined.

(* The job the PUT requests of the processor reach, if they reach one:
   the coordinator's job under the id captured from the path. *)
Definition reached_job (env : Env) (job : AgentJob) (s : Sys) : option AgentJob :=
  id ← Coordinator.jobMatch
         (JS.URL_pathname (runtime env) (Processors.job_url job));
  jobs (coordinator s) !! id.

(* The payload has the types JobPayload declares for the fields the job
   handlers read: repoName, when truthy, is a string, and targetRepos,
   when truthy, is an array of strings. *)
Definition is_string (v : JS.Value) : bool :=
  match v with JS.VStr _ => true | _ => false end.

Definition JobPayload_typed (p : Bag) : bool :=
  (match truthy_field p "repoName" with
   | Some v => is_string v
   | None => true
   end
   && match truthy_field p "targetRepos" with
      | Some (JS.VArr l) => forallb is_string l
      | Some _ => false
      | None => true
      end)%bool.

(* --------------------------------------------------------------------- *)
(* Concrete systems used to run the embedding                            *)
(* --------------------------------------------------------------------- *)

Module Scenario.

Definition file (p : string) : FileEntry :=
  {| fe_path := p; fe_type := entry_file; fe_size := None; fe_sha := None |}.

(* Ten files, no configuration file, no README, no src/ directory. *)
Definition bare_structure : RepoStructure :=
  {| files := map file ["a.ts"; "b.ts"; "c.ts"; "d.ts"; "e.ts";
                        "f.ts"; "g.ts"; "h.ts"; "i.ts"; "j.ts"];
     directories := ["lib"];
     configFiles := [];
     hasPackageJson := false;
     hasWranglerConfig := false;
     hasTsConfig := false;
     primaryLanguage := Some "TypeScript" |}.

(* package.json, tsconfig.json and wrangler.toml present. *)
Definition configured_structure : RepoStructure :=
  {| files := map file ["package.json"; "tsconfig.json"; "wrangler.toml";
                        "README.md"; "src/index.ts"];
     directories := ["src"];
     configFiles := [ {| cf_path := "package.json"; cf_type := cfg_package_json |};
                      {| cf_path := "tsconfig.json"; cf_type := cfg_tsconfig_json |};
                      {| cf_path := "wrangler.toml"; cf_type := cfg_wrangler_toml |} ];
     hasPackageJson := true;
     hasWranglerConfig := true;
     hasTsConfig := true;
     primaryLanguage := Some "TypeScript" |}.

Definition repo_with (name : string) (st : RepoStructure) : RepoData :=
  {| fullName := name; rd_name := name; rd_description := None;
     defaultBranch := "main"; rd_language := None; topics := [];
     visibility := "public"; rd_structure := st; lastScrapedAt := 0;
     rd_etag := None;
     cohesiveness := Cohesiveness.calculateInitialCohesiveness 0 st |}.

Definition bare_repo : RepoData := repo_with "acme/bare" bare_structure.

(* A code host that knows acme/foo, fully configured. *)
Definition acme_foo : GitHubRepo :=
  {| gh_name := "foo"; gh_full_name := "acme/foo"; gh_description := None;
     gh_default_branch := "main"; gh_language := Some "TypeScript";
     gh_topics := []; gh_visibility := "public" |}.

Definition host : GitHub :=
  {| fetch_repo := fun fullName _ =>
       if String.eqb fullName "acme/foo" then repo_ok acme_foo (Some "W/1")
       else repo_error "GitHub API error: 404 Not Found";
     minimal_structure := fun _ => configured_structure;
     full_structure := fun _ _ => Ok configured_structure |}.

(* The runtime on the inputs used below.  The pathname of
   `http://internal<path>`, with nothing in <path> to escape or to
   normalise, is <path> up to the first `?` or `#`; an integer prints in
   decimal; the empty string reads as 0 and a string of decimal digits as
   that integer.  No other string is read as a number below. *)
Fixpoint before_query (s : string) : string :=
  match s with
  | EmptyString => EmptyString
  | String c r =>
      if (Ascii.eqb c "?" || Ascii.eqb c "#")%bool then EmptyString
      else String c (before_query r)
  end.

Definition pathname (url : string) : string :=
  before_query (String.substring 15 (String.length url - 15) url).

Fixpoint digits (acc : Z) (s : string) : option Z :=
  match s with
  | EmptyString => Some acc
  | String c r =>
      let d := Z.of_nat (nat_of_ascii c) - 48 in
      if (Z.leb 0 d && Z.leb d 9)%bool then digits (10 * acc + d) r else None
  end.

Definition read_number (s : string) : JS.Number :=
  match s with
  | EmptyString => JS.Finite 0
  | _ => match digits 0 s with
         | Some n => JS.Finite (inject_Z n)
         | None => JS.NaN
         end
  end.

Definition js : JS.Runtime :=
  {| JS.URL_pathname := pathname;
     JS.Number_toString := pretty;
     JS.StringToNumber := read_number |}.

Definition env (self_heal : string) : Env :=
  {| ENVIRONMENT := "test"; BLACKROAD_ORG := "BlackRoad-OS";
     SELF_HEAL_ENABLED := self_heal; MAX_RETRY_ATTEMPTS := "3";
     github := host;
     uuid := fun k => "uuid-" ++ pretty k;
     random_gt_half := fun _ => false;
     runtime := js |}.

Definition no_job_metrics : JobMetrics :=
  {| totalCreated := 0; totalCompleted := 0; totalFailed := 0; totalHealing := 0 |}.

Definition no_healing_metrics : HealingMetrics :=
  {| totalAttempts := 0; successfulResolutions := 0; failedResolutions := 0;
     escalations := 0; averageTimeToResolve := 0 |}.

(* A freshly constructed system at clock reading `now`. *)
Definition fresh (now : Z) : Sys :=
  {| coordinator := {| jobs := ∅; metrics := no_job_metrics |};
     engine := {| repos := ∅; lastFullSync := None;
                  lastCohesivenessCheck := None; inProgress := false;
                  errors := [] |};
     healer := {| tasks := ∅; h_metrics := no_healing_metrics; strategies := ∅ |};
     JOBS_QUEUE := []; SCRAPE_QUEUE := []; HEALING_QUEUE := [];
     REPOS_KV := ∅; JOBS_KV := ∅; HEALING_KV := ∅;
     clock := now; draws := 0 |}.

Definition scrape_acme_foo : ScrapeTask :=
  {| sk_id := "t-1"; repoFullName := "acme/foo"; scrapeType := st_full;
     lastScrapeAt := None; sk_etag := None; sk_priority := prio_normal |}.

Definition some_issue : HealingIssue :=
  {| hi_type := "job_failure"; hi_severity := hs_high;
     description := "Job sync_content failed after 3 retries";
     context := ∅; originalError := Some "boom"; stackTrace := None |}.

Definition task_with (strat : HealingStrategy) (att max : nat) (st : TaskStatus)
    : HealingTask :=
  {| task_id := "h-1"; jobId := "worker-error"; issue := some_issue;
     strategy := strat; attempts := att; maxAttempts := max; status := st;
     resolution := None; t_createdAt := 0; t_updatedAt := 0 |}.

Definition manual_resolution : HealingResolution :=
  {| r_strategy := escalate_to_agent; success := true;
     message := "fixed by hand"; attemptNumber := 1; resolvedAt := 5000;
     timeToResolve := None; resourcesUsed := None |}.

(* A scrape_repo job whose payload lacks repoName: its handler throws. *)
Definition broken_job (retries max : nat) : AgentJob :=
  {| job_id := "j-1"; job_type := scrape_repo; job_status := job_pending;
     priority := prio_normal; payload := ∅;
     retryCount := retries; maxRetries := max;
     createdAt := 0; updatedAt := 0; completedAt := None; error := None;
     result := None; healingAttempts := 0 |}.

Definition with_job (j : AgentJob) (s : Sys) : Sys :=
  set_coordinator (set_jobs (<[job_id j := j]> (jobs (coordinator s)))
                            (coordinator s)) s.

Definition hour : Z := 60 * 60 * 1000.

Definition finished_job (id : string) (st : JobStatus) (done : Z) : AgentJob :=
  {| job_id := id; job_type := sync_content; job_status := st;
     priority := prio_normal; payload := ∅; retryCount := 0; maxRetries := 3;
     createdAt := 0; updatedAt := done;
     completedAt := match st with job_completed => Some done | _ => None end;
     error := None; result := None; healingAttempts := 0 |}.

(* Scenario S5 at clock reading 100 h: completed 25 h ago, completed 23 h
   ago, failed 30 h ago. *)
Definition day_jobs : gmap string AgentJob :=
  <["a" := finished_job "a" job_completed (75 * hour)]>
  (<["b" := finished_job "b" job_completed (77 * hour)]>
  (<["c" := finished_job "c" job_failed (70 * hour)]> ∅)).

Definition day_system : Sys :=
  set_coordinator (set_jobs day_jobs (coordinator (fresh (100 * hour))))
                  (fresh (100 * hour)).

End Scenario.

(* --------------------------------------------------------------------- *)
(* More of the source: the coordinator's read routes, the scraper's      *)
(* helpers, the worker's error handler                                   *)
(* --------------------------------------------------------------------- *)

Module JSLib.

(* String.prototype.endsWith *)
Definition endsWith (s suffix : string) : bool :=
  (Nat.leb (String.length suffix) (String.length s)
   && String.eqb (String.substring (String.length s - String.length suffix)
                                   (String.length suffix) s) suffix)%bool.

(* String.prototype.split for a one-character separator. *)
Fixpoint split (sep : ascii) (s : string) : list string :=
  match s with
  | EmptyString => [EmptyString]
  | String c r =>
      if Ascii.eqb c sep then EmptyString :: split sep r
      else match split sep r with
           | h :: t => String c h :: t
           | [] => [String c EmptyString]
           end
  end.

(* Array.prototype.pop, the value it returns. *)
Definition pop {A} (l : list A) : option A := last l.

(* Array.prototype.sort(cmp): stable; x is placed after y exactly when
   cmp(x, y) > 0. *)
Fixpoint insert_sorted {A} (cmp : A -> A -> Z) (x : A) (l : list A) : list A :=
  match l with
  | [] => [x]
  | y :: r => if Z.ltb 0 (cmp x y) then y :: insert_sorted cmp x r else x :: y :: r
  end.

Definition sort {A} (cmp : A -> A -> Z) (l : list A) : list A :=
  fold_right (insert_sorted cmp) [] l.

(* Array.prototype.slice(0, end); None is NaN, which counts as 0, and a
   negative end counts from the end of the array. *)
Definition slice0 {A} (l : list A) (end_ : option Z) : list A :=
  match end_ with
  | None => []
  | Some e =>
      if Z.ltb e 0
      then firstn (Z.to_nat (Z.max 0 (Z.of_nat (length l) + e))) l
      else firstn (Z.to_nat e) l
  end.

(* setTimeout clamps a negative or NaN delay to 0. *)
Definition timeout_delay (ms : option Z) : option Z :=
  Some (Z.max 0 (default 0 ms)).

End JSLib.

(* --------------------------------------------------------------------- *)
(* JobCoordinator: listJobs and getMetrics.  `parseInt` is the           *)
(* platform's; None is NaN.                                              *)
(* --------------------------------------------------------------------- *)

Module CoordinatorReads.

Definition JobStatus_name (s : JobStatus) : string :=
  match s with
  | job_pending => "pending" | job_running => "running"
  | job_completed => "completed" | job_failed => "failed"
  | job_healing => "healing"
  end.

(* The query string of GET /jobs: url.searchParams.get(...) of each. *)
Record ListQuery := {
  q_status : option string;
  q_type : option string;
  q_limit : option string
}.

Definition priorityOrder (p : JobPriority) : Z :=
  match p with
  | prio_critical => 0 | prio_high => 1 | prio_normal => 2 | prio_low => 3
  end.

(* The comparator given to jobs.sort. *)
Definition by_priority_then_newest (a b : AgentJob) : Z :=
  let pDiff := priorityOrder (priority a) - priorityOrder (priority b) in
  if negb (Z.eqb pDiff 0) then pDiff
  else createdAt b - createdAt a.

(* if (param) jobs = jobs.filter((j) => field(j) === param) *)
Definition filter_param (param : option string) (field : AgentJob -> string)
    (js : list AgentJob) : list AgentJob :=
  match param with
  | Some v =>
      if String.eqb v "" then js
      else List.filter (fun j => String.eqb (field j) v) js
  | None => js
  end.

(* get('limit') || '100' *)
Definition limit_text (q : ListQuery) : string :=
  match q_limit q with
  | Some v => JS.str_or v "100"
  | None => "100"
  end.

Record JobList := {
  jl_jobs : list AgentJob;
  jl_total : nat;
  jl_filtered : nat;
  jl_metrics : JobMetrics
}.

(* Array.from(this.jobs.values()) is taken in the order of map_to_list;
   the Map's own order is insertion order, which the job map does not
   record.  It only shows between jobs the comparator ranks equal. *)
Definition listJobs (parseInt : string -> option Z) (q : ListQuery) : M JobList :=
  c ← gets coordinator;
  let limit := parseInt (limit_text q) in
  let js0 := map snd (map_to_list (jobs c)) in
  let js1 := filter_param (q_status q) (fun j => JobStatus_name (job_status j)) js0 in
  let js2 := filter_param (q_type q) (fun j => JobType_name (job_type j)) js1 in
  let js3 := JSLib.sort by_priority_then_newest js2 in
  let js4 := JSLib.slice0 js3 limit in
  mret {| jl_jobs := js4; jl_total := size (jobs c);
          jl_filtered := length js4; jl_metrics := metrics c |}.

Record StatusCounts := {
  n_pending : nat;
  n_running : nat;
  n_completed : nat;
  n_failed : nat;
  n_healing : nat
}.

(* statusCounts[job.status]++ *)
Definition count_job (c : StatusCounts) (j : AgentJob) : StatusCounts :=
  match job_status j with
  | job_pending =>
      {| n_pending := S (n_pending c); n_running := n_running c;
         n_completed := n_completed c; n_failed := n_failed c;
         n_healing := n_healing c |}
  | job_running =>
      {| n_pending := n_pending c; n_running := S (n_running c);
         n_completed := n_completed c; n_failed := n_failed c;
         n_healing := n_healing c |}
  | job_completed =>
      {| n_pending := n_pending c; n_running := n_running c;
         n_completed := S (n_completed c); n_failed := n_failed c;
         n_healing := n_healing c |}
  | job_failed =>
      {| n_pending := n_pending c; n_running := n_running c;
         n_completed := n_completed c; n_failed := S (n_failed c);
         n_healing := n_healing c |}
  | job_healing =>
      {| n_pending := n_pending c; n_running := n_running c;
         n_completed := n_completed c; n_failed := n_failed c;
         n_healing := S (n_healing c) |}
  end.

Definition no_counts : StatusCounts :=
  {| n_pending := 0; n_running := 0; n_completed := 0; n_failed := 0;
     n_healing := 0 |}.

Record MetricsResponse := {
  mr_metrics : JobMetrics;
  statusCounts : StatusCounts;
  totalJobs : nat;
  mr_timestamp : Z
}.

Definition getMetrics : M MetricsResponse :=
  c ← gets coordinator;
  let counts := fold_left count_job (map snd (map_to_list (jobs c))) no_counts in
  now ← Date_now;
  mret {| mr_metrics := metrics c; statusCounts := counts;
          totalJobs := size (jobs c); mr_timestamp := now |}.

End CoordinatorReads.

(* --------------------------------------------------------------------- *)
(* GitHubScraper: the helpers behind the structure of a repository       *)
(* --------------------------------------------------------------------- *)

Module ScraperParts.

Definition config_file_names : list string :=
  [ "package.json"; "wrangler.toml"; "wrangler.json"; "tsconfig.json";
    ".eslintrc"; ".eslintrc.js"; ".eslintrc.json";
    ".prettierrc"; ".prettierrc.js"; ".prettierrc.json";
    "vitest.config.ts"; "jest.config.js"; "jest.config.ts" ].

Definition isConfigFile (filename : string) : bool :=
  (existsb (String.eqb filename) config_file_names
   || JSLib.endsWith filename ".config.js"
   || JSLib.endsWith filename ".config.ts")%bool.

Definition getConfigType (filename : string) : ConfigType :=
  if String.eqb filename "package.json" then cfg_package_json
  else if (String.eqb filename "wrangler.toml"
           || String.eqb filename "wrangler.json")%bool then cfg_wrangler_toml
  else if String.eqb filename "tsconfig.json" then cfg_tsconfig_json
  else cfg_other.

Definition extensionMap : list (string * string) :=
  [ (".ts", "TypeScript"); (".tsx", "TypeScript"); (".js", "JavaScript");
    (".jsx", "JavaScript"); (".py", "Python"); (".go", "Go"); (".rs", "Rust");
    (".java", "Java"); (".rb", "Ruby"); (".php", "PHP"); (".cs", "C#");
    (".cpp", "C++"); (".c", "C"); (".swift", "Swift"); (".kt", "Kotlin") ].

(* A plain object with string keys, in insertion order. *)
Fixpoint get {V} (o : list (string * V)) (k : string) : option V :=
  match o with
  | [] => None
  | (k', v) :: r => if String.eqb k' k then Some v else get r k
  end.

Fixpoint set {V} (o : list (string * V)) (k : string) (v : V) : list (string * V) :=
  match o with
  | [] => [(k, v)]
  | (k', v') :: r =>
      if String.eqb k' k then (k', v) :: r else (k', v') :: set r k v
  end.

(* '.' + file.path.split('.').pop() *)
Definition extension (path : string) : string :=
  match JSLib.pop (JSLib.split "." path) with
  | Some x => "." ++ x
  | None => ".undefined"
  end.

(* extensionMap[ext] *)
Definition language_of (f : FileEntry) : option string :=
  get extensionMap (extension (fe_path f)).

(* file.size || 1 *)
Definition size_or_1 (f : FileEntry) : Z :=
  match fe_size f with
  | Some n => if Z.eqb n 0 then 1 else n
  | None => 1
  end.

(* The body of the loop of detectLanguages. *)
Definition count_file (counts : list (string * Z)) (f : FileEntry)
    : list (string * Z) :=
  match language_of f with
  | Some language =>
      set counts language (default 0 (get counts language) + size_or_1 f)
  | None => counts
  end.

Definition detectLanguages (fs : list FileEntry) : list (string * Z) :=
  fold_left count_file fs [].

(* Object.entries(stats).sort((a, b) => b[1] - a[1])[0]?.[0] || null *)
Definition primary_of (stats : list (string * Z)) : option string :=
  match JSLib.sort (fun a b => snd b - snd a) stats with
  | (language, _) :: _ => if String.eqb language "" then None else Some language
  | [] => None
  end.

(* One entry of the recursive git tree the host returns. *)
Record TreeEntry := {
  te_path : string;
  te_type : string;
  te_sha : string;
  te_size : option Z
}.

(* entry.path.split('/').pop() || '' *)
Definition basename (path : string) : string :=
  match JSLib.pop (JSLib.split "/" path) with
  | Some x => JS.str_or x ""
  | None => ""
  end.

(* The three arrays getFullStructure fills. *)
Record Collected := {
  c_files : list FileEntry;
  c_directories : list string;
  c_configFiles : list ConfigFile
}.

(* The body of `for (const entry of tree.tree)`. *)
Definition process_entry (acc : Collected) (entry : TreeEntry) : Collected :=
  if String.eqb (te_type entry) "blob" then
    {| c_files := c_files acc
                  ++ [ {| fe_path := te_path entry; fe_type := entry_file;
                          fe_size := te_size entry;
                          fe_sha := Some (te_sha entry) |} ];
       c_directories := c_directories acc;
       c_configFiles :=
         if isConfigFile (basename (te_path entry))
         then c_configFiles acc
              ++ [ {| cf_path := te_path entry;
                      cf_type := getConfigType (basename (te_path entry)) |} ]
         else c_configFiles acc |}
  else if String.eqb (te_type entry) "tree" then
    {| c_files := c_files acc;
       c_directories := c_directories acc ++ [te_path entry];
       c_configFiles := c_configFiles acc |}
  else acc.

Global Instance ConfigType_eq_dec : EqDecision ConfigType.
Proof. solve_decision. Defined.

(* configFiles.some((c) => c.type === t) *)
Definition has_config (t : ConfigType) (l : list ConfigFile) : bool :=
  JS.some (fun c => bool_decide (cf_type c = t)) l.

(* getFullStructure once the tree has been fetched: the loop over
   tree.tree and the object returned. *)
Definition structure_of_tree (tree : list TreeEntry) : RepoStructure :=
  let acc := fold_left process_entry tree
               {| c_files := []; c_directories := []; c_configFiles := [] |} in
  {| files := c_files acc;
     directories := c_directories acc;
     configFiles := c_configFiles acc;
     hasPackageJson := has_config cfg_package_json (c_configFiles acc);
     hasWranglerConfig := has_config cfg_wrangler_toml (c_configFiles acc);
     hasTsConfig := has_config cfg_tsconfig_json (c_configFiles acc);
     primaryLanguage := primary_of (detectLanguages (c_files acc)) |}.

(* A contents answer of the host, GitHubContent. *)
Record GitHubContent := { gc_path : string; gc_sha : string; gc_size : Z }.

Definition configPaths : list string :=
  [ "package.json"; "wrangler.toml"; "tsconfig.json" ].

(* The body of the loop of getMinimalStructure; `found` is the content
   when the fetch returned and the response was ok, None when it was not
   ok or the fetch threw (the catch is empty). *)
Definition add_config (acc : list FileEntry * list ConfigFile)
    (path : string) (found : option GitHubContent)
    : list FileEntry * list ConfigFile :=
  match found with
  | Some content =>
      ((fst acc ++ [ {| fe_path := gc_path content; fe_type := entry_file;
                        fe_size := Some (gc_size content);
                        fe_sha := Some (gc_sha content) |} ])%list,
       (snd acc ++ [ {| cf_path := gc_path content;
                        cf_type := getConfigType path |} ])%list)
  | None => acc
  end.

(* getMinimalStructure over the host's answers for the three paths. *)
Definition minimal_structure_of (contents : string -> option GitHubContent)
    : RepoStructure :=
  let acc := fold_left (fun a path => add_config a path (contents path))
                       configPaths ([], []) in
  {| files := fst acc;
     directories := [];
     configFiles := snd acc;
     hasPackageJson := has_config cfg_package_json (snd acc);
     hasWranglerConfig := has_config cfg_wrangler_toml (snd acc);
     hasTsConfig := has_config cfg_tsconfig_json (snd acc);
     primaryLanguage := None |}.

(* What `fetch` hands back, as far as fetchWithRetry looks at it. *)
Record HttpResponse := {
  http_status : Z;
  retry_after : option string;
  http_body : JS.Value
}.

Definition rate_limited (r : HttpResponse) : bool :=
  (Z.eqb (http_status r) 403 || Z.eqb (http_status r) 429)%bool.

(* retryAfter ? parseInt(retryAfter) * 1000 : Math.pow(2, attempt) * 1000 *)
Definition waitTime (parseInt : string -> option Z) (r : HttpResponse)
    (attempt : nat) : option Z :=
  match retry_after r with
  | Some v =>
      if String.eqb v "" then Some (2 ^ Z.of_nat attempt * 1000)
      else (fun n => n * 1000) <$> parseInt v
  | None => Some (2 ^ Z.of_nat attempt * 1000)
  end.

(* The loop of fetchWithRetry with `left` iterations to go; `outcome k`
   is what the k-th call of fetch does, a response or a thrown error. *)
Fixpoint retry_loop (parseInt : string -> option Z)
    (outcome : nat -> Res HttpResponse) (left attempt : nat)
    (lastError : option string) : M HttpResponse :=
  match left with
  | O => throw (default "Max retries exceeded" lastError)
  | S k =>
      match outcome attempt with
      | Ok response =>
          if rate_limited response then
            sleep (JSLib.timeout_delay (waitTime parseInt response attempt)) ;;
            retry_loop parseInt outcome k (S attempt) lastError
          else mret response
      | Throw msg =>
          sleep (JSLib.timeout_delay (Some (2 ^ Z.of_nat attempt * 1000))) ;;
          retry_loop parseInt outcome k (S attempt) (Some msg)
      end
  end.

Definition fetchWithRetry (parseInt : string -> option Z)
    (outcome : nat -> Res HttpResponse) (maxRetries : nat) : M HttpResponse :=
  retry_loop parseInt outcome maxRetries 0 None.

End ScraperParts.

(* --------------------------------------------------------------------- *)
(* index.ts: the worker's error handler                                  *)
(* --------------------------------------------------------------------- *)

Module Worker.

Record WorkerError := { err_message : string; err_stack : option string }.

Definition worker_error_task (id : string) (err : WorkerError)
    (path method : string) (now : Z) : HealingTask :=
  {| task_id := id;
     jobId := "worker-error";
     issue := {| hi_type := "worker_error";
                 hi_severity := hs_high;
                 description := err_message err;
                 context := <["path" := JS.VStr path]>
                            (<["method" := JS.VStr method]> ∅);
                 originalError := Some (err_message err);
                 stackTrace := err_stack err |};
     strategy := retry_with_backoff;
     attempts := 0;
     maxAttempts := 5;
     status := pending;
     resolution := None;
     t_createdAt := now;
     t_updatedAt := now |}.

Record ErrorResponse := {
  er_http : Z;
  er_error : string;
  er_message : string;
  er_timestamp : Z
}.

(* app.onError; the send is not awaited, the message is enqueued. *)
Definition onError (env : Env) (err : WorkerError) (path method : string)
    : M ErrorResponse :=
  (if String.eqb (SELF_HEAL_ENABLED env) "true" then
     id ← randomUUID env;
     now ← Date_now;
     HEALING_QUEUE_send (worker_error_task id err path method now)
   else mret tt) ;;
  now ← Date_now;
  mret {| er_http := 500;
          er_error := "Internal Server Error";
          er_message := if String.eqb (ENVIRONMENT env) "development"
                        then err_message err else "An error occurred";
          er_timestamp := now |}.

End Worker.

(* --------------------------------------------------------------------- *)
(* Properties stated over these definitions                              *)
(* --------------------------------------------------------------------- *)

(* a may stand before b in the answer of GET /jobs: a more urgent
   priority, or the same priority and not created earlier. *)
Definition listed_before (a b : AgentJob) : Prop :=
  (CoordinatorReads.priorityOrder (priority a)
   < CoordinatorReads.priorityOrder (priority b))%Z
  ∨ (priority a = priority b ∧ (createdAt b ≤ createdAt a)%Z).

(* A query parameter lets a value through: absent or empty, or equal. *)
Definition selected (param : option string) (v : string) : Prop :=
  match param with
  | Some p => p = "" ∨ v = p
  | None => True
  end.

Global Instance selected_dec param v : Decision (selected param v).
Proof. destruct param; cbn; apply _. Defined.

Definition matches (q : CoordinatorReads.ListQuery) (j : AgentJob) : Prop :=
  selected (CoordinatorReads.q_status q)
           (CoordinatorReads.JobStatus_name (job_status j))
  ∧ selected (CoordinatorReads.q_type q) (JobType_name (job_type j)).

Global Instance matches_dec q j : Decision (matches q j).
Proof. unfold matches. apply _. Defined.

(* The stored jobs in a status. *)
Definition jobs_in (st : JobStatus) (m : gmap string AgentJob) : nat :=
  size (filter (fun e : string * AgentJob => job_status e.2 = st) m).

(* The structure an incremental scrape finds cached for a repository:
   the one of the repo data under `repo:{name}`, while that entry is
   live. *)
Definition cached_structure (s : Sys) (name : string) : option RepoStructure :=
  match REPOS_KV s !! ("repo:" ++ name) with
  | Some e =>
      if live (clock s) e
      then match kv_value e with
           | kv_repo r => Some (rd_structure r)
           | _ => None
           end
      else None
  | None => None
  end.

(* A repository with its score replaced by the engine's, taken at `now`. *)
Definition rescored (now : Z) (r : RepoData) : RepoData :=
  set_cohesiveness r (Cohesiveness.calculateCohesiveness now r).

(* attemptHealing up to its strategy body: the task as the body receives
   it and the system the body starts in. *)
Definition attempting_task (now : Z) (task : HealingTask) : HealingTask :=
  set_t_updatedAt now
    (set_attempts (S (attempts task)) (set_status attempting task)).

Definition attempt_started (task : HealingTask) (s : Sys) : Sys :=
  set_healer
    (Healer.record_attempt (HealingStrategy_name (strategy task))
       (Healer.on_metrics Healer.inc_totalAttempts (healer s))) s.

(* The task names a job that retryOriginalOperation re-enqueues. *)
Definition names_a_job (task : HealingTask) : bool :=
  (negb (String.eqb (jobId task) "")
   && negb (String.eqb (jobId task) "worker-error"))%bool.

(* What the healer makes of a field of the context that it puts in a
   key: nothing when the field is falsy, its text, or no text at all when
   the conversion ends in a TypeError. *)
Inductive Named :=
| unnamed
| named (text : string)
| unprintable.

Definition named_by (env : Env) (ctx : Bag) (k : string) : Named :=
  match truthy_field ctx k with
  | None => unnamed
  | Some v =>
      match JS.ToString (runtime env) v with
      | Some text => named text
      | None => unprintable
      end
  end.

Definition printable (n : Named) : bool :=
  match n with unprintable => false | _ => true end.

(* The conversions in the strategy body of a task go through: the texts
   of repoName and jobId under clear_cache_retry, the number of the batch
   size under reduce_batch_size, the text of repoName under full_reset.
   The other bodies convert nothing. *)
Definition converts (env : Env) (task : HealingTask) : bool :=
  let ctx := context (issue task) in
  match strategy task with
  | clear_cache_retry =>
      (printable (named_by env ctx "repoName")
       && printable (named_by env ctx "jobId"))%bool
  | reduce_batch_size =>
      match JS.ToNumber (runtime env) (Healer.currentBatch ctx) with
      | Some _ => true
      | None => false
      end
  | full_reset => printable (named_by env ctx "repoName")
  | _ => true
  end.

(* Every strategy's attempts are its successes plus its failures. *)
Definition balanced (h : SelfHealer) : Prop :=
  ∀ name,
    let st := Healer.stat_of (strategies h) name in
    st_attempts st = (st_successes st + st_failures st)%nat.

(* Two systems that differ at most in the healer and the healing queue. *)
Definition same_outside_healer (s s' : Sys) : Prop :=
  coordinator s' = coordinator s ∧ engine s' = engine s
  ∧ JOBS_QUEUE s' = JOBS_QUEUE s ∧ SCRAPE_QUEUE s' = SCRAPE_QUEUE s
  ∧ REPOS_KV s' = REPOS_KV s ∧ JOBS_KV s' = JOBS_KV s
  ∧ HEALING_KV s' = HEALING_KV s
  ∧ clock s' = clock s ∧ draws s' = draws s.

(* The job retryOriginalOperation puts on the job queue for a task. *)
Definition is_retry_of (task : HealingTask) (j : AgentJob) : Prop :=
  job_id j = jobId task ∧ job_type j = sync_content
  ∧ job_status j = job_pending ∧ priority j = prio_high
  ∧ retryCount j = attempts task ∧ maxRetries j = 5%nat
  ∧ payload j = context (issue task).

(* The healer's counters agree with each other: every strategy is
   balanced, and the resolutions counted do not exceed the attempts. *)
Definition consistent (h : SelfHealer) : Prop :=
  balanced h
  ∧ (successfulResolutions (h_metrics h) + failedResolutions (h_metrics h)
     ≤ totalAttempts (h_metrics h))%nat.

(* An entry of the git tree is a file (blob) or a directory (tree). *)
Definition is_blob (e : ScraperParts.TreeEntry) : Prop :=
  ScraperParts.te_type e = "blob".

Definition is_tree (e : ScraperParts.TreeEntry) : Prop :=
  ScraperParts.te_type e = "tree".

Global Instance is_blob_dec e : Decision (is_blob e).
Proof. unfold is_blob. apply _. Defined.

Global Instance is_tree_dec e : Decision (is_tree e).
Proof. unfold is_tree. apply _. Defined.

(* Some file of the tree, at any depth, has this base name. *)
Definition has_file_named (tree : list ScraperParts.TreeEntry) (name : string)
    : Prop :=
  ∃ e, e ∈ tree ∧ is_blob e
       ∧ ScraperParts.basename (ScraperParts.te_path e) = name.

(* The bytes counted for a language: the sizes of the files whose
   extension maps to it, a file without a size counting 1. *)
Definition language_total (fs : list FileEntry) (language : string) : Z :=
  fold_right Z.add 0
    (map ScraperParts.size_or_1
       (filter (fun f => ScraperParts.language_of f = Some language) fs)).

(* An answer of fetch that ends the retry loop: a response that is not
   rate limited. *)
Definition settled (r : Res ScraperParts.HttpResponse)
    : option ScraperParts.HttpResponse :=
  match r with
  | Ok response =>
      if ScraperParts.rate_limited response then None else Some response
  | Throw _ => None
  end.

Definition first_settled (l : list (Res ScraperParts.HttpResponse))
    : option ScraperParts.HttpResponse :=
  head (omap settled l).

(* The message of the last error fetch threw. *)
Definition thrown (r : Res ScraperParts.HttpResponse) : option string :=
  match r with
  | Ok _ => None
  | Throw msg => Some msg
  end.

Definition last_thrown (l : list (Res ScraperParts.HttpResponse)) : option string :=
  last (omap thrown l).

(* ===================================================================== *)
(* Theorems                                                              *)
(* ===================================================================== *)

(* Symbolic execution: once the system state is split into its fields,
   the monad, the platform primitives and the field accessors are
   evaluated call-by-value. *)
Ltac mrun :=
  cbv beta iota zeta delta
    [run state_after value_of fst snd mbind M_bind mret M_ret gets modify
     throw try_catch template operand
     modify_engine modify_healer modify_coordinator Date_now sleep
     randomUUID Math_random_gt_half
     SCRAPE_QUEUE_send HEALING_QUEUE_send JOBS_QUEUE_send
     REPOS_KV_put REPOS_KV_get REPOS_KV_delete JOBS_KV_delete HEALING_KV_put
     set_coordinator set_engine set_healer set_JOBS_QUEUE set_SCRAPE_QUEUE
     set_HEALING_QUEUE set_REPOS_KV set_JOBS_KV set_HEALING_KV set_clock set_draws
     coordinator engine healer JOBS_QUEUE SCRAPE_QUEUE HEALING_QUEUE
     REPOS_KV JOBS_KV HEALING_KV clock draws
     set_repos set_lastFullSync set_lastCohesivenessCheck set_inProgress set_errors
     repos lastFullSync lastCohesivenessCheck inProgress errors
     set_tasks set_h_metrics set_strategies tasks h_metrics strategies
     set_jobs set_metrics jobs metrics].

(* The same, with every `try` block left as it stands. *)
Ltac mrun_outside_try :=
  cbv beta iota zeta delta
    [run state_after value_of fst snd mbind M_bind mret M_ret gets modify
     throw template operand
     modify_engine modify_healer modify_coordinator Date_now sleep
     randomUUID Math_random_gt_half
     SCRAPE_QUEUE_send HEALING_QUEUE_send JOBS_QUEUE_send
     REPOS_KV_put REPOS_KV_get REPOS_KV_delete JOBS_KV_delete HEALING_KV_put
     set_coordinator set_engine set_healer set_JOBS_QUEUE set_SCRAPE_QUEUE
     set_HEALING_QUEUE set_REPOS_KV set_JOBS_KV set_HEALING_KV set_clock set_draws
     coordinator engine healer JOBS_QUEUE SCRAPE_QUEUE HEALING_QUEUE
     REPOS_KV JOBS_KV HEALING_KV clock draws
     set_repos set_lastFullSync set_lastCohesivenessCheck set_inProgress set_errors
     repos lastFullSync lastCohesivenessCheck inProgress errors
     set_tasks set_h_metrics set_strategies tasks h_metrics strategies
     set_jobs set_metrics jobs metrics].

Ltac split_sys s :=
  let c := fresh "c" in let e := fresh "e" in let h := fresh "h" in
  let jq := fresh "jq" in let sq := fresh "sq" in let hq := fresh "hq" in
  let rkv := fresh "rkv" in let jkv := fresh "jkv" in let hkv := fresh "hkv" in
  let clk := fresh "clk" in let d := fresh "d" in
  destruct s as [c e h jq sq hq rkv jkv hkv clk d].

Lemma bind_run {A B} (m : M A) (f : A → M B) s :
  (m ≫= f) s
  = match m s with
    | (Ok a, s') => f a s'
    | (Throw e, s') => (Throw e, s')
    end.
Proof. reflexivity. Qed.

(* --------------------------------------------------------------------- *)
(* Cohesiveness scorer                                                   *)
(* --------------------------------------------------------------------- *)

Section Scorer.
Import Cohesiveness.

Lemma config_check_effect c n i :
  effect (when c (config_penalty n i)) 0 (n * b2z c) (if c then [i] else []).
Proof.
  intros a. unfold when. destruct c; cbn.
  - repeat split; try reflexivity; lia.
  - rewrite app_nil_r. repeat split; lia.
Qed.

Lemma structure_check_effect c n i :
  effect (when c (structure_penalty n i)) (n * b2z c) 0 (if c then [i] else []).
Proof.
  intros a. unfold when. destruct c; cbn.
  - repeat split; try reflexivity; lia.
  - rewrite app_nil_r. repeat split; lia.
Qed.

Lemma check_package_effect s :
  effect (check_package s) 0 (30 * b2z (negb (hasPackageJson s)))
    (if negb (hasPackageJson s)
     then [mk_issue missing_config sev_warning "Missing package.json"
             "Add package.json for dependency management" true]
     else []).
Proof. apply config_check_effect. Qed.

Lemma check_tsconfig_effect sug s :
  effect (check_tsconfig sug s) 0 (20 * b2z (negb (hasTsConfig s)))
    (if negb (hasTsConfig s)
     then [mk_issue missing_config sev_info "Missing tsconfig.json" sug true]
     else []).
Proof. apply config_check_effect. Qed.

Lemma check_wrangler_effect s :
  effect (check_wrangler s) 0 (25 * b2z (negb (hasWranglerConfig s)))
    (if negb (hasWranglerConfig s)
     then [mk_issue missing_config sev_warning "Missing wrangler.toml"
             "Add Cloudflare Workers configuration" true]
     else []).
Proof. apply config_check_effect. Qed.

Lemma check_src_effect s :
  effect (check_src s) (20 * b2z (negb (hasSrcDir s) && many_files s)) 0
    (if (negb (hasSrcDir s) && many_files s)%bool
     then [mk_issue structure_mismatch sev_info "No src/ directory found"
             "Consider organizing source files in src/" false]
     else []).
Proof. apply structure_check_effect. Qed.

Lemma check_readme_effect s :
  effect (check_readme s) (10 * b2z (negb (hasReadme s))) 0
    (if negb (hasReadme s)
     then [mk_issue missing_config sev_info "Missing README.md"
             "Add documentation" true]
     else []).
Proof. apply structure_check_effect. Qed.

Lemma effect_compose f g ds1 dc1 n1 ds2 dc2 n2 :
  effect f ds1 dc1 n1 → effect g ds2 dc2 n2 →
  effect (fun a => g (f a)) (ds1 + ds2) (dc1 + dc2) (n1 ++ n2).
Proof.
  intros Hf Hg a. destruct (Hf a) as (H1 & H2 & H3), (Hg (f a)) as (H4 & H5 & H6).
  rewrite H4, H5, H6, H1, H2, H3, app_assoc. repeat split; lia.
Qed.

Lemma engine_checks_spec s :
  structureScore (engine_checks s)
  = 100 - 20 * b2z (negb (hasSrcDir s) && many_files s)
        - 10 * b2z (negb (hasReadme s))
  ∧ configScore (engine_checks s)
    = 100 - 30 * b2z (negb (hasPackageJson s))
          - 20 * b2z (negb (hasTsConfig s))
          - 25 * b2z (negb (hasWranglerConfig s))
  ∧ found (engine_checks s)
    = emitted s "Add TypeScript configuration for type safety" true.
Proof.
  pose proof (effect_compose _ _ _ _ _ _ _ _
    (effect_compose _ _ _ _ _ _ _ _
      (effect_compose _ _ _ _ _ _ _ _
        (effect_compose _ _ _ _ _ _ _ _
          (check_package_effect s)
          (check_tsconfig_effect "Add TypeScript configuration for type safety" s))
        (check_wrangler_effect s))
      (check_src_effect s))
    (check_readme_effect s) start) as (H1 & H2 & H3).
  unfold engine_checks, emitted. rewrite H1, H2, H3.
  cbn [structureScore configScore found start andb app].
  rewrite <- !app_assoc. repeat split; try lia; reflexivity.
Qed.

Lemma scraper_checks_spec s :
  structureScore (scraper_checks s)
  = 100 - 20 * b2z (negb (hasSrcDir s) && many_files s)
  ∧ configScore (scraper_checks s)
    = 100 - 30 * b2z (negb (hasPackageJson s))
          - 20 * b2z (negb (hasTsConfig s))
          - 25 * b2z (negb (hasWranglerConfig s))
  ∧ found (scraper_checks s) = emitted s "Add TypeScript configuration" false.
Proof.
  pose proof (effect_compose _ _ _ _ _ _ _ _
    (effect_compose _ _ _ _ _ _ _ _
      (effect_compose _ _ _ _ _ _ _ _
        (check_package_effect s)
        (check_tsconfig_effect "Add TypeScript configuration" s))
      (check_wrangler_effect s))
    (check_src_effect s) start) as (H1 & H2 & H3).
  unfold scraper_checks, emitted. rewrite H1, H2, H3.
  cbn [structureScore configScore found start andb app].
  rewrite <- !app_assoc, app_nil_r. repeat split; try lia; reflexivity.
Qed.

(* The sub-scores are the ones left after every penalty. *)
Lemma engine_subscores now repo :
  let s := rd_structure repo in
  let sc := calculateCohesiveness now repo in
  config sc = 100 - 30 * b2z (negb (hasPackageJson s))
                  - 20 * b2z (negb (hasTsConfig s))
                  - 25 * b2z (negb (hasWranglerConfig s))
  ∧ structure sc = 100 - 20 * b2z (negb (hasSrcDir s) && many_files s)
                       - 10 * b2z (negb (hasReadme s))
  ∧ naming sc = 100 ∧ dependencies sc = 100.
Proof.
  destruct (engine_checks_spec (rd_structure repo)) as (H1 & H2 & _).
  cbn. rewrite H1, H2. auto.
Qed.

Lemma scraper_subscores now s :
  let sc := calculateInitialCohesiveness now s in
  config sc = 100 - 30 * b2z (negb (hasPackageJson s))
                  - 20 * b2z (negb (hasTsConfig s))
                  - 25 * b2z (negb (hasWranglerConfig s))
  ∧ structure sc = 100 - 20 * b2z (negb (hasSrcDir s) && many_files s)
  ∧ naming sc = 100 ∧ dependencies sc = 100.
Proof.
  destruct (scraper_checks_spec s) as (H1 & H2 & _).
  cbn. rewrite H1, H2. auto.
Qed.

Lemma overall_of_engine_score now repo :
  mean_rounded (calculateCohesiveness now repo).
Proof. reflexivity. Qed.

Lemma overall_of_scraper_score now s :
  mean_rounded (calculateInitialCohesiveness now s).
Proof. unfold mean_rounded. cbn. f_equal. lia. Qed.

(* The data the scraper returns carries such a score. *)
Lemma scraped_score_is_rounded_mean env name ty etag s rd s' :
  Scraper.scrapeRepo env name ty etag s = (Ok (Some rd), s') →
  mean_rounded (cohesiveness rd).
Proof.
  unfold Scraper.scrapeRepo.
  destruct (fetch_repo _ _ _) as [| msg | info newEtag]; try discriminate.
  rewrite bind_run.
  destruct (Scraper.structure_for _ _ _ _ s) as [[st | e] s1]; [| discriminate].
  split_sys s1. mrun. intros [= <- _]. apply overall_of_scraper_score.
Qed.

(** C4: every score the system computes, by the engine's check
    (calculateCohesiveness) or by the scraper (calculateInitialCohesiveness),
    has overall = round((structure + naming + dependencies + config) / 4),
    the sub-scores being the penalised ones. *)
Theorem overall_is_rounded_mean :
  (∀ now repo, mean_rounded (Cohesiveness.calculateCohesiveness now repo))
  ∧ (∀ now s, mean_rounded (Cohesiveness.calculateInitialCohesiveness now s)).
Proof.
  split; intros.
  - apply overall_of_engine_score.
  - apply overall_of_scraper_score.
Qed.

Lemma emitted_severity s sug readme i :
  i ∈ emitted s sug readme → severity i = sev_warning ∨ severity i = sev_info.
Proof.
  unfold emitted. rewrite !elem_of_app.
  intros H; decompose [or] H; clear H;
    match goal with
    | H : _ ∈ (if ?c then _ else _) |- _ => destruct c
    end;
    match goal with
    | H : _ ∈ [] |- _ => inversion H
    | H : _ ∈ [_] |- _ => apply list_elem_of_singleton in H; subst; cbn; auto
    end.
Qed.

(* Severities the engine's scorer can emit. *)
Lemma engine_issue_severity now repo i :
  i ∈ issues (calculateCohesiveness now repo) →
  severity i = sev_warning ∨ severity i = sev_info.
Proof.
  cbn. destruct (engine_checks_spec (rd_structure repo)) as (_ & _ & ->).
  apply emitted_severity.
Qed.

Lemma engine_no_critical_fixable now repo :
  critical_fixable (calculateCohesiveness now repo) = [].
Proof.
  unfold critical_fixable.
  assert (H : ∀ l : list CohesivenessIssue,
             (∀ i, i ∈ l → severity i = sev_warning ∨ severity i = sev_info) →
             List.filter (fun i => (is_critical (severity i) && autoFixable i)%bool) l = []).
  { induction l as [| x l IH]; intros Hl; [reflexivity |]. cbn.
    destruct (Hl x) as [-> | ->]; [left | | ]; cbn; apply IH;
      intros i Hi; apply Hl; right; exact Hi. }
  apply H. intros i. apply engine_issue_severity.
Qed.

(** C2 (amended): a repo without package.json, tsconfig.json and wrangler
    config, with 10 files, no README and no src/ directory scores
    structure 70 and config 25, hence overall round((70+100+100+25)/4) = 74;
    exactly 5 issues are emitted, exactly 4 of them auto-fixable, none
    critical. *)
Theorem bare_repo_scores_74 now repo
    (Hpkg : hasPackageJson (rd_structure repo) = false)
    (Hts : hasTsConfig (rd_structure repo) = false)
    (Hwr : hasWranglerConfig (rd_structure repo) = false)
    (Hfiles : length (files (rd_structure repo)) = 10%nat)
    (Hreadme : hasReadme (rd_structure repo) = false)
    (Hsrc : hasSrcDir (rd_structure repo) = false) :
  let sc := calculateCohesiveness now repo in
  overall sc = 74 ∧ structure sc = 70 ∧ config sc = 25
  ∧ naming sc = 100 ∧ dependencies sc = 100
  ∧ length (issues sc) = 5%nat
  ∧ count_fixable sc = 4%nat
  ∧ count_critical sc = 0%nat.
Proof.
  assert (Hmany : many_files (rd_structure repo) = true)
    by (unfold many_files; rewrite Hfiles; reflexivity).
  unfold count_fixable, count_critical. cbn.
  destruct (engine_checks_spec (rd_structure repo)) as (-> & -> & ->).
  unfold emitted. rewrite Hpkg, Hts, Hwr, Hreadme, Hsrc, Hmany.
  vm_compute. repeat split; reflexivity.
Qed.

Lemma bare_repo_scores_74_witness :
  let sc := calculateCohesiveness 0 Scenario.bare_repo in
  overall sc = 74 ∧ structure sc = 70 ∧ config sc = 25
  ∧ naming sc = 100 ∧ dependencies sc = 100
  ∧ length (issues sc) = 5%nat
  ∧ count_fixable sc = 4%nat
  ∧ count_critical sc = 0%nat.
Proof.
  apply (bare_repo_scores_74 0 Scenario.bare_repo); reflexivity.
Defined.

(** C2 (as stated) fails: the repo of scenario S2 -- no configuration
    file, 10 files, no README, no src/ -- does not score 71. *)
Lemma bare_repo_overall_not_71 :
  hasPackageJson Scenario.bare_structure = false
  ∧ hasTsConfig Scenario.bare_structure = false
  ∧ hasWranglerConfig Scenario.bare_structure = false
  ∧ length (files Scenario.bare_structure) = 10%nat
  ∧ hasReadme Scenario.bare_structure = false
  ∧ hasSrcDir Scenario.bare_structure = false
  ∧ overall (calculateCohesiveness 0 Scenario.bare_repo) ≠ 71.
Proof.
  repeat split; try reflexivity. vm_compute. discriminate.
Qed.

End Scorer.

(* --------------------------------------------------------------------- *)
(* Repo sync engine                                                      *)
(* --------------------------------------------------------------------- *)

(** C6: when inProgress is set, triggerFullSync answers 409 and changes
    nothing (no scrape task is enqueued); otherwise it appends to the scrape
    queue exactly one task per known repo short-name, each with
    scrapeType = full and priority = normal, records lastFullSync, leaves
    inProgress cleared and answers success, while no task has been
    consumed and the repo map is as before. *)
Theorem triggerFullSync_conflict_or_enqueue env s :
  match inProgress (engine s) with
  | true =>
      run (Engine.triggerFullSync env) s = (Ok Engine.conflict, s)
      ∧ fs_http Engine.conflict = 409 ∧ fs_success Engine.conflict = false
  | false =>
      let s' := state_after (Engine.triggerFullSync env) s in
      value_of (Engine.triggerFullSync env) s
        = Ok {| fs_http := 200; fs_success := true;
                fs_message := "Full sync triggered";
                fs_repos := Some (length Engine.BLACKROAD_REPOS);
                fs_timestamp := Some (clock s) |}
      ∧ SCRAPE_QUEUE s' = (SCRAPE_QUEUE s ++ full_sync_tasks env (draws s))%list
      ∧ map repoFullName (full_sync_tasks env (draws s))
        = map (fun n => JS.str_or (BLACKROAD_ORG env) "BlackRoad-OS" ++ "/" ++ n)
              Engine.BLACKROAD_REPOS
      ∧ Forall (fun t => scrapeType t = st_full ∧ sk_priority t = prio_normal)
               (full_sync_tasks env (draws s))
      ∧ lastFullSync (engine s') = Some (clock s)
      ∧ inProgress (engine s') = false
      ∧ repos (engine s') = repos (engine s)
      ∧ HEALING_QUEUE s' = HEALING_QUEUE s
      ∧ JOBS_QUEUE s' = JOBS_QUEUE s
  end.
Proof.
  split_sys s. destruct e as [rs lfs lcc ip er].
  unfold Engine.triggerFullSync, full_sync_tasks, Engine.BLACKROAD_REPOS.
  destruct ip; cbn [for_each]; mrun.
  - auto.
  - repeat split; try reflexivity.
    + rewrite <- !app_assoc. cbn. rewrite Nat.add_0_r.
      repeat (f_equal; try lia).
    + cbn. repeat constructor.
Qed.

(* The first loop of the cohesiveness check: it answers, every score it
   returns comes from calculateCohesiveness, and it touches no queue. *)
Lemma check_repos_spec l : ∀ s,
  ∃ results s',
    Engine.check_repos l s = (Ok results, s')
    ∧ Forall (fun r => ∃ now repo,
                r.2 = Cohesiveness.calculateCohesiveness now repo) results
    ∧ HEALING_QUEUE s' = HEALING_QUEUE s.
Proof.
  induction l as [| [name data] l IH]; intros s.
  - exists [], s. cbn. auto.
  - split_sys s. cbn [Engine.check_repos]. unfold Engine.check_repo.
    mrun.
    match goal with
    | |- context [ Engine.check_repos l ?s1 ] =>
        destruct (IH s1) as (results & s2 & Hrun & Hall & Hq)
    end.
    rewrite Hrun.
    eexists _, _. split; [reflexivity |]. split.
    + constructor; [cbn; eauto | exact Hall].
    + exact Hq.
Qed.

(* Every score the check hands back is a rounded mean. *)
Lemma checked_scores_are_rounded_means l s results s' :
  Engine.check_repos l s = (Ok results, s') →
  Forall (fun r => mean_rounded r.2) results.
Proof.
  intros Hrun. destruct (check_repos_spec l s) as (rs & s1 & Hrun' & Hall & _).
  rewrite Hrun in Hrun'. injection Hrun' as <- <-.
  eapply Forall_impl; [exact Hall |].
  intros r (now & repo & ->). apply overall_of_engine_score.
Qed.

(* The second loop: a score of calculateCohesiveness never enqueues. *)
Lemma queue_healing_silent env results : ∀ s,
  Forall (fun r => ∃ now repo,
            r.2 = Cohesiveness.calculateCohesiveness now repo) results →
  for_each results (Engine.queue_healing env) s = (Ok tt, s).
Proof.
  induction results as [| r results IH]; intros s Hall.
  - reflexivity.
  - inversion Hall as [| ? ? (now & repo & Hr) Hrest]; subst.
    cbn [for_each]. unfold mbind, M_bind.
    unfold Engine.queue_healing at 1.
    rewrite Hr, engine_no_critical_fixable. cbn.
    apply IH, Hrest.
Qed.

Lemma triggerCohesivenessCheck_run env s :
  ∃ r s', Engine.triggerCohesivenessCheck env s = (Ok r, s')
          ∧ HEALING_QUEUE s' = HEALING_QUEUE s.
Proof.
  unfold Engine.triggerCohesivenessCheck.
  unfold mbind at 1 2, M_bind at 1 2, gets at 1.
  destruct (check_repos_spec (map_to_list (repos (engine s))) s)
    as (results & s1 & Hrun & Hall & Hq).
  rewrite Hrun. clear Hrun. rewrite <- Hq. clear Hq.
  split_sys s1. mrun.
  rewrite (queue_healing_silent env results _ Hall).
  eauto.
Qed.

(** C9: calculateCohesiveness only emits issues of severity warning or
    info, so its critical and auto-fixable issues are none, and
    triggerCohesivenessCheck, on every engine state, answers and leaves the
    healing queue as it found it. *)
Theorem cohesiveness_check_never_enqueues_healing env s :
  (∀ now repo i,
      i ∈ issues (Cohesiveness.calculateCohesiveness now repo) →
      severity i = sev_warning ∨ severity i = sev_info)
  ∧ (∀ now repo,
      Cohesiveness.critical_fixable (Cohesiveness.calculateCohesiveness now repo) = [])
  ∧ (∃ r, value_of (Engine.triggerCohesivenessCheck env) s = Ok r)
  ∧ HEALING_QUEUE (state_after (Engine.triggerCohesivenessCheck env) s)
    = HEALING_QUEUE s.
Proof.
  split; [apply engine_issue_severity |].
  split; [apply engine_no_critical_fixable |].
  destruct (triggerCohesivenessCheck_run env s) as (r & s' & Hrun & Hq).
  unfold value_of, state_after. rewrite Hrun. cbn. eauto.
Qed.

(* --------------------------------------------------------------------- *)
(* Job coordinator: cleanup                                              *)
(* --------------------------------------------------------------------- *)

Section Cleanup.
Import Coordinator.

Lemma expired_deletable now j :
  expired (now - 24 * 60 * 60 * 1000) j = true ↔ deletable now j.
Proof.
  unfold expired, deletable, effective_completion.
  destruct (job_status j), (completedAt j); cbn;
    rewrite ?Z.ltb_lt; intuition (try discriminate; try lia).
Qed.

(* The loop, one entry after the other: the entries it has deleted and
   the count it keeps. *)
Lemma cleanup_fold cutoff l : ∀ (m : gmap string AgentJob) n,
  fold_left (cleanup_step cutoff) l (m, n)
  = (fold_left (fun a e => if expired cutoff e.2 then delete e.1 a else a) l m,
     (n + length (List.filter (fun e => expired cutoff e.2) l))%nat).
Proof.
  induction l as [| [i j] l IH]; intros m n.
  - cbn. f_equal. lia.
  - cbn [fold_left List.filter]. unfold cleanup_step at 2. cbn [fst snd].
    destruct (expired cutoff j); rewrite IH; cbn; f_equal; lia.
Qed.

Lemma deletes_lookup cutoff l : ∀ (m : gmap string AgentJob) i,
  fold_left (fun a e => if expired cutoff e.2 then delete e.1 a else a) l m !! i
  = if existsb (fun e => String.eqb e.1 i && expired cutoff e.2) l
    then None else m !! i.
Proof.
  induction l as [| [k j] l IH]; intros m i.
  - reflexivity.
  - cbn [fold_left existsb fst snd]. rewrite IH.
    destruct (existsb _ l) eqn:Hl.
    + rewrite orb_true_r. reflexivity.
    + rewrite orb_false_r.
      destruct (expired cutoff j); cbn.
      * destruct (String.eqb_spec k i) as [-> | Hne].
        -- apply lookup_delete_eq.
        -- apply lookup_delete_ne, Hne.
      * rewrite andb_false_r. reflexivity.
Qed.

Lemma cleanup_loop_map now (m : gmap string AgentJob) :
  (cleanup_loop (now - 24 * 60 * 60 * 1000) m).1
  = filter (fun e => ¬ deletable now e.2) m.
Proof.
  unfold cleanup_loop. rewrite cleanup_fold. cbn [fst].
  apply map_eq. intros i. rewrite deletes_lookup, map_lookup_filter.
  destruct (existsb _ _) eqn:Hex.
  - apply existsb_exists in Hex as ([k j] & Hin & Hk).
    apply andb_true_iff in Hk as [Hk Hexp]. cbn in Hk, Hexp.
    apply String.eqb_eq in Hk. subst k.
    apply list_elem_of_In, elem_of_map_to_list in Hin. rewrite Hin. cbn.
    apply expired_deletable in Hexp.
    rewrite option_guard_False; [reflexivity | cbn; tauto].
  - destruct (m !! i) as [j |] eqn:Hi; [| reflexivity]. cbn.
    rewrite option_guard_True; [reflexivity |]. cbn. intros Hdel.
    apply expired_deletable in Hdel.
    apply not_true_iff_false in Hex. apply Hex.
    apply existsb_exists. exists (i, j). split.
    + apply list_elem_of_In, elem_of_map_to_list, Hi.
    + cbn. rewrite String.eqb_refl. exact Hdel.
Qed.

Lemma filter_bool_prop {A} (f : A → bool) (P : A → Prop)
    `{∀ x, Decision (P x)} (l : list A) :
  (∀ x, f x = true ↔ P x) → List.filter f l = filter P l.
Proof.
  intros Hf. induction l as [| a l IH]; [reflexivity |].
  cbn [List.filter]. rewrite filter_cons, IH.
  destruct (f a) eqn:Ha, (decide (P a)) as [Hp | Hp]; try reflexivity.
  - apply Hf in Ha. contradiction.
  - apply Hf in Hp. congruence.
Qed.

Lemma size_map_filter {A} (P : string * A → Prop) `{∀ x, Decision (P x)}
    (m : gmap string A) :
  size (filter P m) = length (filter P (map_to_list m)).
Proof.
  rewrite map_filter_alt, <- length_map_to_list.
  apply Permutation_length, map_to_list_to_map.
  apply (sublist_NoDup _ ((map_to_list m).*1)); [apply NoDup_fst_map_to_list |].
  apply fmap_sublist, sublist_filter.
Qed.

Lemma cleanup_loop_count now (m : gmap string AgentJob) :
  (cleanup_loop (now - 24 * 60 * 60 * 1000) m).2
  = size (filter (fun e => deletable now e.2) m).
Proof.
  unfold cleanup_loop. rewrite cleanup_fold. cbn [snd]. rewrite Nat.add_0_l.
  rewrite size_map_filter. f_equal.
  apply filter_bool_prop. intros e. apply expired_deletable.
Qed.

(** C8: cleanup, run when the clock reads `now`, deletes exactly the jobs
    whose status is completed or failed and whose completion time
    (completedAt if set, otherwise updatedAt) is earlier than now minus 24
    hours; every other job stays in the map unchanged; the operation
    answers {cleaned, remaining} with cleaned the number of jobs deleted
    and remaining the number of jobs left. *)
Theorem cleanup_deletes_old_finished_jobs s :
  let before := jobs (coordinator s) in
  let after := jobs (coordinator (state_after Coordinator.cleanup s)) in
  after = filter (fun e => ¬ deletable (clock s) e.2) before
  ∧ (∀ id, after !! id
           = match before !! id with
             | Some j => if decide (deletable (clock s) j) then None else Some j
             | None => None
             end)
  ∧ value_of Coordinator.cleanup s
    = Ok {| cl_success := true;
            cleaned := size (filter (fun e => deletable (clock s) e.2) before);
            remaining := size after |}
  ∧ (size (filter (fun e => deletable (clock s) e.2) before) + size after
     = size before)%nat.
Proof.
  intros before after.
  assert (Hrun : Coordinator.cleanup s
            = (Ok {| cl_success := true;
                     cleaned := size (filter (fun e => deletable (clock s) e.2) before);
                     remaining := size (filter (fun e => ¬ deletable (clock s) e.2) before) |},
               set_coordinator
                 (set_jobs (filter (fun e => ¬ deletable (clock s) e.2) before)
                           (coordinator s)) s)).
  { subst before after. split_sys s. destruct c as [js m].
    unfold Coordinator.cleanup. mrun.
    pose proof (cleanup_loop_map clk js) as Hm.
    pose proof (cleanup_loop_count clk js) as Hn.
    destruct (cleanup_loop _ _) as [js' n]. cbn in Hm, Hn. subst js' n.
    reflexivity. }
  assert (Hafter : after = filter (fun e => ¬ deletable (clock s) e.2) before).
  { subst after. unfold state_after. rewrite Hrun. reflexivity. }
  unfold value_of. rewrite Hrun. cbn [fst].
  split; [exact Hafter |]. split; [| split].
  - intros id. rewrite Hafter, map_lookup_filter.
    destruct (before !! id) as [j |]; [| reflexivity]. cbn.
    destruct (decide (deletable (clock s) j)).
    + rewrite option_guard_False; [reflexivity | cbn; tauto].
    + rewrite option_guard_True; [reflexivity | assumption].
  - rewrite Hafter. reflexivity.
  - rewrite Hafter.
    rewrite <- (map_filter_union_complement (fun e => deletable (clock s) e.2) before) at 3.
    rewrite map_size_disj_union; [reflexivity |].
    apply map_disjoint_filter_complement.
Qed.

(* Scenario S5: two of the three jobs are beyond the horizon. *)
Example cleanup_horizon :
  value_of Coordinator.cleanup Scenario.day_system
  = Ok {| cl_success := true; cleaned := 2; remaining := 1 |}
  ∧ map fst (map_to_list
               (jobs (coordinator (state_after Coordinator.cleanup Scenario.day_system))))
    = ["b"].
Proof. vm_compute. split; reflexivity. Qed.

End Cleanup.

(* --------------------------------------------------------------------- *)
(* Self-healer                                                           *)
(* --------------------------------------------------------------------- *)

Section HealerFacts.
Import Healer.

Lemma retryOriginalOperation_run task s :
  ∃ ok s', retryOriginalOperation task s = (Ok ok, s')
           ∧ HEALING_QUEUE s' = HEALING_QUEUE s ∧ healer s' = healer s.
Proof.
  split_sys s. unfold retryOriginalOperation.
  destruct (_ && _)%bool; mrun; eauto.
Qed.

(* The strategy body returns or throws (only the conversion of a value
   of the context can throw); either way it touches neither the healing
   queue nor the stored tasks, and when it returns it has kept the course
   of the task. *)
Lemma execute_strategy_run env task s :
  ∃ res s',
    execute_strategy env (STRATEGY_CONFIGS (strategy task)) task s = (res, s')
    ∧ HEALING_QUEUE s' = HEALING_QUEUE s
    ∧ tasks (healer s') = tasks (healer s)
    ∧ strategies (healer s') = strategies (healer s)
    ∧ match res with
      | Ok (task', (ok, msg)) =>
          same_course task task'
          ∧ (strategy task = escalate_to_agent →
               ok = false ∧ status task' = escalated
               ∧ h_metrics (healer s') = inc_escalations (h_metrics (healer s)))
          ∧ (strategy task ≠ escalate_to_agent →
               h_metrics (healer s') = h_metrics (healer s))
      | Throw _ =>
          strategy task ≠ escalate_to_agent
          ∧ h_metrics (healer s') = h_metrics (healer s)
      end.
Proof.
  unfold execute_strategy, same_course.
  destruct (strategy task) eqn:Hs.
  - (* retry_with_backoff *)
    unfold retryWithBackoff. split_sys s. mrun.
    match goal with |- context [retryOriginalOperation task ?s1] =>
      destruct (retryOriginalOperation_run task s1) as (ok & s' & -> & Hq & Hh) end.
    cbn in Hq, Hh. rewrite <- Hq, <- Hh.
    eexists _, _. repeat split; try reflexivity; try congruence; done.
  - (* clear_cache_retry *)
    unfold clearRelatedCache. split_sys s.
    destruct (truthy_field _ "repoName") as [v1 |],
             (truthy_field _ "jobId") as [v2 |]; mrun;
      try destruct (JS.ToString _ v1); try destruct (JS.ToString _ v2); mrun;
      try (match goal with |- context [retryOriginalOperation task ?s1] =>
             destruct (retryOriginalOperation_run task s1)
               as (ok & s' & -> & Hq & Hh) end;
           cbn in Hq, Hh; rewrite <- Hq, <- Hh);
      eexists _, _; repeat split; try reflexivity; try congruence; done.
  - (* switch_endpoint *)
    unfold trySwitchEndpoint. split_sys s. mrun.
    eexists _, _. repeat split; try reflexivity; try congruence; done.
  - (* reduce_batch_size *)
    unfold reduceBatchAndRetry. split_sys s. mrun.
    destruct (JS.ToNumber _ _); mrun;
      try (match goal with |- context [retryOriginalOperation ?t ?s1] =>
             destruct (retryOriginalOperation_run t s1)
               as (ok & s' & -> & Hq & Hh) end;
           cbn in Hq, Hh; rewrite <- Hq, <- Hh);
      eexists _, _; repeat split; try reflexivity; try congruence; done.
  - (* notify_and_skip *)
    unfold notifyAndSkip. split_sys s. mrun.
    eexists _, _. repeat split; try reflexivity; try congruence; done.
  - (* full_reset *)
    unfold performFullReset. split_sys s.
    destruct (truthy_field _ "repoName") as [v |]; mrun;
      try destruct (JS.ToString _ v); mrun;
      eexists _, _; repeat split; try reflexivity; try congruence; done.
  - (* escalate_to_agent *)
    unfold escalateToAgent. split_sys s. destruct h as [ts hm sts]. mrun.
    eexists _, _. repeat split; try reflexivity; try congruence; done.
Qed.

(* The strategy body inside the `try` of attemptHealing: an exception
   counts as a failed execution that leaves the task as it was. *)
Lemma guarded_strategy_run env task s :
  ∃ task' ok msg s',
    try_catch (execute_strategy env (STRATEGY_CONFIGS (strategy task)) task)
              (fun e => mret (task, (false, "Healing error: " ++ e))) s
      = (Ok (task', (ok, msg)), s')
    ∧ same_course task task'
    ∧ HEALING_QUEUE s' = HEALING_QUEUE s
    ∧ tasks (healer s') = tasks (healer s)
    ∧ strategies (healer s') = strategies (healer s)
    ∧ (strategy task = escalate_to_agent →
         ok = false ∧ status task' = escalated
         ∧ h_metrics (healer s') = inc_escalations (h_metrics (healer s)))
    ∧ (strategy task ≠ escalate_to_agent →
         h_metrics (healer s') = h_metrics (healer s)).
Proof.
  destruct (execute_strategy_run env task s)
    as (res & s' & Hrun & Hq & Hts & Hsts & Hres).
  unfold try_catch. rewrite Hrun.
  destruct res as [[task' [ok msg]] | e].
  - destruct Hres as (Hcourse & Hesc & Hnesc). eexists _, _, _, _. eauto 10.
  - destruct Hres as (Hne & Hm). eexists _, _, _, _.
    split; [reflexivity |]. unfold same_course.
    split; [repeat split; reflexivity |].
    split; [exact Hq |]. split; [exact Hts |]. split; [exact Hsts |].
    split; [intros He; contradiction | intros _; exact Hm].
Qed.

(* attemptHealing returns, and does what attempt_outcome says. *)
Lemma attemptHealing_run env task s :
  ∃ r s', attemptHealing env task s = (Ok r, s') ∧ attempt_outcome task s r s'
          ∧ (strategy task = escalate_to_agent → success r = false).
Proof.
  unfold attemptHealing. split_sys s. destruct h as [ts hm sts]. mrun_outside_try.
  match goal with |- context [try_catch (execute_strategy env _ ?t1) _ ?s1] =>
    destruct (guarded_strategy_run env t1 s1)
      as (task2 & ok & msg & s2 & Hbody & Hcourse & Hq & Hts & Hsts & Hesc & Hnesc)
  end.
  revert Hbody. mrun_outside_try. intros ->.
  destruct Hcourse as (Hid & Hstrat & Hatt & Hmax).
  destruct task as [tid jid iss strat att mx st res cAt uAt].
  destruct task2 as [tid2 jid2 iss2 strat2 att2 mx2 st2 res2 cAt2 uAt2].
  split_sys s2. destruct h as [ts2 hm2 sts2].
  cbn in Hid, Hstrat, Hatt, Hmax, Hq, Hts, Hsts, Hesc, Hnesc.
  subst tid2 strat2 att2 mx2 hq0 ts2 sts2.
  assert (Hm2 : hm2 = if bool_decide (strat = escalate_to_agent)
                      then inc_escalations (inc_totalAttempts hm)
                      else inc_totalAttempts hm).
  { destruct (decide (strat = escalate_to_agent)) as [He | Hne].
    - rewrite bool_decide_eq_true_2 by exact He. destruct (Hesc He) as (_ & _ & ->).
      reflexivity.
    - rewrite bool_decide_eq_false_2 by exact Hne. rewrite (Hnesc Hne). reflexivity. }
  destruct ok.
  - (* the body succeeded *)
    mrun. eexists _, _. split; [reflexivity |].
    assert (Hne : strat ≠ escalate_to_agent).
    { intros He. destruct (Hesc He) as (? & _). discriminate. }
    split; [| intros He; contradiction].
    unfold attempt_outcome. cbn.
    eexists. split; [reflexivity |]. split; [reflexivity |]. split; [reflexivity |].
    split; [auto |].
    rewrite Hm2, bool_decide_eq_false_2 by exact Hne. destruct hm. cbn.
    repeat split; try lia; reflexivity.
  - (* the body failed *)
    unfold on_failure. cbn -[Nat.leb].
    destruct (Nat.leb mx (S att)) eqn:Hex,
             (nextStrategy (STRATEGY_CONFIGS strat)) as [next |] eqn:Hnext;
      mrun; (eexists _, _; split; [reflexivity |]); (split; [| reflexivity]);
      unfold attempt_outcome, exhausted; cbn -[Nat.leb]; rewrite ?Hex, ?Hnext;
      (eexists; split; [reflexivity |]; split; [reflexivity |]; split; [reflexivity |]);
      (split; [repeat split; eauto;
               try (eexists; split; [reflexivity |]; unfold same_course; cbn; auto) |]);
      rewrite Hm2; destruct hm, (bool_decide (strat = escalate_to_agent));
      cbn; repeat split; try lia; reflexivity.
Qed.

End HealerFacts.

Section HealerTheorems.
Import Healer.

(* processHealingTask stores the task; then, healing disabled, it marks
   it escalated, and otherwise it runs attemptHealing. *)
Lemma processHealingTask_run env task s :
  ∃ r s', processHealingTask env task s = (Ok r, s')
  ∧ if String.eqb (SELF_HEAL_ENABLED env) "true"
    then ∃ res, attemptHealing env task (with_task task s) = (Ok res, s')
                ∧ hr_success r = success res
    else hr_success r = false
         ∧ HEALING_QUEUE s' = HEALING_QUEUE s
         ∧ h_metrics (healer s') = h_metrics (healer s)
         ∧ ∃ stored, stored_task s' (task_id task) = Some stored
                     ∧ status stored = escalated ∧ same_course task stored.
Proof.
  unfold processHealingTask.
  destruct (String.eqb (SELF_HEAL_ENABLED env) "true") eqn:Hen; cbn [negb].
  - destruct (attemptHealing_run env task (with_task task s)) as (res & s' & Hrun & _).
    split_sys s. destruct h as [ts hm sts].
    revert Hrun. unfold with_task. mrun. intros Hrun. rewrite Hrun.
    split_sys s'. mrun. eexists _, _. split; [reflexivity |].
    eexists. split; reflexivity.
  - split_sys s. destruct h as [ts hm sts].
    destruct task as [tid jid iss strat att mx st res cAt uAt].
    mrun. cbn. eexists _, _. split; [reflexivity |].
    repeat split. unfold stored_task. cbn.
    eexists. split; [apply lookup_insert_eq |]. repeat split.
Qed.

Lemma resolveTask_run taskId res s :
  match tasks (healer s) !! taskId with
  | Some task =>
      ∃ stored, stored_task (state_after (resolveTask taskId res) s) taskId
                = Some stored
                ∧ status stored = resolved
                ∧ resolution stored = Some res
  | None => run (resolveTask taskId res) s = (Ok task_not_found, s)
  end.
Proof.
  split_sys s. destruct h as [ts hm sts]. unfold resolveTask. mrun.
  destruct (ts !! taskId) as [task |] eqn:Hl; mrun; [| reflexivity].
  unfold stored_task. cbn. rewrite lookup_insert_eq.
  eexists. split; [reflexivity |]. destruct task; split; reflexivity.
Qed.

Lemma stat_after_failure name (h : SelfHealer) :
  st_successes (stat_of (strategies (record_failure name (record_attempt name h))) name)
  = st_successes (stat_of (strategies h) name).
Proof.
  destruct h as [ts hm sts]. unfold record_failure, record_attempt, stat_of. cbn.
  rewrite !lookup_insert_eq. reflexivity.
Qed.

(** C10: for a healing task whose strategy is escalate_to_agent and whose
    maxAttempts is 1, one attemptHealing returns with success = false,
    raises metrics.escalations by exactly 2 and metrics.failedResolutions by
    exactly 1, leaves metrics.successfulResolutions and the strategy's
    success count as they were, and leaves the task escalated. *)
Theorem escalate_to_agent_counts_escalation_twice env task s
    (Hstrategy : strategy task = escalate_to_agent)
    (Hmax : maxAttempts task = 1%nat) :
  let s' := state_after (attemptHealing env task) s in
  let m := h_metrics (healer s) in
  let m' := h_metrics (healer s') in
  (∃ r, value_of (attemptHealing env task) s = Ok r ∧ success r = false)
  ∧ escalations m' = (escalations m + 2)%nat
  ∧ failedResolutions m' = (failedResolutions m + 1)%nat
  ∧ successfulResolutions m' = successfulResolutions m
  ∧ st_successes (stat_of (strategies (healer s')) "escalate_to_agent")
    = st_successes (stat_of (strategies (healer s)) "escalate_to_agent")
  ∧ stored_status s' (task_id task) = Some escalated.
Proof.
  destruct (attemptHealing_run env task s) as (r & s' & Hrun & Hout & Hfail).
  unfold state_after, value_of. rewrite Hrun. cbn [fst snd].
  specialize (Hfail Hstrategy).
  destruct Hout as (stored & Hts & Hid & _ & Hcase & Hmetrics).
  destruct Hmetrics as (_ & Hsucc & Hfailed & Hesc & Hstats).
  unfold exhausted in *. rewrite Hfail, Hstrategy, Hmax in *.
  rewrite bool_decide_eq_true_2 in Hesc by reflexivity.
  cbn in Hcase, Hsucc, Hfailed, Hesc. destruct Hcase as (Hst & _).
  split; [eauto |].
  split; [lia |]. split; [lia |]. split; [lia |]. split.
  - rewrite Hstats. apply (stat_after_failure "escalate_to_agent").
  - unfold stored_status, stored_task. rewrite Hts, lookup_insert_eq. cbn.
    rewrite Hst. reflexivity.
Qed.

Lemma escalate_to_agent_counts_escalation_twice_witness :
  let task := Scenario.task_with escalate_to_agent 0 1 pending in
  let s := Scenario.fresh 1000 in
  let s' := state_after (attemptHealing (Scenario.env "true") task) s in
  escalations (h_metrics (healer s')) = 2%nat
  ∧ failedResolutions (h_metrics (healer s')) = 1%nat
  ∧ successfulResolutions (h_metrics (healer s')) = 0%nat
  ∧ stored_status s' "h-1" = Some escalated.
Proof.
  destruct (escalate_to_agent_counts_escalation_twice (Scenario.env "true")
              (Scenario.task_with escalate_to_agent 0 1 pending)
              (Scenario.fresh 1000) eq_refl eq_refl)
    as (_ & Hesc & Hfailed & Hsucc & _ & Hst).
  repeat split; assumption.
Defined.

(* attemptHealing overwrites the status a task arrives with before it
   reads anything of the task. *)
Lemma attemptHealing_ignores_status env task st :
  attemptHealing env (set_status st task) = attemptHealing env task.
Proof. destruct task. reflexivity. Qed.

(** C3 (amended): a task whose strategy is escalate_to_agent and whose
    attempts reach maxAttempts with the execution (attempts + 1 >= maxAttempts,
    as with the configured maxAttempts of 1) is escalated after attemptHealing
    and after processHealingTask, and is not re-enqueued onto the healing
    queue.  Terminal statuses are otherwise not protected: attemptHealing does
    the same whatever status the task arrives with, and resolveTask sets
    every stored task, also an escalated one, to resolved (so a resolved task
    stays resolved under resolveTask). *)
Theorem exhausted_agent_escalation_is_final env task s taskId res
    (Hstrategy : strategy task = escalate_to_agent)
    (Hexhausted : (maxAttempts task ≤ S (attempts task))%nat) :
  (let s' := state_after (attemptHealing env task) s in
   stored_status s' (task_id task) = Some escalated
   ∧ HEALING_QUEUE s' = HEALING_QUEUE s)
  ∧ (let s' := state_after (processHealingTask env task) s in
     stored_status s' (task_id task) = Some escalated
     ∧ HEALING_QUEUE s' = HEALING_QUEUE s)
  ∧ (∀ st, attemptHealing env (set_status st task) = attemptHealing env task)
  ∧ match stored_task s taskId with
    | Some _ =>
        stored_status (state_after (resolveTask taskId res) s) taskId
        = Some resolved
    | None => state_after (resolveTask taskId res) s = s
    end.
Proof.
  assert (Hattempt : ∀ s0,
    let s' := state_after (attemptHealing env task) s0 in
    stored_status s' (task_id task) = Some escalated
    ∧ HEALING_QUEUE s' = HEALING_QUEUE s0).
  { intros s0.
    destruct (attemptHealing_run env task s0) as (r & s' & Hrun & Hout & Hfail).
    unfold state_after. rewrite Hrun. cbn [snd].
    destruct Hout as (stored & Hts & _ & _ & Hcase & _).
    rewrite (Hfail Hstrategy), Hstrategy in Hcase.
    unfold exhausted in Hcase. apply Nat.leb_le in Hexhausted.
    rewrite Hexhausted in Hcase. cbn in Hcase.
    destruct Hcase as (Hst & _ & _ & _ & Hq).
    split; [| exact Hq].
    unfold stored_status, stored_task. rewrite Hts, lookup_insert_eq. cbn.
    rewrite Hst. reflexivity. }
  split; [apply Hattempt |]. split; [| split].
  - destruct (processHealingTask_run env task s) as (r & s' & Hrun & Hcase).
    unfold state_after. rewrite Hrun. cbn [snd].
    destruct (String.eqb (SELF_HEAL_ENABLED env) "true").
    + destruct Hcase as (r0 & Hrun0 & _).
      specialize (Hattempt (with_task task s)). unfold state_after in Hattempt.
      rewrite Hrun0 in Hattempt. exact Hattempt.
    + destruct Hcase as (_ & Hq & _ & stored & Hst & Hesc & _).
      split; [| exact Hq]. unfold stored_status. rewrite Hst. cbn.
      rewrite Hesc. reflexivity.
  - intros st. apply attemptHealing_ignores_status.
  - pose proof (resolveTask_run taskId res s) as Hres.
    unfold stored_task at 1.
    destruct (tasks (healer s) !! taskId).
    + destruct Hres as (stored & Hst & Hresolved & _).
      unfold stored_status. rewrite Hst. cbn. rewrite Hresolved. reflexivity.
    + unfold state_after. unfold run in Hres. rewrite Hres. reflexivity.
Qed.

Lemma exhausted_agent_escalation_is_final_witness :
  let task := Scenario.task_with escalate_to_agent 0 1 pending in
  let s := with_task (Scenario.task_with full_reset 1 1 resolved) (Scenario.fresh 1000) in
  strategy task = escalate_to_agent
  ∧ (maxAttempts task ≤ S (attempts task))%nat
  ∧ stored_status (state_after (processHealingTask (Scenario.env "true") task) s) "h-1"
    = Some escalated
  ∧ HEALING_QUEUE (state_after (processHealingTask (Scenario.env "true") task) s) = [].
Proof.
  split; [reflexivity |]. split; [cbn; lia |].
  destruct (exhausted_agent_escalation_is_final (Scenario.env "true")
              (Scenario.task_with escalate_to_agent 0 1 pending)
              (with_task (Scenario.task_with full_reset 1 1 resolved)
                         (Scenario.fresh 1000))
              "h-1" Scenario.manual_resolution eq_refl)
    as (_ & Hprocess & _); [cbn; lia |].
  exact Hprocess.
Defined.

(** C3 (as stated) fails.  resolveTask turns an escalated task into a
    resolved one; processHealingTask, with self-healing disabled, turns a
    resolved task that is delivered again into an escalated one; and a task
    with strategy escalate_to_agent and maxAttempts 3 is, after its failed
    execution, pending and back on the healing queue. *)
Lemma terminal_status_is_left :
  (let s := with_task (Scenario.task_with escalate_to_agent 1 1 escalated)
                      (Scenario.fresh 1000) in
   stored_status s "h-1" = Some escalated
   ∧ stored_status (state_after (resolveTask "h-1" Scenario.manual_resolution) s) "h-1"
     = Some resolved)
  ∧ (let t := Scenario.task_with retry_with_backoff 1 5 resolved in
     let s := with_task t (Scenario.fresh 1000) in
     stored_status s "h-1" = Some resolved
     ∧ stored_status (state_after (processHealingTask (Scenario.env "false") t) s) "h-1"
       = Some escalated)
  ∧ (let t := Scenario.task_with escalate_to_agent 0 3 pending in
     let s' := state_after (processHealingTask (Scenario.env "true") t)
                           (Scenario.fresh 1000) in
     stored_status s' "h-1" = Some pending
     ∧ map status (HEALING_QUEUE s') = [pending]
     ∧ map strategy (HEALING_QUEUE s') = [escalate_to_agent]).
Proof. vm_compute. repeat split; reflexivity. Qed.

(* The escalation graph and its paths *)



(* Every path runs to the terminal strategy: the fuel of path_from is
   enough. *)
Lemma path_ends_at_agent a : last (path_from a) = Some escalate_to_agent.
Proof. destruct a; reflexivity. Qed.









(* Scenario S4: a task nothing can retry (its job is the worker itself)
   walks the whole graph down to notify_and_skip, which succeeds. *)
Example full_escalation_history :
  history (Scenario.env "true") 20
          (Scenario.task_with retry_with_backoff 0 5 pending) (Scenario.fresh 1000)
  = (replicate 5 retry_with_backoff ++ replicate 2 clear_cache_retry
     ++ replicate 3 switch_endpoint ++ replicate 3 reduce_batch_size
     ++ [notify_and_skip])%list.
Proof. vm_compute. reflexivity. Qed.

End HealerTheorems.

(* --------------------------------------------------------------------- *)
(* Queue processors                                                      *)
(* --------------------------------------------------------------------- *)

Section ProcessorFacts.
Import Processors.

(* processScrapeQueue, one message: whatever the scraper answers, the
   engine's repo map is not written. *)
Lemma process_scrape_keeps_repos env task s :
  repos (engine (state_after (process_scrape env task) s)) = repos (engine s).
Proof.
  unfold process_scrape, run_scrape, scrape_failed_handler, Scraper.scrapeRepo,
         Engine.fetch, Engine.syncRepo.
  split_sys s. destruct e as [rs lfs lcc ip er].
  destruct (fetch_repo _ _ _) as [| msg | info etag]; mrun; try reflexivity.
  unfold Scraper.structure_for, Scraper.lift.
  destruct (scrapeType task); mrun;
    repeat match goal with
           | |- context [full_structure ?g ?a ?b] => destruct (full_structure g a b)
           | |- context [match rkv !! ?k with _ => _ end] => destruct (rkv !! k) as [[[] ? ?] |]
           | |- context [if live ?a ?b then _ else _] => destruct (live a b)
           end; mrun; reflexivity.
Qed.

(* What the processor does do with scraped data: it mirrors it in the KV
   with a one-hour TTL, asks the engine for one more full scrape and acks. *)
Lemma scraped_data_is_mirrored_and_acked env task rd s s1 :
  Scraper.scrapeRepo env (repoFullName task) (scrapeType task) (sk_etag task) s
  = (Ok (Some rd), s1) →
  ∃ s', process_scrape env task s = (Ok ack, s')
        ∧ REPOS_KV s' !! ("repo:" ++ repoFullName task)
          = Some {| kv_value := kv_repo rd; expirationTtl := Some 3600;
                    putAt := clock s1 |}
        ∧ SCRAPE_QUEUE s'
          = (SCRAPE_QUEUE s1
             ++ [Engine.full_scrape (uuid env (draws s1)) (repoFullName task)
                   prio_high])%list
        ∧ engine s' = engine s1
        ∧ HEALING_QUEUE s' = HEALING_QUEUE s1.
Proof.
  intros Hscrape. unfold process_scrape, run_scrape, try_catch.
  rewrite !bind_run, Hscrape.
  unfold Engine.fetch, Engine.syncRepo. split_sys s1. mrun.
  eexists. split; [reflexivity |]. cbn.
  split; [apply lookup_insert_eq |]. auto.
Qed.

(** C1, on the code: a scrape message for which the scraper returns repo
    data is acked and the data is written to the shared KV under
    repo:{repoFullName} with a TTL of 3600 seconds, but the engine is only
    asked, through POST /sync/repo, to enqueue another full scrape of the
    same repo: its repo map is left as it was, for every message and every
    answer of the scraper, and in scenario S1 it has no entry for acme/foo
    afterwards. *)
Theorem scrape_does_not_record_repo_in_engine :
  (∀ env task s,
     repos (engine (state_after (process_scrape env task) s)) = repos (engine s))
  ∧ let s' := state_after (process_scrape (Scenario.env "true") Scenario.scrape_acme_foo)
                          (Scenario.fresh 1000) in
    value_of (process_scrape (Scenario.env "true") Scenario.scrape_acme_foo)
             (Scenario.fresh 1000) = Ok ack
    ∧ (expirationTtl <$> REPOS_KV s' !! "repo:acme/foo") = Some (Some 3600)
    ∧ (fullName <$> (match kv_value <$> REPOS_KV s' !! "repo:acme/foo" with
                     | Some (kv_repo r) => Some r
                     | _ => None
                     end)) = Some "acme/foo"
    ∧ repos (engine s') !! "acme/foo" = None
    ∧ map (fun t => (repoFullName t, scrapeType t, sk_priority t)) (SCRAPE_QUEUE s')
      = [("acme/foo", st_full, prio_high)]
    ∧ HEALING_QUEUE s' = [].
Proof.
  split; [apply process_scrape_keeps_repos |].
  vm_compute. repeat split; reflexivity.
Qed.

(* A job handler either returns or throws before it has done anything;
   only the scrape_repo handler throws, on a payload without repoName. *)
Lemma send_each_returns env (f : string → string → ScrapeTask) l : ∀ s,
  ∃ s', for_each l (fun repo => id ← randomUUID env; SCRAPE_QUEUE_send (f id repo)) s
        = (Ok tt, s').
Proof.
  induction l as [| x l IH]; intros s.
  - eexists. reflexivity.
  - split_sys s. cbn [for_each]. mrun.
    match goal with |- context [for_each l ?g ?s1] =>
      destruct (IH s1) as (s' & Hrun) end.
    revert Hrun. mrun. intros ->. eauto.
Qed.

Lemma triggerFullSync_returns env s :
  ∃ r s', Engine.triggerFullSync env s = (Ok r, s').
Proof.
  unfold Engine.triggerFullSync, Engine.BLACKROAD_REPOS.
  split_sys s. destruct e as [rs lfs lcc [] er]; cbn [for_each]; mrun; eauto.
Qed.

Lemma dispatch_result env job s :
  (∃ r s', dispatch env job s = (Ok r, s'))
  ∨ (∃ msg, dispatch env job s = (Throw msg, s)).
Proof.
  unfold dispatch. destruct (job_type job).
  - unfold handleScrapeRepoJob.
    destruct (string_field (payload job) "repoName").
    + left. split_sys s. mrun. eauto.
    + right. eexists. reflexivity.
  - left. unfold handleSyncContentJob.
    destruct (triggerFullSync_returns env s) as (r & s' & Hrun).
    unfold mbind, M_bind. rewrite Hrun. cbn. eauto.
  - left. unfold handleCohesivenessJob.
    destruct (triggerCohesivenessCheck_run env s) as (r & s' & Hrun & _).
    unfold mbind, M_bind. rewrite Hrun. cbn. eauto.
  - left. unfold handleSelfHealJob, Healer.runHealthCheck.
    split_sys s. mrun. eauto.
  - left. unfold handleUpdateCacheJob. unfold mbind at 1, M_bind at 1.
    destruct (send_each_returns env
                (fun id repo => {| sk_id := id; repoFullName := repo;
                                   scrapeType := st_metadata; lastScrapeAt := None;
                                   sk_etag := None; sk_priority := prio_normal |})
                (targetRepos (payload job)) s) as (s' & Hrun).
    rewrite Hrun. cbn. eauto.
  - left. unfold handleFullSyncJob.
    destruct (triggerFullSync_returns env s) as (r & s' & Hrun).
    unfold mbind, M_bind. rewrite Hrun. cbn. eauto.
  - left. unfold handleCleanupJob, Coordinator.cleanup.
    split_sys s. destruct c as [js m]. mrun.
    destruct (Coordinator.cleanup_loop _ _). eauto.
  - left. unfold handleNotifyJob. cbn. eauto.
Qed.

(* PUT /jobs/:id on a job the coordinator holds. *)
Lemma updateJob_registered id updates stored s :
  jobs (coordinator s) !! id = Some stored →
  Coordinator.updateJob id updates s
  = let tracked := Coordinator.track_status (clock s)
                     (Coordinator.updates_status updates)
                     (metrics (coordinator s)) stored in
    let job2 := set_updatedAt (clock s)
                  (Coordinator.Object_assign tracked.2 updates) in
    (Ok (Coordinator.job_ok job2),
     set_coordinator {| jobs := <[id := job2]> (jobs (coordinator s));
                        metrics := tracked.1 |} s).
Proof.
  intros Hreg. split_sys s. destruct c as [js m]. cbn in Hreg.
  unfold Coordinator.updateJob. mrun. rewrite Hreg.
  destruct (Coordinator.track_status _ _ _ _). reflexivity.
Qed.

Lemma updateJob_returns id updates s :
  ∃ r s', Coordinator.updateJob id updates s = (Ok r, s').
Proof.
  unfold Coordinator.updateJob. split_sys s. destruct c as [js m]. mrun.
  destruct (js !! id); [destruct (Coordinator.track_status _ _ _ _) |]; eauto.
Qed.

(* A PUT request by its URL: it is updateJob on the id captured from the
   path, or the 404 of the router, which changes nothing. *)
Lemma fetch_PUT_routed env url id body s :
  Coordinator.jobMatch (JS.URL_pathname (runtime env) url) = Some id →
  Coordinator.fetch_PUT env url body s
  = (r ← Coordinator.updateJob id body; mret (Coordinator.resp_job r)) s.
Proof. intros Hroute. unfold Coordinator.fetch_PUT. rewrite Hroute. reflexivity. Qed.

Lemma fetch_PUT_unrouted env url body s :
  Coordinator.jobMatch (JS.URL_pathname (runtime env) url) = None →
  Coordinator.fetch_PUT env url body s = (Ok Coordinator.resp_not_found, s).
Proof. intros Hroute. unfold Coordinator.fetch_PUT. rewrite Hroute. reflexivity. Qed.

Lemma fetch_PUT_returns env url body s :
  ∃ r s', Coordinator.fetch_PUT env url body s = (Ok r, s').
Proof.
  unfold Coordinator.fetch_PUT.
  destruct (Coordinator.jobMatch _) as [id |]; [| eexists _, _; reflexivity].
  cbn [Coordinator.fetch]. rewrite bind_run.
  destruct (updateJob_returns id body s) as (r & s' & ->). eexists _, _. reflexivity.
Qed.

(* What the regular expression of the router captures. *)
Lemma jobMatch_captures id :
  id ≠ "" → Coordinator.no_slash id = true →
  Coordinator.jobMatch ("/jobs/" ++ id) = Some id.
Proof.
  intros Hid Hseg. unfold Coordinator.jobMatch.
  change ("/jobs/" ++ id)
    with (String "/" (String "j" (String "o" (String "b" (String "s"
            (String "/" id)))))).
  cbn. rewrite Nat.sub_0_r.
  replace (String.substring 0 (String.length id) id) with id.
  - rewrite Hseg. destruct id; [contradiction | reflexivity].
  - clear. induction id as [| c r IH]; cbn; [reflexivity | congruence].
Qed.

(* An id that the URL parser leaves alone and that is one path segment
   reaches its own job; an id that reaches its own job is one non-empty
   path segment. *)
Lemma plain_id_reaches_own_job env job :
  JS.URL_pathname (runtime env) (job_url job) = "/jobs/" ++ job_id job →
  job_id job ≠ "" → Coordinator.no_slash (job_id job) = true →
  reaches_own_id env job.
Proof.
  intros Hpath Hid Hseg. unfold reaches_own_id. rewrite Hpath.
  apply jobMatch_captures; assumption.
Qed.

Lemma own_id_is_a_segment env job :
  reaches_own_id env job →
  job_id job ≠ "" ∧ Coordinator.no_slash (job_id job) = true.
Proof.
  unfold reaches_own_id, Coordinator.jobMatch.
  destruct (String.prefix _ _); [| discriminate].
  destruct (String.eqb_spec
              (String.substring 6
                 (String.length (JS.URL_pathname (runtime env) (job_url job)) - 6)
                 (JS.URL_pathname (runtime env) (job_url job))) "") as [He | Hne];
    cbn [negb andb]; [discriminate |].
  destruct (Coordinator.no_slash _) eqn:Hseg; [| discriminate].
  intros [= Hid]. rewrite Hid in Hne, Hseg. auto.
Qed.


(* PUT /jobs/:id for an id the coordinator does not hold. *)
Lemma unknown_update id updates s :
  jobs (coordinator s) !! id = None →
  Coordinator.updateJob id updates s = (Ok Coordinator.job_not_found, s).
Proof.
  intros Hid. split_sys s. destruct c as [js m]. cbn in Hid.
  unfold Coordinator.updateJob. mrun. rewrite Hid. reflexivity.
Qed.

(* A PUT of the processor that reaches no job the coordinator holds
   changes nothing: the router answers 404, or updateJob does. *)
Lemma fetch_PUT_unreached env job body s :
  reached_job env job s = None →
  ∃ r, Coordinator.fetch_PUT env (job_url job) body s = (Ok r, s).
Proof.
  unfold reached_job, Coordinator.fetch_PUT.
  destruct (Coordinator.jobMatch _) as [id |]; cbn [mbind option_bind].
  - intros Hid. cbn [Coordinator.fetch]. rewrite bind_run.
    rewrite (unknown_update id body s Hid). eexists. reflexivity.
  - intros _. eexists. reflexivity.
Qed.






(* The same job, held and still within its retry budget, goes back to
   pending. *)
Example broken_job_is_retried :
  let env := Scenario.env "true" in
  let job := Scenario.broken_job 0 2 in
  let s' := state_after (process_job env job)
                        (Scenario.with_job job (Scenario.fresh 1000)) in
  value_of (process_job env job) (Scenario.with_job job (Scenario.fresh 1000))
  = Ok retry
  ∧ (job_status <$> jobs (coordinator s') !! "j-1") = Some job_pending
  ∧ (retryCount <$> jobs (coordinator s') !! "j-1") = Some 1%nat
  ∧ HEALING_QUEUE s' = [].
Proof. vm_compute. repeat split; reflexivity. Qed.

End ProcessorFacts.

(* --------------------------------------------------------------------- *)
(* Further properties: the two scorers                                   *)
(* --------------------------------------------------------------------- *)

Section ScorerRange.
Import Cohesiveness.

Lemma emitted_length s sug readme :
  Z.of_nat (length (emitted s sug readme))
  = b2z (negb (hasPackageJson s)) + b2z (negb (hasTsConfig s))
    + b2z (negb (hasWranglerConfig s))
    + b2z (negb (hasSrcDir s) && many_files s)
    + b2z (readme && negb (hasReadme s)).
Proof.
  unfold emitted. rewrite !length_app.
  destruct (negb (hasPackageJson s)), (negb (hasTsConfig s)),
    (negb (hasWranglerConfig s)),
    (negb (hasSrcDir s) && many_files s)%bool,
    (readme && negb (hasReadme s))%bool; reflexivity.
Qed.

(* The engine's score in terms of the five tests it makes. *)
Lemma engine_score_shape now repo :
  let s := rd_structure repo in
  let sc := calculateCohesiveness now repo in
  let p := b2z (negb (hasPackageJson s)) in
  let t := b2z (negb (hasTsConfig s)) in
  let w := b2z (negb (hasWranglerConfig s)) in
  let d := b2z (negb (hasSrcDir s) && many_files s) in
  let r := b2z (negb (hasReadme s)) in
  config sc = 100 - 30 * p - 20 * t - 25 * w
  ∧ structure sc = 100 - 20 * d - 10 * r
  ∧ overall sc
    = JS.Math_round_div
        ((100 - 20 * d - 10 * r) + 100 + 100 + (100 - 30 * p - 20 * t - 25 * w)) 4
  ∧ Z.of_nat (length (issues sc)) = p + t + w + d + r.
Proof.
  intros s sc p t w d r. subst sc p t w d r.
  unfold calculateCohesiveness. cbn [config structure overall issues].
  destruct (engine_checks_spec (rd_structure repo)) as (-> & -> & ->).
  rewrite emitted_length. fold s. cbn [andb]. repeat split; reflexivity.
Qed.

(* The scraper's initial score in terms of the four tests it makes. *)
Lemma scraper_score_shape now s :
  let sc := calculateInitialCohesiveness now s in
  let p := b2z (negb (hasPackageJson s)) in
  let t := b2z (negb (hasTsConfig s)) in
  let w := b2z (negb (hasWranglerConfig s)) in
  let d := b2z (negb (hasSrcDir s) && many_files s) in
  config sc = 100 - 30 * p - 20 * t - 25 * w
  ∧ structure sc = 100 - 20 * d
  ∧ overall sc
    = JS.Math_round_div
        ((100 - 30 * p - 20 * t - 25 * w) + (100 - 20 * d) + 100 + 100) 4
  ∧ Z.of_nat (length (issues sc)) = p + t + w + d.
Proof.
  intros sc p t w d. subst sc p t w d.
  unfold calculateInitialCohesiveness. cbn [config structure overall issues].
  destruct (scraper_checks_spec s) as (-> & -> & ->).
  rewrite emitted_length. cbn [andb b2z]. repeat split; try reflexivity. lia.
Qed.

Lemma b2z_range b : (0 ≤ b2z b ≤ 1)%Z.
Proof. destruct b; cbn; lia. Qed.

(* Case analysis on every test a score is written in. *)
Ltac by_tests :=
  repeat match goal with
         | |- context [b2z ?b] =>
             lazymatch b with
             | true => fail
             | false => fail
             | _ => let x := fresh "x" in generalize b; intros x; destruct x
             end
         end.

(** X1 (RepoSyncEngine.calculateCohesiveness): whatever the repository,
    the engine's score is bounded: structure is between 70 and 100, config
    between 25 and 100, overall between 74 and 100, and at most five
    issues are reported. *)
Theorem engine_score_is_bounded now repo :
  let sc := calculateCohesiveness now repo in
  (70 ≤ structure sc ≤ 100)%Z
  ∧ (25 ≤ config sc ≤ 100)%Z
  ∧ (74 ≤ overall sc ≤ 100)%Z
  ∧ naming sc = 100 ∧ dependencies sc = 100
  ∧ (length (issues sc) ≤ 5)%nat.
Proof.
  intros sc.
  destruct (engine_score_shape now repo) as (Hc & Hs & Ho & Hn).
  fold sc in Hc, Hs, Ho, Hn.
  assert (Hlen : (length (issues sc) ≤ 5)%nat).
  { apply Nat2Z.inj_le. rewrite Hn. clear. by_tests; vm_compute; easy. }
  rewrite Hc, Hs, Ho. clear Hc Hs Ho Hn.
  unfold JS.Math_round_div.
  repeat split; try reflexivity; try exact Hlen; clear; by_tests;
    vm_compute; easy.
Qed.

(** X2 (calculateCohesiveness, calculateInitialCohesiveness): a score is
    100 overall exactly when no issue is reported, for the engine's
    scorer and for the scraper's. *)
Theorem overall_100_iff_no_issue now repo s :
  (overall (calculateCohesiveness now repo) = 100
   ↔ issues (calculateCohesiveness now repo) = [])
  ∧ (overall (calculateInitialCohesiveness now s) = 100
     ↔ issues (calculateInitialCohesiveness now s) = []).
Proof.
  split.
  - destruct (engine_score_shape now repo) as (_ & _ & Ho & Hn).
    cbv zeta in Ho, Hn. rewrite Ho.
    rewrite <- length_zero_iff_nil, <- Nat2Z.inj_iff, Hn. clear.
    unfold JS.Math_round_div. by_tests; vm_compute; split; easy.
  - destruct (scraper_score_shape now s) as (_ & _ & Ho & Hn).
    cbv zeta in Ho, Hn. rewrite Ho.
    rewrite <- length_zero_iff_nil, <- Nat2Z.inj_iff, Hn. clear.
    unfold JS.Math_round_div. by_tests; vm_compute; split; easy.
Qed.

(** X3 (calculateCohesiveness against calculateInitialCohesiveness): on
    the same structure the engine's check gives the scraper's config
    score, a structure score lower by 10 exactly when there is no README,
    and an overall score that is never higher; the two overall scores
    agree exactly when the repository has a README. *)
Theorem engine_check_never_raises_initial_score now now' repo :
  let s := rd_structure repo in
  let checked := calculateCohesiveness now repo in
  let initial := calculateInitialCohesiveness now' s in
  config checked = config initial
  ∧ structure checked = structure initial - 10 * b2z (negb (hasReadme s))
  ∧ (overall checked ≤ overall initial)%Z
  ∧ (overall checked = overall initial ↔ hasReadme s = true)
  ∧ length (issues checked)
    = (length (issues initial) + if hasReadme s then 0 else 1)%nat.
Proof.
  intros s checked initial.
  destruct (engine_score_shape now repo) as (Hc & Hs & Ho & Hn).
  destruct (scraper_score_shape now' s) as (Hc' & Hs' & Ho' & Hn').
  fold s checked in Hc, Hs, Ho, Hn. fold initial in Hc', Hs', Ho', Hn'.
  cbv zeta in *.
  rewrite Hc, Hs, Ho, Hc', Hs', Ho'.
  assert (Hlen : Z.of_nat (length (issues checked))
                 = Z.of_nat (length (issues initial)
                             + if hasReadme s then 0 else 1)%nat).
  { rewrite Nat2Z.inj_add, Hn, Hn'. destruct (hasReadme s); cbn; lia. }
  apply Nat2Z.inj in Hlen. rewrite Hlen. clear.
  unfold JS.Math_round_div.
  destruct (hasReadme s); cbn [negb b2z];
    (repeat split; try reflexivity; try lia; by_tests; vm_compute; easy).
Qed.

End ScorerRange.

(* --------------------------------------------------------------------- *)
(* Further properties: the job coordinator                               *)
(* --------------------------------------------------------------------- *)

Section CoordinatorFacts.
Import Coordinator.

(* For an id the coordinator does not hold, GET, PUT and DELETE answer
   "Job not found" and leave the state as it was. *)
Lemma unknown_job_id_changes_nothing id updates s :
  jobs (coordinator s) !! id = None →
  run (getJob id) s = (Ok job_not_found, s)
  ∧ run (updateJob id updates) s = (Ok job_not_found, s)
  ∧ run (deleteJob id) s = (Ok job_not_found, s).
Proof.
  intros Hunknown. split_sys s. destruct c as [js m]. cbn in Hunknown.
  unfold getJob, updateJob, deleteJob. mrun. rewrite Hunknown. auto.
Qed.

Lemma tracked_status now st m job :
  job_status (track_status now st m job).2 = job_status job.
Proof.
  unfold track_status. destruct st as [new |]; [| reflexivity].
  destruct (decide _); [reflexivity |]. destruct new; reflexivity.
Qed.

Lemma assigned_status updates job :
  job_status (Object_assign job updates)
  = default (job_status job) (updates_status updates).
Proof.
  unfold Object_assign, updates_status.
  induction updates as [| f updates IH] using rev_ind; [reflexivity |].
  rewrite !fold_left_app. cbn [fold_left].
  destruct f; cbn; try exact IH. reflexivity.
Qed.

(* What a PUT leaves under the id, for a job the coordinator holds. *)
Lemma updateJob_stored id updates stored s :
  jobs (coordinator s) !! id = Some stored →
  ∃ j, updateJob id updates s
       = (Ok (job_ok j),
          set_coordinator
            {| jobs := <[id := j]> (jobs (coordinator s));
               metrics := (track_status (clock s) (updates_status updates)
                             (metrics (coordinator s)) stored).1 |} s)
       ∧ updatedAt j = clock s
       ∧ job_status j = default (job_status stored) (updates_status updates).
Proof.
  intros Hid. rewrite (updateJob_registered id updates stored s Hid).
  cbv zeta. eexists. split; [reflexivity |]. split; [reflexivity |].
  cbn. rewrite assigned_status, tracked_status. reflexivity.
Qed.

(** X4 (updateJob): a PUT for a held job rewrites that job only: the job
    stays under the same key, its updatedAt is the clock reading even when
    the body carries another updatedAt, every other job is untouched and
    the number of jobs does not change. *)
Theorem updateJob_rewrites_one_job id updates stored s
    (Hheld : jobs (coordinator s) !! id = Some stored) :
  let s' := state_after (updateJob id updates) s in
  (∃ j, value_of (updateJob id updates) s = Ok (job_ok j)
        ∧ jobs (coordinator s') !! id = Some j
        ∧ updatedAt j = clock s
        ∧ job_status j = default (job_status stored) (updates_status updates))
  ∧ (∀ id', id' ≠ id →
       jobs (coordinator s') !! id' = jobs (coordinator s) !! id')
  ∧ size (jobs (coordinator s')) = size (jobs (coordinator s)).
Proof.
  intros s'. subst s'.
  destruct (updateJob_stored id updates stored s Hheld) as (j & Hrun & Hat & Hst).
  unfold state_after, value_of. rewrite Hrun. cbn [fst snd].
  split; [| split].
  - exists j. split; [reflexivity |]. split; [| auto].
    destruct s; cbn. apply lookup_insert_eq.
  - intros id' Hne. destruct s; cbn. apply lookup_insert_ne. congruence.
  - destruct s; cbn in *. rewrite map_size_insert, Hheld. reflexivity.
Qed.

Lemma updateJob_rewrites_one_job_witness :
  let s := Scenario.day_system in
  let s' := state_after (updateJob "b" [F_updatedAt 5; F_status job_failed]) s in
  (∃ j, value_of (updateJob "b" [F_updatedAt 5; F_status job_failed]) s
        = Ok (job_ok j)
        ∧ jobs (coordinator s') !! "b" = Some j
        ∧ updatedAt j = clock s
        ∧ job_status j = job_failed)
  ∧ (∀ id', id' ≠ "b" →
       jobs (coordinator s') !! id' = jobs (coordinator s) !! id')
  ∧ size (jobs (coordinator s')) = size (jobs (coordinator s)).
Proof.
  exact (updateJob_rewrites_one_job "b" [F_updatedAt 5; F_status job_failed]
           (Scenario.finished_job "b" job_completed (77 * Scenario.hour))
           Scenario.day_system eq_refl).
Defined.

(** X5 (updateJob): the status counters move on a change of status only:
    sending the same body a second time leaves totalCompleted, totalFailed
    and totalHealing where the first PUT left them. *)
Theorem repeated_update_counts_once id updates stored s
    (Hheld : jobs (coordinator s) !! id = Some stored) :
  let s1 := state_after (updateJob id updates) s in
  let s2 := state_after (updateJob id updates) s1 in
  metrics (coordinator s2) = metrics (coordinator s1).
Proof.
  intros s1 s2. subst s2.
  destruct (updateJob_stored id updates stored s Hheld) as (j & Hrun & _ & Hst).
  assert (Hs1 : jobs (coordinator s1) !! id = Some j).
  { subst s1. unfold state_after. rewrite Hrun. destruct s; cbn.
    apply lookup_insert_eq. }
  destruct (updateJob_stored id updates j s1 Hs1) as (j' & Hrun' & _ & _).
  unfold state_after at 1. rewrite Hrun'. cbn [snd].
  destruct s1 as [c1 ? ? ? ? ? ? ? ? ? ?]; cbn.
  unfold track_status. destruct (updates_status updates) as [new |]; [| reflexivity].
  cbn in Hst. rewrite decide_True by congruence. reflexivity.
Qed.

Lemma repeated_update_counts_once_witness :
  let s := Scenario.with_job (Scenario.broken_job 0 2) (Scenario.fresh 1000) in
  let s1 := state_after (updateJob "j-1" [F_status job_completed]) s in
  let s2 := state_after (updateJob "j-1" [F_status job_completed]) s1 in
  totalCompleted (metrics (coordinator s1)) = 1%nat
  ∧ metrics (coordinator s2) = metrics (coordinator s1).
Proof.
  split; [reflexivity |].
  exact (repeated_update_counts_once "j-1" [F_status job_completed]
           (Scenario.broken_job 0 2)
           (Scenario.with_job (Scenario.broken_job 0 2) (Scenario.fresh 1000))
           eq_refl).
Defined.

(** X6 (deleteJob, getJob): deleting a held job removes that job and
    nothing else: a GET for it then answers "Job not found", every other
    job is untouched, there is one job fewer, and the counters of the
    coordinator, totalCreated included, stay as they were. *)
Theorem deleteJob_removes_one_job id stored s
    (Hheld : jobs (coordinator s) !! id = Some stored) :
  let s' := state_after (deleteJob id) s in
  value_of (deleteJob id) s = Ok (job_deleted id)
  ∧ run (getJob id) s' = (Ok job_not_found, s')
  ∧ (∀ id', id' ≠ id →
       jobs (coordinator s') !! id' = jobs (coordinator s) !! id')
  ∧ S (size (jobs (coordinator s'))) = size (jobs (coordinator s))
  ∧ metrics (coordinator s') = metrics (coordinator s).
Proof.
  intros s'. subst s'. split_sys s. destruct c as [js m]. cbn in Hheld.
  unfold deleteJob, getJob. mrun. rewrite Hheld. mrun. cbn [fst snd].
  rewrite lookup_delete_eq.
  split; [reflexivity |]. split; [reflexivity |]. split; [| split].
  - intros id' Hne. apply lookup_delete_ne. congruence.
  - rewrite map_size_delete, Hheld.
    assert (size js ≠ 0%nat); [| lia].
    intros H0. apply map_size_empty_iff in H0. subst js.
    rewrite lookup_empty in Hheld. discriminate.
  - reflexivity.
Qed.

Lemma deleteJob_removes_one_job_witness :
  let s := Scenario.day_system in
  let s' := state_after (deleteJob "a") s in
  value_of (deleteJob "a") s = Ok (job_deleted "a")
  ∧ run (getJob "a") s' = (Ok job_not_found, s')
  ∧ (∀ id', id' ≠ "a" →
       jobs (coordinator s') !! id' = jobs (coordinator s) !! id')
  ∧ S (size (jobs (coordinator s'))) = size (jobs (coordinator s))
  ∧ metrics (coordinator s') = metrics (coordinator s).
Proof.
  exact (deleteJob_removes_one_job "a"
           (Scenario.finished_job "a" job_completed (75 * Scenario.hour))
           Scenario.day_system eq_refl).
Defined.

(* What cleanup returns and leaves, in terms of the deletable jobs. *)
Lemma cleanup_run s :
  cleanup s
  = (Ok {| cl_success := true;
           cleaned := size (filter (fun e => deletable (clock s) e.2)
                                   (jobs (coordinator s)));
           remaining := size (filter (fun e => ¬ deletable (clock s) e.2)
                                     (jobs (coordinator s))) |},
     set_coordinator
       (set_jobs (filter (fun e => ¬ deletable (clock s) e.2)
                         (jobs (coordinator s)))
                 (coordinator s)) s).
Proof.
  split_sys s. destruct c as [js m]. unfold cleanup. mrun.
  pose proof (cleanup_loop_map clk js) as Hm.
  pose proof (cleanup_loop_count clk js) as Hn.
  destruct (cleanup_loop _ _) as [js' n]. cbn in Hm, Hn. subst js' n.
  reflexivity.
Qed.

(** X7 (cleanup): cleanup only deletes: the jobs left are jobs that were
    there, unchanged; a job that is pending, running or healing is never
    deleted; the counters are not touched; and a second cleanup at the
    same clock reading deletes nothing and changes nothing. *)
Theorem cleanup_only_deletes_and_is_idempotent s :
  let s1 := state_after cleanup s in
  jobs (coordinator s1) ⊆ jobs (coordinator s)
  ∧ (∀ id j, jobs (coordinator s) !! id = Some j →
       job_status j ≠ job_completed → job_status j ≠ job_failed →
       jobs (coordinator s1) !! id = Some j)
  ∧ metrics (coordinator s1) = metrics (coordinator s)
  ∧ run cleanup s1
    = (Ok {| cl_success := true; cleaned := 0;
             remaining := size (jobs (coordinator s1)) |}, s1).
Proof.
  intros s1. subst s1. unfold state_after, run. rewrite cleanup_run. cbn [snd].
  rewrite cleanup_run.
  split_sys s. destruct c as [js m]. cbn.
  set (keep := filter (fun e : string * AgentJob => ¬ deletable clk e.2) js).
  split; [apply map_filter_subseteq |]. split; [| split; [reflexivity |]].
  - intros id j Hid Hc Hf. subst keep. apply map_lookup_filter_Some.
    split; [exact Hid |]. cbn. unfold deletable. tauto.
  - assert (Hkeep : filter (fun e : string * AgentJob => ¬ deletable clk e.2) keep
                    = keep).
    { subst keep. apply map_eq. intros i. rewrite !map_lookup_filter.
      destruct (js !! i) as [j |]; [| reflexivity]. cbn.
      destruct (decide (deletable clk j)).
      - rewrite option_guard_False by (cbn; tauto). reflexivity.
      - rewrite option_guard_True by assumption. cbn.
        rewrite option_guard_True by assumption. reflexivity. }
    assert (Hnone : filter (fun e : string * AgentJob => deletable clk e.2) keep
                    = ∅).
    { subst keep. apply map_eq. intros i. rewrite !map_lookup_filter, lookup_empty.
      destruct (js !! i) as [j |]; [| reflexivity]. cbn.
      destruct (decide (deletable clk j)).
      - rewrite option_guard_False by (cbn; tauto). reflexivity.
      - rewrite option_guard_True by assumption. cbn.
        rewrite option_guard_False by assumption. reflexivity. }
    rewrite Hkeep, Hnone, map_size_empty. reflexivity.
Qed.

End CoordinatorFacts.

(* --------------------------------------------------------------------- *)
(* Further properties: sorting, GET /jobs and GET /metrics               *)
(* --------------------------------------------------------------------- *)

Section Sorting.
Context {A : Type} (cmp : A → A → Z).

Lemma insert_sorted_perm x l : JSLib.insert_sorted cmp x l ≡ₚ x :: l.
Proof.
  induction l as [| y l IH]; [reflexivity |]. cbn.
  destruct (Z.ltb 0 (cmp x y)); [| reflexivity].
  rewrite IH. apply Permutation_swap.
Qed.

Lemma sort_perm l : JSLib.sort cmp l ≡ₚ l.
Proof.
  induction l as [| x l IH]; [reflexivity |]. cbn.
  rewrite insert_sorted_perm, IH. reflexivity.
Qed.

(* A relation the comparator decides: x is put after y only when y may
   stand before x, and before y only when x may stand before y. *)
Context (R : relation A).
Hypothesis after : ∀ x y, (0 < cmp x y)%Z → R y x.
Hypothesis before : ∀ x y, (cmp x y ≤ 0)%Z → R x y.

Lemma insert_sorted_Sorted x l :
  Sorted R l → Sorted R (JSLib.insert_sorted cmp x l).
Proof.
  induction l as [| y l IH]; intros Hl; cbn.
  - repeat constructor.
  - destruct (Z.ltb_spec 0 (cmp x y)) as [Hlt | Hle].
    + apply Sorted_inv in Hl as [Hl Hhd]. constructor; [apply IH, Hl |].
      destruct l as [| z l]; cbn.
      * constructor. apply after, Hlt.
      * destruct (Z.ltb 0 (cmp x z)); constructor.
        -- inversion Hhd; assumption.
        -- apply after, Hlt.
    + constructor; [exact Hl |]. constructor. apply before, Hle.
Qed.

Lemma sort_Sorted l : Sorted R (JSLib.sort cmp l).
Proof.
  induction l as [| x l IH]; cbn; [constructor |].
  apply insert_sorted_Sorted, IH.
Qed.

End Sorting.

Lemma StronglySorted_firstn {A} (R : relation A) n l :
  StronglySorted R l → StronglySorted R (firstn n l).
Proof.
  revert n. induction l as [| x l IH]; intros [| n] Hl; cbn; try constructor.
  - apply IH. inversion Hl; assumption.
  - inversion Hl as [| ? ? _ Hall]; subst. apply Forall_take, Hall.
Qed.

Section CoordinatorReadFacts.
Import Coordinator CoordinatorReads.

Lemma priorityOrder_inj p q : priorityOrder p = priorityOrder q → p = q.
Proof. destruct p, q; cbn; intros H; try reflexivity; discriminate. Qed.

Lemma listed_before_after x y :
  (0 < by_priority_then_newest x y)%Z → listed_before y x.
Proof.
  unfold by_priority_then_newest, listed_before.
  destruct (Z.eqb_spec (priorityOrder (priority x) - priorityOrder (priority y)) 0)
    as [H0 | Hne]; cbn; intros H.
  - right. split; [| lia]. symmetry. apply priorityOrder_inj. lia.
  - left. lia.
Qed.

Lemma listed_before_before x y :
  (by_priority_then_newest x y ≤ 0)%Z → listed_before x y.
Proof.
  unfold by_priority_then_newest, listed_before.
  destruct (Z.eqb_spec (priorityOrder (priority x) - priorityOrder (priority y)) 0)
    as [H0 | Hne]; cbn; intros H.
  - right. split; [| lia]. apply priorityOrder_inj. lia.
  - left. lia.
Qed.

Lemma listed_before_trans : Transitive listed_before.
Proof.
  intros x y z [H1 | [E1 H1]] [H2 | [E2 H2]]; unfold listed_before.
  - left. lia.
  - left. rewrite <- E2. exact H1.
  - left. rewrite E1. exact H2.
  - right. split; [congruence | lia].
Qed.

Lemma filter_param_selected param field js :
  filter_param param field js = filter (fun j => selected param (field j)) js.
Proof.
  unfold filter_param. destruct param as [v |]; cbn.
  - destruct (String.eqb_spec v "") as [-> | Hne].
    + induction js as [| j js IH]; [reflexivity |].
      rewrite filter_cons_True by (left; reflexivity). f_equal. exact IH.
    + apply filter_bool_prop. intros j. rewrite String.eqb_eq. tauto.
  - induction js as [| j js IH]; [reflexivity |].
    rewrite filter_cons_True by exact I. f_equal. exact IH.
Qed.

Lemma filter_params q js :
  filter_param (q_type q) (fun j => JobType_name (job_type j))
    (filter_param (q_status q) (fun j => JobStatus_name (job_status j)) js)
  = filter (matches q) js.
Proof.
  rewrite !filter_param_selected, list_filter_filter.
  apply list_filter_iff. intros j. unfold matches. tauto.
Qed.

Lemma listJobs_run parseInt q s :
  listJobs parseInt q s
  = let sorted := JSLib.sort by_priority_then_newest
                    (filter (matches q) (map snd (map_to_list (jobs (coordinator s))))) in
    let page := JSLib.slice0 sorted (parseInt (limit_text q)) in
    (Ok {| jl_jobs := page; jl_total := size (jobs (coordinator s));
           jl_filtered := length page; jl_metrics := metrics (coordinator s) |}, s).
Proof.
  split_sys s. destruct c as [js m]. unfold listJobs. mrun.
  rewrite filter_params. reflexivity.
Qed.

(** X8 (listJobs): GET /jobs with a limit that parses to n >= 0 reads
    without changing anything and answers the first n of the jobs that
    pass the status and type filters, put in order: a more urgent priority
    first and, within a priority, the newer job first.  `filtered` is the
    length of that page, `total` the number of jobs held. *)
Theorem listJobs_is_a_sorted_page parseInt q n s
    (Hlimit : parseInt (limit_text q) = Some n) (Hn : (0 ≤ n)%Z) :
  ∃ r sorted,
    run (listJobs parseInt q) s = (Ok r, s)
    ∧ sorted ≡ₚ filter (matches q) (map snd (map_to_list (jobs (coordinator s))))
    ∧ StronglySorted listed_before sorted
    ∧ jl_jobs r = firstn (Z.to_nat n) sorted
    ∧ jl_filtered r = Nat.min (Z.to_nat n) (length sorted)
    ∧ jl_total r = size (jobs (coordinator s)).
Proof.
  unfold run. rewrite listJobs_run. cbv zeta. rewrite Hlimit.
  eexists. eexists. split; [reflexivity |]. cbn [jl_jobs jl_filtered jl_total].
  split; [apply sort_perm |]. split; [| split; [| split]].
  - apply Sorted_StronglySorted; [apply listed_before_trans |].
    apply sort_Sorted.
    + apply listed_before_after.
    + apply listed_before_before.
  - unfold JSLib.slice0. destruct (Z.ltb_spec n 0); [lia | reflexivity].
  - unfold JSLib.slice0. destruct (Z.ltb_spec n 0); [lia |].
    apply length_firstn.
  - reflexivity.
Qed.

Lemma listJobs_is_a_sorted_page_witness :
  let q := {| q_status := Some "completed"; q_type := None; q_limit := Some "1" |} in
  ∃ r sorted,
    run (listJobs (fun _ => Some 1%Z) q) Scenario.day_system
    = (Ok r, Scenario.day_system)
    ∧ sorted ≡ₚ filter (matches q)
                  (map snd (map_to_list (jobs (coordinator Scenario.day_system))))
    ∧ StronglySorted listed_before sorted
    ∧ jl_jobs r = firstn (Z.to_nat 1) sorted
    ∧ jl_filtered r = Nat.min (Z.to_nat 1) (length sorted)
    ∧ jl_total r = size (jobs (coordinator Scenario.day_system)).
Proof.
  exact (listJobs_is_a_sorted_page (fun _ => Some 1%Z)
           {| q_status := Some "completed"; q_type := None; q_limit := Some "1" |}
           1 Scenario.day_system eq_refl ltac:(lia)).
Defined.

Lemma count_job_fold l : ∀ c,
  let n st := length (filter (fun j : AgentJob => job_status j = st) l) in
  fold_left count_job l c
  = {| n_pending := n_pending c + n job_pending;
       n_running := n_running c + n job_running;
       n_completed := n_completed c + n job_completed;
       n_failed := n_failed c + n job_failed;
       n_healing := n_healing c + n job_healing |}.
Proof.
  induction l as [| j l IH]; intros c; cbv zeta.
  - cbn. destruct c; cbn. f_equal; lia.
  - cbn [fold_left]. rewrite IH. cbv zeta. unfold count_job.
    rewrite !filter_cons.
    destruct (job_status j) eqn:Hj; cbn [n_pending n_running n_completed n_failed n_healing];
      repeat (destruct (decide _); try congruence); cbn [length]; f_equal; lia.
Qed.

Lemma jobs_in_length st (m : gmap string AgentJob) :
  jobs_in st m
  = length (filter (fun j : AgentJob => job_status j = st) (map snd (map_to_list m))).
Proof.
  unfold jobs_in. rewrite size_map_filter.
  induction (map_to_list m) as [| [k j] l IH]; [reflexivity |].
  cbn [map snd]. rewrite !filter_cons. cbn [snd].
  destruct (decide (job_status j = st)); cbn [length]; rewrite IH; reflexivity.
Qed.

Lemma status_partition (l : list AgentJob) :
  let n st := length (filter (fun j : AgentJob => job_status j = st) l) in
  (n job_pending + n job_running + n job_completed + n job_failed + n job_healing
   = length l)%nat.
Proof.
  cbv zeta. induction l as [| j l IH]; [reflexivity |].
  rewrite !filter_cons.
  destruct (job_status j) eqn:Hj;
    repeat (destruct (decide _); try congruence); cbn [length]; lia.
Qed.

(** X9 (getMetrics): GET /metrics reads without changing anything; each
    entry of statusCounts is the number of held jobs in that status, the
    five entries add up to totalJobs, and totalJobs is the number of jobs
    held. *)
Theorem getMetrics_counts_every_job_once s :
  ∃ r, run getMetrics s = (Ok r, s)
       ∧ let m := jobs (coordinator s) in
         let c := statusCounts r in
         n_pending c = jobs_in job_pending m
         ∧ n_running c = jobs_in job_running m
         ∧ n_completed c = jobs_in job_completed m
         ∧ n_failed c = jobs_in job_failed m
         ∧ n_healing c = jobs_in job_healing m
         ∧ (n_pending c + n_running c + n_completed c + n_failed c + n_healing c
            = totalJobs r)%nat
         ∧ totalJobs r = size m
         ∧ mr_metrics r = metrics (coordinator s).
Proof.
  split_sys s. destruct c as [js m]. unfold getMetrics. mrun.
  eexists. split; [reflexivity |].
  cbn [statusCounts totalJobs mr_metrics]. rewrite count_job_fold. cbv zeta.
  cbn [n_pending n_running n_completed n_failed n_healing no_counts].
  rewrite !jobs_in_length, !Nat.add_0_l.
  repeat split.
  rewrite status_partition, length_map, length_map_to_list. reflexivity.
Qed.

End CoordinatorReadFacts.

(* --------------------------------------------------------------------- *)
(* Further properties: the repo sync engine and the scraper              *)
(* --------------------------------------------------------------------- *)

Section EngineFacts.
Import Engine.

(** X10 (updateRepo, listRepos): updateRepo records the repo data under
    its full name and touches no other repository; GET /repos then lists
    it; and the copy written to the KV namespace under `repo:{fullName}`
    carries no TTL, so it is read back at every later clock reading. *)
Theorem updateRepo_is_read_back rd s :
  let s' := state_after (updateRepo rd) s in
  value_of (updateRepo rd) s = Ok tt
  ∧ repos (engine s') !! fullName rd = Some rd
  ∧ (∀ name, name ≠ fullName rd →
       repos (engine s') !! name = repos (engine s) !! name)
  ∧ (∃ r, run listRepos s' = (Ok r, s')
          ∧ rd ∈ rr_repos r
          ∧ rr_total r = size (repos (engine s')))
  ∧ (∀ later, value_of (REPOS_KV_get ("repo:" ++ fullName rd)) (set_clock later s')
              = Ok (Some (kv_repo rd))).
Proof.
  intros s'. subst s'. split_sys s. destruct e as [rs lf lc ip er].
  unfold updateRepo, listRepos. mrun. cbn [fst snd].
  split; [reflexivity |]. split; [apply lookup_insert_eq |].
  split; [intros name Hne; apply lookup_insert_ne; congruence |].
  split.
  - eexists. split; [reflexivity |]. cbn [rr_repos rr_total]. split.
    + apply list_elem_of_fmap. exists (fullName rd, rd). split; [reflexivity |].
      apply elem_of_map_to_list, lookup_insert_eq.
    + rewrite length_map, length_map_to_list. reflexivity.
  - intros later. rewrite lookup_insert_eq. reflexivity.
Qed.

(* The first loop of the cohesiveness check over a list of entries: the
   results, the repo map and the KV namespace it leaves. *)
Lemma check_repos_run l : ∀ s,
  check_repos l s
  = (Ok (map (fun e => (e.1, Cohesiveness.calculateCohesiveness (clock s) e.2)) l),
     set_REPOS_KV
       (fold_left
          (fun kv e =>
             <["cohesiveness:" ++ e.1
               := {| kv_value := kv_score
                                   (Cohesiveness.calculateCohesiveness (clock s) e.2);
                     expirationTtl := Some 3600; putAt := clock s |}]> kv)
          l (REPOS_KV s))
       (set_engine
          (set_repos
             (fold_left (fun m e => <[e.1 := rescored (clock s) e.2]> m)
                        l (repos (engine s)))
             (engine s)) s)).
Proof.
  induction l as [| [name data] l IH]; intros s.
  - split_sys s. destruct e. reflexivity.
  - split_sys s. destruct e as [rs lf lc ip er].
    cbn [check_repos]. unfold check_repo. mrun.
    rewrite IH. mrun. cbn [fold_left map fst snd]. reflexivity.
Qed.



Lemma checked_results_are_engine_scores (now : Z) (l : list (string * RepoData)) :
  Forall (fun r => ∃ now repo, r.2 = Cohesiveness.calculateCohesiveness now repo)
         (map (fun e => (e.1, Cohesiveness.calculateCohesiveness now e.2)) l).
Proof.
  apply Forall_forall. intros r Hr. apply list_elem_of_fmap in Hr as (e & -> & _).
  cbn. eauto.
Qed.

(* The cohesiveness check as a whole: its answer and the state it
   leaves. *)
Lemma triggerCohesivenessCheck_effect env s :
  triggerCohesivenessCheck env s
  = (Ok {| cc_success := true;
           cc_results :=
             map (fun e => (e.1, Cohesiveness.calculateCohesiveness (clock s) e.2))
                 (map_to_list (repos (engine s)));
           cc_timestamp := clock s |},
     set_REPOS_KV
       (fold_left
          (fun kv e =>
             <["cohesiveness:" ++ e.1
               := {| kv_value := kv_score
                                   (Cohesiveness.calculateCohesiveness (clock s) e.2);
                     expirationTtl := Some 3600; putAt := clock s |}]> kv)
          (map_to_list (repos (engine s))) (REPOS_KV s))
       (set_engine
          (set_lastCohesivenessCheck (Some (clock s))
             (set_repos
                (fold_left (fun m e => <[e.1 := rescored (clock s) e.2]> m)
                           (map_to_list (repos (engine s))) (repos (engine s)))
                (engine s))) s)).
Proof.
  unfold triggerCohesivenessCheck.
  unfold mbind at 1 2, M_bind at 1 2, gets at 1.
  rewrite check_repos_run.
  split_sys s. destruct e as [rs lf lc ip er]. mrun.
  rewrite (queue_healing_silent env _ _
             (checked_results_are_engine_scores clk (map_to_list rs))).
  reflexivity.
Qed.



Lemma round_mean_bounds lo hi n d :
  (0 < d)%Z → (lo * d ≤ n ≤ hi * d)%Z → (lo ≤ JS.Math_round_div n d ≤ hi)%Z.
Proof.
  intros Hd [Hlo Hhi]. unfold JS.Math_round_div. split.
  - apply Z.div_le_lower_bound; nia.
  - apply Z.lt_succ_r, Z.div_lt_upper_bound; nia.
Qed.




End EngineFacts.

Section ScraperFacts.
Import Scraper.

(** X13 (scrapeRepo): an incremental (or content) scrape of a repository
    the host answers for returns without changing the state and asks the
    host for no tree: the structure is the one cached under
    `repo:{name}` while that KV entry is live, the minimal structure
    otherwise; the score is the initial score of that structure; the full
    name and the etag are the host's. *)
Theorem incremental_scrape_reuses_cached_structure
    env name ty etag info newEtag s
    (Hty : ty = st_incremental ∨ ty = st_content)
    (Hhost : fetch_repo (github env) name (sent_etag etag) = repo_ok info newEtag) :
  ∃ rd, run (scrapeRepo env name ty etag) s = (Ok (Some rd), s)
        ∧ rd_structure rd
          = default (minimal_structure (github env) name) (cached_structure s name)
        ∧ cohesiveness rd
          = Cohesiveness.calculateInitialCohesiveness (clock s) (rd_structure rd)
        ∧ fullName rd = gh_full_name info
        ∧ rd_etag rd = newEtag
        ∧ lastScrapedAt rd = clock s.
Proof.
  unfold scrapeRepo. rewrite Hhost. unfold cached_structure.
  split_sys s. unfold structure_for.
  destruct Hty as [-> | ->]; mrun;
    (destruct (rkv !! ("repo:" ++ name)) as [[v ttl at_] |]; cbn [kv_value];
     [destruct (live clk _); [destruct v |] |]);
    eexists; (split; [reflexivity |]); cbn; auto.
Qed.

Lemma incremental_scrape_reuses_cached_structure_witness :
  let env := Scenario.env "true" in
  let s := state_after (Engine.updateRepo (Scenario.repo_with "acme/foo" Scenario.bare_structure))
                       (Scenario.fresh 1000) in
  ∃ rd, run (scrapeRepo env "acme/foo" st_incremental None) s = (Ok (Some rd), s)
        ∧ rd_structure rd
          = default (minimal_structure (github env) "acme/foo")
                    (cached_structure s "acme/foo")
        ∧ cohesiveness rd
          = Cohesiveness.calculateInitialCohesiveness (clock s) (rd_structure rd)
        ∧ fullName rd = gh_full_name Scenario.acme_foo
        ∧ rd_etag rd = Some "W/1"
        ∧ lastScrapedAt rd = clock s.
Proof.
  exact (incremental_scrape_reuses_cached_structure (Scenario.env "true")
           "acme/foo" st_incremental None Scenario.acme_foo (Some "W/1")
           (state_after (Engine.updateRepo (Scenario.repo_with "acme/foo" Scenario.bare_structure))
                       (Scenario.fresh 1000))
           (or_introl eq_refl) eq_refl).
Defined.

End ScraperFacts.

(* --------------------------------------------------------------------- *)
(* Further properties: the self-healer                                   *)
(* --------------------------------------------------------------------- *)

Section StrategyFacts.
Import Healer.

(* attemptHealing around its strategy body: the resolution reports the
   outcome of the body inside its `try`, and what follows the body
   touches the healer and the healing queue only. *)
Lemma attemptHealing_guarded env task s task2 ok msg s2 :
  try_catch
    (execute_strategy env (STRATEGY_CONFIGS (strategy task))
       (attempting_task (clock s) task))
    (fun e => mret (attempting_task (clock s) task,
                    (false, "Healing error: " ++ e)))
    (attempt_started task s)
  = (Ok (task2, (ok, msg)), s2) →
  ∃ r s', attemptHealing env task s = (Ok r, s')
          ∧ success r = ok ∧ message r = msg
          ∧ attempt_outcome task s r s'
          ∧ same_outside_healer s2 s'
          ∧ (∃ stored, stored_task s' (task_id task) = Some stored
                       ∧ issue stored = issue task2).
Proof.
  intros Hbody.
  destruct (guarded_strategy_run env (attempting_task (clock s) task)
              (attempt_started task s))
    as (task2' & ok' & msg' & s2' & Hrun & Hcourse & _).
  change (strategy (attempting_task (clock s) task)) with (strategy task) in Hrun.
  rewrite Hbody in Hrun. injection Hrun as <- <- <- <-.
  destruct (attemptHealing_run env task s) as (r & s' & Hatt & Hout & _).
  exists r, s'. split; [exact Hatt |].
  destruct Hcourse as (Hid & _).
  revert Hid Hout Hatt Hbody. unfold attemptHealing, attempting_task, attempt_started.
  split_sys s. destruct h as [ts hm sts].
  destruct task as [tid jid iss strat att mx st res cAt uAt].
  mrun_outside_try.
  cbn [strategy attempts task_id set_status set_attempts set_t_updatedAt].
  intros Hid Hout Hatt Hbody. revert Hatt. rewrite Hbody. clear Hbody.
  destruct task2 as [tid2 jid2 iss2 strat2 att2 mx2 st2 res2 cAt2 uAt2].
  split_sys s2. destruct h as [ts2 hm2 sts2]. cbn in Hid. subst tid2.
  destruct ok.
  - mrun. intros Hatt. injection Hatt as <- <-.
    split; [reflexivity |]. split; [reflexivity |]. split; [exact Hout |].
    split; [unfold same_outside_healer; cbn; tauto |].
    eexists. split; [apply lookup_insert_eq | reflexivity].
  - unfold on_failure. cbn -[Nat.leb].
    destruct (Nat.leb mx2 att2), (nextStrategy (STRATEGY_CONFIGS strat)) as [next |];
      mrun; intros Hatt; injection Hatt as <- <-;
      (split; [reflexivity |]); (split; [reflexivity |]); (split; [exact Hout |]);
      (split; [unfold same_outside_healer; cbn; tauto |]);
      (eexists; split; [apply lookup_insert_eq | reflexivity]).
Qed.

(* The body returned. *)
Lemma attemptHealing_body env task s task2 ok msg s2 :
  execute_strategy env (STRATEGY_CONFIGS (strategy task))
    (attempting_task (clock s) task) (attempt_started task s)
  = (Ok (task2, (ok, msg)), s2) →
  ∃ r s', attemptHealing env task s = (Ok r, s')
          ∧ success r = ok ∧ message r = msg
          ∧ attempt_outcome task s r s'
          ∧ same_outside_healer s2 s'
          ∧ (∃ stored, stored_task s' (task_id task) = Some stored
                       ∧ issue stored = issue task2).
Proof.
  intros Hbody. apply attemptHealing_guarded.
  unfold try_catch. rewrite Hbody. reflexivity.
Qed.

(* The body threw: a failed execution that leaves the task as it was. *)
Lemma attemptHealing_body_throws env task s e s2 :
  execute_strategy env (STRATEGY_CONFIGS (strategy task))
    (attempting_task (clock s) task) (attempt_started task s)
  = (Throw e, s2) →
  ∃ r s', attemptHealing env task s = (Ok r, s')
          ∧ success r = false ∧ message r = "Healing error: " ++ e
          ∧ attempt_outcome task s r s'
          ∧ same_outside_healer s2 s'
          ∧ (∃ stored, stored_task s' (task_id task) = Some stored
                       ∧ issue stored = issue task).
Proof.
  intros Hbody.
  apply (attemptHealing_guarded env task s (attempting_task (clock s) task)).
  unfold try_catch. rewrite Hbody. reflexivity.
Qed.

(* The strategy bodies, run from the start of an attempt. *)
Lemma notify_and_skip_body env task s :
  strategy task = notify_and_skip →
  execute_strategy env (STRATEGY_CONFIGS (strategy task))
    (attempting_task (clock s) task) (attempt_started task s)
  = (Ok (attempting_task (clock s) task, (true, "Issue logged and skipped")),
     set_HEALING_KV
       (<["skipped:" ++ task_id task
          := {| kv_value := kv_skipped (attempting_task (clock s) task) (clock s);
                expirationTtl := Some 604800; putAt := clock s |}]> (HEALING_KV s))
       (attempt_started task s)).
Proof.
  intros Hs. unfold execute_strategy, attempting_task, attempt_started.
  destruct task as [tid jid iss strat att mx st res cAt uAt]. cbn in Hs. subst strat.
  cbn [strategy set_status set_attempts set_t_updatedAt].
  unfold notifyAndSkip. split_sys s. mrun. reflexivity.
Qed.

(** X14 (attemptHealing, notifyAndSkip): an attempt under notify_and_skip
    always counts as a success: the task is stored as resolved, is not put
    back on the healing queue and no job is enqueued; an entry
    `skipped:{id}` is written with a TTL of 7 days; successfulResolutions
    goes up by one and escalations stays. *)
Theorem notify_and_skip_always_resolves env task s
    (Hstrategy : strategy task = notify_and_skip) :
  let s' := state_after (attemptHealing env task) s in
  (∃ r, value_of (attemptHealing env task) s = Ok r
        ∧ success r = true ∧ message r = "Issue logged and skipped")
  ∧ (∃ stored, stored_task s' (task_id task) = Some stored
               ∧ status stored = resolved ∧ strategy stored = notify_and_skip)
  ∧ HEALING_KV s' !! ("skipped:" ++ task_id task)
    = Some {| kv_value := kv_skipped (attempting_task (clock s) task) (clock s);
              expirationTtl := Some (7 * 24 * 60 * 60); putAt := clock s |}
  ∧ HEALING_QUEUE s' = HEALING_QUEUE s
  ∧ JOBS_QUEUE s' = JOBS_QUEUE s
  ∧ successfulResolutions (h_metrics (healer s'))
    = S (successfulResolutions (h_metrics (healer s)))
  ∧ escalations (h_metrics (healer s')) = escalations (h_metrics (healer s)).
Proof.
  intros s'. subst s'.
  destruct (attemptHealing_body env task s _ _ _ _
              (notify_and_skip_body env task s Hstrategy))
    as (r & s' & Hrun & Hok & Hmsg & Hout & Hsame & _).
  unfold state_after, value_of. rewrite Hrun. cbn [fst snd].
  destruct Hout as (stored & Hts & Hid & Hres & Hcase & Hm).
  rewrite Hok, Hstrategy in Hcase, Hm.
  destruct Hcase as (Hst & Hstrat & _ & _ & Hq).
  cbv zeta in Hm. destruct Hm as (_ & Hsucc & _ & Hesc & _).
  destruct Hsame as (_ & _ & Hjq & _ & _ & _ & Hkv & _).
  split; [eauto |]. split.
  - exists stored. unfold stored_task. rewrite Hts, lookup_insert_eq. auto.
  - rewrite Hkv, Hjq, Hq, Hsucc, Hesc. split_sys s. unfold if_nat. cbn.
    rewrite lookup_insert_eq, bool_decide_eq_false_2 by discriminate.
    repeat split; lia.
Qed.

Lemma notify_and_skip_always_resolves_witness :
  let env := Scenario.env "true" in
  let task := Scenario.task_with notify_and_skip 0 1 pending in
  let s := Scenario.fresh 1000 in
  let s' := state_after (attemptHealing env task) s in
  (∃ r, value_of (attemptHealing env task) s = Ok r
        ∧ success r = true ∧ message r = "Issue logged and skipped")
  ∧ (∃ stored, stored_task s' (task_id task) = Some stored
               ∧ status stored = resolved ∧ strategy stored = notify_and_skip)
  ∧ HEALING_KV s' !! ("skipped:" ++ task_id task)
    = Some {| kv_value := kv_skipped (attempting_task (clock s) task) (clock s);
              expirationTtl := Some (7 * 24 * 60 * 60); putAt := clock s |}
  ∧ HEALING_QUEUE s' = HEALING_QUEUE s
  ∧ JOBS_QUEUE s' = JOBS_QUEUE s
  ∧ successfulResolutions (h_metrics (healer s'))
    = S (successfulResolutions (h_metrics (healer s)))
  ∧ escalations (h_metrics (healer s')) = escalations (h_metrics (healer s)).
Proof.
  exact (notify_and_skip_always_resolves (Scenario.env "true")
           (Scenario.task_with notify_and_skip 0 1 pending)
           (Scenario.fresh 1000) eq_refl).
Defined.

Lemma retryOriginalOperation_effect task s :
  ∃ s', retryOriginalOperation task s = (Ok (names_a_job task), s')
        ∧ if names_a_job task
          then ∃ j, s' = set_JOBS_QUEUE (JOBS_QUEUE s ++ [j]) s ∧ is_retry_of task j
          else s' = s.
Proof.
  unfold retryOriginalOperation, names_a_job. split_sys s.
  destruct (_ && _)%bool; mrun.
  - eexists. split; [reflexivity |]. eexists. split; [reflexivity |].
    unfold is_retry_of. cbn. tauto.
  - eexists. split; reflexivity.
Qed.

(* The bodies of the three strategies that end in
   retryOriginalOperation: they return when their conversions go
   through, with what retryOriginalOperation answers, and throw before
   retrying when one does not. *)
Lemma retry_body env task s :
  strategy task = retry_with_backoff ∨ strategy task = clear_cache_retry
  ∨ strategy task = reduce_batch_size →
  ∃ res s2,
    execute_strategy env (STRATEGY_CONFIGS (strategy task))
      (attempting_task (clock s) task) (attempt_started task s)
    = (res, s2)
    ∧ coordinator s2 = coordinator s ∧ SCRAPE_QUEUE s2 = SCRAPE_QUEUE s
    ∧ match res with
      | Ok (task2, (ok, msg)) =>
          converts env task = true ∧ ok = names_a_job task
          ∧ if names_a_job task
            then ∃ j, JOBS_QUEUE s2 = (JOBS_QUEUE s ++ [j])%list
                      ∧ is_retry_of (set_attempts (S (attempts task)) task2) j
                      ∧ jobId task2 = jobId task
            else JOBS_QUEUE s2 = JOBS_QUEUE s
      | Throw _ => converts env task = false ∧ JOBS_QUEUE s2 = JOBS_QUEUE s
      end.
Proof.
  intros Hs. unfold execute_strategy, attempting_task, attempt_started, converts.
  destruct task as [tid jid iss strat att mx st res cAt uAt]. cbn in Hs.
  cbn [strategy set_status set_attempts set_t_updatedAt issue].
  destruct Hs as [-> | [-> | ->]].
  - unfold retryWithBackoff. split_sys s. mrun.
    match goal with |- context [retryOriginalOperation ?t ?s1] =>
      destruct (retryOriginalOperation_effect t s1) as (s2 & -> & Heff);
      change (names_a_job t) with (names_a_job
        {| task_id := tid; jobId := jid; issue := iss;
           strategy := retry_with_backoff; attempts := att; maxAttempts := mx;
           status := st; resolution := res; t_createdAt := cAt;
           t_updatedAt := uAt |}) in *
    end.
    eexists _, _. split; [reflexivity |].
    destruct (names_a_job _).
    + destruct Heff as (j & -> & Hj). cbn. repeat split. eauto.
    + subst s2. cbn. auto.
  - unfold clearRelatedCache, named_by.
    cbn [issue set_status set_attempts set_t_updatedAt].
    split_sys s.
    destruct (truthy_field (context iss) "repoName") as [v1 |],
             (truthy_field (context iss) "jobId") as [v2 |]; mrun;
      try destruct (JS.ToString (runtime env) v1);
      try destruct (JS.ToString (runtime env) v2); mrun;
      try (eexists _, _; split; [reflexivity |]; cbn; auto; fail);
      match goal with |- context [retryOriginalOperation ?t ?s1] =>
        destruct (retryOriginalOperation_effect t s1) as (s2 & -> & Heff);
        change (names_a_job t) with (names_a_job
          {| task_id := tid; jobId := jid; issue := iss;
             strategy := clear_cache_retry; attempts := att; maxAttempts := mx;
             status := st; resolution := res; t_createdAt := cAt;
             t_updatedAt := uAt |}) in *
      end;
      (eexists _, _; split; [reflexivity |]);
      (destruct (names_a_job _);
       [destruct Heff as (j & -> & Hj); cbn; repeat split; eauto
       | subst s2; cbn; auto]).
  - unfold reduceBatchAndRetry.
    cbn [issue set_status set_attempts set_t_updatedAt].
    split_sys s. mrun.
    destruct (JS.ToNumber (runtime env) (currentBatch (context iss))) as [x |]; mrun;
      [| eexists _, _; split; [reflexivity |]; cbn; auto].
    match goal with |- context [retryOriginalOperation ?t ?s1] =>
      destruct (retryOriginalOperation_effect t s1) as (s2 & -> & Heff);
      change (names_a_job t) with (names_a_job
        {| task_id := tid; jobId := jid; issue := iss;
           strategy := reduce_batch_size; attempts := att; maxAttempts := mx;
           status := st; resolution := res; t_createdAt := cAt;
           t_updatedAt := uAt |}) in *
    end.
    eexists _, _. split; [reflexivity |].
    destruct (names_a_job _).
    + destruct Heff as (j & -> & Hj). cbn. repeat split. eauto.
    + subst s2. cbn. auto.
Qed.

(* A retrying strategy on a task that names no job, or whose body
   throws: the attempt fails, no job is enqueued and the task goes back
   on the healing queue. *)
Lemma retry_without_job env task s :
  strategy task = retry_with_backoff ∨ strategy task = clear_cache_retry
  ∨ strategy task = reduce_batch_size →
  (names_a_job task && converts env task)%bool = false →
  let s' := state_after (attemptHealing env task) s in
  (∃ r, value_of (attemptHealing env task) s = Ok r ∧ success r = false)
  ∧ coordinator s' = coordinator s
  ∧ JOBS_QUEUE s' = JOBS_QUEUE s
  ∧ stored_status s' (task_id task) = Some pending
  ∧ ∃ m, HEALING_QUEUE s' = (HEALING_QUEUE s ++ [m])%list
         ∧ task_id m = task_id task.
Proof.
  intros Hstrategy Hnone s'. subst s'.
  destruct (retry_body env task s Hstrategy)
    as (res & s2 & Hbody & Hc2 & _ & Hres).
  assert (Hfailed : ∃ r s', attemptHealing env task s = (Ok r, s')
                            ∧ success r = false ∧ attempt_outcome task s r s'
                            ∧ same_outside_healer s2 s'
                            ∧ JOBS_QUEUE s2 = JOBS_QUEUE s).
  { destruct res as [[task2 [ok msg]] | e].
    - destruct Hres as (Hconv & -> & Hjobs).
      rewrite Hconv, andb_true_r in Hnone. rewrite Hnone in Hbody, Hjobs.
      destruct (attemptHealing_body env task s _ _ _ _ Hbody)
        as (r & s' & Hrun & Hok & _ & Hout & Hsame & _).
      eexists _, _. eauto.
    - destruct Hres as (_ & Hjobs).
      destruct (attemptHealing_body_throws env task s _ _ Hbody)
        as (r & s' & Hrun & Hok & _ & Hout & Hsame & _).
      eexists _, _. eauto. }
  destruct Hfailed as (r & s' & Hrun & Hok & Hout & Hsame & Hjobs).
  unfold state_after, value_of. rewrite Hrun. cbn [fst snd].
  destruct Hsame as (Hc & _ & Hjq & _).
  split; [eauto |]. split; [congruence |]. split; [congruence |].
  destruct Hout as (stored & Hts & Hid & Hres' & Hcase & _).
  unfold stored_status, stored_task. rewrite Hts, lookup_insert_eq. cbn.
  rewrite Hok in Hcase.
  assert (Hnext : ∃ next, nextStrategy (STRATEGY_CONFIGS (strategy task))
                          = Some next).
  { destruct Hstrategy as [-> | [-> | ->]]; cbn; eauto. }
  destruct Hnext as (next & Hnext). rewrite Hnext in Hcase.
  destruct (exhausted task);
    destruct Hcase as (Hst & _ & _ & _ & m & Hhq & (Hm & _) & _);
    (split; [rewrite Hst; reflexivity |]); exists m; split; congruence.
Qed.

(** X15 (retryOriginalOperation under retry_with_backoff,
    clear_cache_retry and reduce_batch_size): an attempt under one of the
    three retrying strategies succeeds exactly when the task's jobId is
    neither empty nor 'worker-error' and the conversions of the strategy
    body go through: a TypeError thrown by `repo:${context.repoName}`,
    `cache:${context.jobId}` or `currentBatch / 2` is caught as a failed
    execution, and retry_with_backoff converts nothing.  On success the
    attempt puts one job on the job queue (that id, type sync_content
    whatever had failed, priority high, retryCount the attempt number)
    without registering it with the coordinator, and the task is
    resolved; otherwise no job is enqueued and the task goes back on the
    healing queue as pending. *)
Theorem retry_succeeds_iff_task_names_a_job env task s
    (Hstrategy : strategy task = retry_with_backoff
                 ∨ strategy task = clear_cache_retry
                 ∨ strategy task = reduce_batch_size) :
  let s' := state_after (attemptHealing env task) s in
  let ok := (names_a_job task && converts env task)%bool in
  (∃ r, value_of (attemptHealing env task) s = Ok r ∧ success r = ok)
  ∧ (strategy task = retry_with_backoff → ok = names_a_job task)
  ∧ coordinator s' = coordinator s
  ∧ if ok
    then (∃ j, JOBS_QUEUE s' = (JOBS_QUEUE s ++ [j])%list
               ∧ job_id j = jobId task ∧ job_type j = sync_content
               ∧ priority j = prio_high
               ∧ retryCount j = S (attempts task))
         ∧ stored_status s' (task_id task) = Some resolved
         ∧ HEALING_QUEUE s' = HEALING_QUEUE s
    else JOBS_QUEUE s' = JOBS_QUEUE s
         ∧ stored_status s' (task_id task) = Some pending
         ∧ ∃ m, HEALING_QUEUE s' = (HEALING_QUEUE s ++ [m])%list
                ∧ task_id m = task_id task.
Proof.
  intros s' ok. subst s'.
  assert (Hplain : strategy task = retry_with_backoff → ok = names_a_job task).
  { intros Hs. subst ok. unfold converts. rewrite Hs. apply andb_true_r. }
  destruct ok eqn:Hok.
  - apply andb_prop in Hok. destruct Hok as (Hnamed & Hconv).
    destruct (retry_body env task s Hstrategy)
      as (res & s2 & Hbody & Hc2 & _ & Hres).
    destruct res as [[task2 [ok2 msg]] | e];
      [| destruct Hres as (Hno & _); congruence].
    destruct Hres as (_ & -> & Hjobs).
    destruct (attemptHealing_body env task s _ _ _ _ Hbody)
      as (r & s' & Hrun & Hsucc & _ & Hout & Hsame & _).
    unfold state_after, value_of. rewrite Hrun. cbn [fst snd].
    destruct Hsame as (Hc & _ & Hjq & _).
    rewrite Hnamed in Hsucc, Hjobs.
    split; [eauto |]. split; [exact Hplain |]. split; [congruence |].
    destruct Hout as (stored & Hts & Hid & Hres & Hcase & _).
    unfold stored_status, stored_task. rewrite Hts, lookup_insert_eq. cbn.
    rewrite Hsucc in Hcase. rewrite Hjq.
    destruct Hjobs as (j & Hq & Hj & Hjid).
    destruct Hcase as (Hst & _ & _ & _ & Hhq).
    split; [| rewrite Hst; auto].
    exists j. destruct Hj as (? & ? & ? & ? & ? & _). cbn in *.
    repeat split; congruence.
  - destruct (retry_without_job env task s Hstrategy Hok)
      as ((r & Hr & Hfail) & Hc & Hq & Hst & Hm).
    split; [exists r; split; [exact Hr | exact Hfail] |]. auto.
Qed.

Lemma retry_succeeds_iff_task_names_a_job_witness :
  let env := Scenario.env "true" in
  let task := set_jobId "j-1"
                (set_strategy clear_cache_retry
                   (Processors.scrape_failure_task "h-2" Scenario.scrape_acme_foo
                      "boom" 0)) in
  let s := Scenario.fresh 1000 in
  let s' := state_after (attemptHealing env task) s in
  (∃ r, value_of (attemptHealing env task) s = Ok r ∧ success r = true)
  ∧ (strategy task = retry_with_backoff → true = names_a_job task)
  ∧ coordinator s' = coordinator s
  ∧ (∃ j, JOBS_QUEUE s' = (JOBS_QUEUE s ++ [j])%list
          ∧ job_id j = jobId task ∧ job_type j = sync_content
          ∧ priority j = prio_high
          ∧ retryCount j = S (attempts task))
  ∧ stored_status s' (task_id task) = Some resolved
  ∧ HEALING_QUEUE s' = HEALING_QUEUE s.
Proof.
  exact (retry_succeeds_iff_task_names_a_job (Scenario.env "true")
           (set_jobId "j-1"
              (set_strategy clear_cache_retry
                 (Processors.scrape_failure_task "h-2" Scenario.scrape_acme_foo
                    "boom" 0)))
           (Scenario.fresh 1000) (or_intror (or_introl eq_refl))).
Defined.

(* A name that has no text fails the retry although the task names a
   job: the context of this task holds, as repoName, an object whose own
   property toString is not callable. *)
Example unprintable_name_fails_the_retry :
  let env := Scenario.env "true" in
  let odd := JS.VObj [("toString", JS.VNum 1)] in
  let task :=
    set_issue (set_context (<["repoName" := odd]> ∅) Scenario.some_issue)
      (set_jobId "j-1" (Scenario.task_with clear_cache_retry 0 2 pending)) in
  let s' := state_after (attemptHealing env task) (Scenario.fresh 1000) in
  names_a_job task = true
  ∧ converts env task = false
  ∧ (success <$> (stored_task s' "h-1" ≫= resolution)) = Some false
  ∧ (message <$> (stored_task s' "h-1" ≫= resolution))
    = Some "Healing error: Cannot convert object to primitive value"
  ∧ JOBS_QUEUE s' = [].
Proof. vm_compute. repeat split; reflexivity. Qed.

(* A string that is not empty is its own text. *)
Lemma named_by_string env (ctx : Bag) k name :
  name ≠ "" → ctx !! k = Some (JS.VStr name) → named_by env ctx k = named name.
Proof.
  intros Hname Hk. unfold named_by, truthy_field. rewrite Hk. cbn.
  destruct (String.eqb_spec name ""); [contradiction | reflexivity].
Qed.

(* attemptHealing after its strategy body, whether the body returned or
   threw. *)
Lemma attemptHealing_after_body env task s res s2 :
  execute_strategy env (STRATEGY_CONFIGS (strategy task))
    (attempting_task (clock s) task) (attempt_started task s)
  = (res, s2) →
  ∃ r s', attemptHealing env task s = (Ok r, s')
          ∧ success r = match res with Ok (_, (ok, _)) => ok | Throw _ => false end
          ∧ attempt_outcome task s r s'
          ∧ same_outside_healer s2 s'
          ∧ ∃ stored, stored_task s' (task_id task) = Some stored
                      ∧ issue stored
                        = match res with
                          | Ok (task2, _) => issue task2
                          | Throw _ => issue task
                          end.
Proof.
  intros Hbody. destruct res as [[task2 [ok msg]] | e].
  - destruct (attemptHealing_body env task s _ _ _ _ Hbody)
      as (r & s' & Hrun & Hok & _ & Hout & Hsame & Hst).
    eexists _, _. eauto 6.
  - destruct (attemptHealing_body_throws env task s _ _ Hbody)
      as (r & s' & Hrun & Hok & _ & Hout & Hsame & Hst).
    eexists _, _. eauto 6.
Qed.

Lemma full_reset_body env task s :
  strategy task = full_reset →
  execute_strategy env (STRATEGY_CONFIGS (strategy task))
    (attempting_task (clock s) task) (attempt_started task s)
  = match named_by env (context (issue task)) "repoName" with
    | named name =>
        (Ok (attempting_task (clock s) task, (true, "Full reset completed")),
         set_SCRAPE_QUEUE
           (SCRAPE_QUEUE s
            ++ [ {| sk_id := uuid env (draws s); repoFullName := name;
                    scrapeType := st_full; lastScrapeAt := None;
                    sk_etag := None; sk_priority := prio_critical |} ])
           (set_draws (S (draws s))
              (set_REPOS_KV
                 (delete ("cohesiveness:" ++ name)
                    (delete ("repo:" ++ name) (REPOS_KV s)))
                 (attempt_started task s))))
    | unnamed =>
        (Ok (attempting_task (clock s) task, (false, "Full reset failed")),
         attempt_started task s)
    | unprintable => (Throw JS.not_primitive, attempt_started task s)
    end.
Proof.
  intros Hs. unfold execute_strategy, attempting_task, attempt_started, named_by.
  destruct task as [tid jid iss strat att mx st res cAt uAt]. cbn in Hs. subst strat.
  cbn [strategy set_status set_attempts set_t_updatedAt].
  unfold performFullReset. cbn [issue set_status set_attempts set_t_updatedAt].
  split_sys s.
  destruct (truthy_field (context iss) "repoName") as [v |]; mrun;
    [destruct (JS.ToString (runtime env) v) |]; mrun; reflexivity.
Qed.

(** X16 (attemptHealing, performFullReset): an attempt under full_reset
    succeeds exactly when context.repoName is truthy and has a text (a
    non-empty string is its own text; a TypeError of the conversion is
    caught as a failed execution).  It then deletes the keys `repo:{text}`
    and `cohesiveness:{text}`, enqueues one full scrape at priority
    critical, of that repository when the name is a string, and resolves
    the task.  Otherwise nothing is deleted or enqueued, the attempt fails
    and, once the attempts are used up, the task moves to
    escalate_to_agent and is put back on the healing queue. *)
Theorem full_reset_needs_a_repo_name env task s
    (Hstrategy : strategy task = full_reset) :
  let s' := state_after (attemptHealing env task) s in
  let ctx := context (issue task) in
  (∀ name, name ≠ "" → ctx !! "repoName" = Some (JS.VStr name) →
           named_by env ctx "repoName" = named name)
  ∧ match named_by env ctx "repoName" with
    | named name =>
        (∃ r, value_of (attemptHealing env task) s = Ok r ∧ success r = true)
        ∧ REPOS_KV s'
          = delete ("cohesiveness:" ++ name)
              (delete ("repo:" ++ name) (REPOS_KV s))
        ∧ (∃ t, SCRAPE_QUEUE s' = (SCRAPE_QUEUE s ++ [t])%list
                ∧ sk_id t = uuid env (draws s)
                ∧ scrapeType t = st_full ∧ sk_priority t = prio_critical
                ∧ lastScrapeAt t = None ∧ sk_etag t = None
                ∧ ∀ n, ctx !! "repoName" = Some (JS.VStr n) → repoFullName t = n)
        ∧ stored_status s' (task_id task) = Some resolved
        ∧ HEALING_QUEUE s' = HEALING_QUEUE s
    | _ =>
        (∃ r, value_of (attemptHealing env task) s = Ok r ∧ success r = false)
        ∧ REPOS_KV s' = REPOS_KV s
        ∧ SCRAPE_QUEUE s' = SCRAPE_QUEUE s
        ∧ ((maxAttempts task ≤ S (attempts task))%nat →
           ∃ stored m,
             stored_task s' (task_id task) = Some stored
             ∧ strategy stored = escalate_to_agent ∧ status stored = pending
             ∧ attempts stored = 0%nat ∧ maxAttempts stored = 1%nat
             ∧ HEALING_QUEUE s' = (HEALING_QUEUE s ++ [m])%list
             ∧ strategy m = escalate_to_agent ∧ task_id m = task_id task)
    end.
Proof.
  intros s' ctx. subst s' ctx.
  split; [intros name; apply named_by_string |].
  pose proof (full_reset_body env task s Hstrategy) as Hbody.
  assert (Hfailed : ∀ res,
            execute_strategy env (STRATEGY_CONFIGS (strategy task))
              (attempting_task (clock s) task) (attempt_started task s)
            = (res, attempt_started task s) →
            match res with Ok (_, (ok, _)) => ok | Throw _ => false end = false →
            let s' := state_after (attemptHealing env task) s in
            (∃ r, value_of (attemptHealing env task) s = Ok r ∧ success r = false)
            ∧ REPOS_KV s' = REPOS_KV s
            ∧ SCRAPE_QUEUE s' = SCRAPE_QUEUE s
            ∧ ((maxAttempts task ≤ S (attempts task))%nat →
               ∃ stored m,
                 stored_task s' (task_id task) = Some stored
                 ∧ strategy stored = escalate_to_agent ∧ status stored = pending
                 ∧ attempts stored = 0%nat ∧ maxAttempts stored = 1%nat
                 ∧ HEALING_QUEUE s' = (HEALING_QUEUE s ++ [m])%list
                 ∧ strategy m = escalate_to_agent ∧ task_id m = task_id task)).
  { intros res Hres Hno s'. subst s'.
    destruct (attemptHealing_after_body env task s _ _ Hres)
      as (r & s' & Hrun & Hok & Hout & Hsame & _).
    rewrite Hno in Hok.
    unfold state_after, value_of. rewrite Hrun. cbn [fst snd].
    destruct Hsame as (_ & _ & _ & Hsq & Hkv & _).
    destruct Hout as (stored & Hts & Hid & Hres' & Hcase & _).
    rewrite Hok, Hstrategy in Hcase. cbn [nextStrategy STRATEGY_CONFIGS] in Hcase.
    split; [eauto |]. rewrite Hkv, Hsq.
    split; [split_sys s; reflexivity |]. split; [split_sys s; reflexivity |].
    intros Hex. unfold exhausted in Hcase.
    apply Nat.leb_le in Hex. rewrite Hex in Hcase.
    destruct Hcase as (Hst & Hstrat & Hatt & Hmax & m & Hq & (Hmid & Hms & _) & _).
    exists stored, m. unfold stored_task. rewrite Hts, lookup_insert_eq.
    cbn in Hmax. repeat split; try assumption; congruence. }
  destruct (named_by env (context (issue task)) "repoName") as [| name |] eqn:Hname.
  - exact (Hfailed _ Hbody eq_refl).
  - destruct (attemptHealing_body env task s _ _ _ _ Hbody)
      as (r & s' & Hrun & Hok & _ & Hout & Hsame & _).
    unfold state_after, value_of. rewrite Hrun. cbn [fst snd].
    destruct Hsame as (_ & _ & _ & Hsq & Hkv & _).
    destruct Hout as (stored & Hts & Hid & Hres & Hcase & _).
    rewrite Hok in Hcase. destruct Hcase as (Hst & _ & _ & _ & Hhq).
    split; [eauto |]. rewrite Hkv, Hsq, Hhq.
    unfold stored_status, stored_task. rewrite Hts, lookup_insert_eq. cbn.
    rewrite Hst. split; [split_sys s; reflexivity |].
    split; [| auto].
    eexists. split; [split_sys s; reflexivity |]. cbn.
    repeat split; try (split_sys s; reflexivity).
    intros n Hn. revert Hname. unfold named_by, truthy_field. rewrite Hn. cbn.
    destruct (String.eqb n ""); cbn; congruence.
  - exact (Hfailed _ Hbody eq_refl).
Qed.

Lemma full_reset_needs_a_repo_name_witness :
  let env := Scenario.env "true" in
  let task :=
    set_issue (set_context (<["repoName" := JS.VNum 123]> ∅) Scenario.some_issue)
      (Scenario.task_with full_reset 0 1 pending) in
  let s := Scenario.fresh 1000 in
  let s' := state_after (attemptHealing env task) s in
  let ctx := context (issue task) in
  (∀ name, name ≠ "" → ctx !! "repoName" = Some (JS.VStr name) →
           named_by env ctx "repoName" = named name)
  ∧ (∃ r, value_of (attemptHealing env task) s = Ok r ∧ success r = true)
  ∧ REPOS_KV s'
    = delete "cohesiveness:123" (delete "repo:123" (REPOS_KV s))
  ∧ (∃ t, SCRAPE_QUEUE s' = (SCRAPE_QUEUE s ++ [t])%list
          ∧ sk_id t = uuid env (draws s)
          ∧ scrapeType t = st_full ∧ sk_priority t = prio_critical
          ∧ lastScrapeAt t = None ∧ sk_etag t = None
          ∧ ∀ n, ctx !! "repoName" = Some (JS.VStr n) → repoFullName t = n)
  ∧ stored_status s' (task_id task) = Some resolved
  ∧ HEALING_QUEUE s' = HEALING_QUEUE s.
Proof.
  exact (full_reset_needs_a_repo_name (Scenario.env "true")
           (set_issue
              (set_context (<["repoName" := JS.VNum 123]> ∅) Scenario.some_issue)
              (Scenario.task_with full_reset 0 1 pending))
           (Scenario.fresh 1000) eq_refl).
Defined.

Lemma reduce_batch_body env task s :
  strategy task = reduce_batch_size →
  ∃ res s2,
    execute_strategy env (STRATEGY_CONFIGS (strategy task))
      (attempting_task (clock s) task) (attempt_started task s)
    = (res, s2)
    ∧ match res with Ok (task2, _) => issue task2 | Throw _ => issue task end
      = match JS.ToNumber (runtime env) (currentBatch (context (issue task))) with
        | Some x =>
            set_context (<["batchSize" := JS.max_1_floor_half x]>
                           (context (issue task))) (issue task)
        | None => issue task
        end.
Proof.
  intros Hs. unfold execute_strategy, attempting_task, attempt_started.
  destruct task as [tid jid iss strat att mx st res cAt uAt]. cbn in Hs. subst strat.
  cbn [strategy set_status set_attempts set_t_updatedAt issue].
  unfold reduceBatchAndRetry. cbn [issue set_status set_attempts set_t_updatedAt].
  split_sys s. mrun.
  destruct (JS.ToNumber (runtime env) (currentBatch (context iss))) as [x |]; mrun;
    [| eexists _, _; split; reflexivity].
  match goal with |- context [retryOriginalOperation ?t ?s1] =>
    destruct (retryOriginalOperation_effect t s1) as (s2 & -> & _) end.
  eexists _, _. split; reflexivity.
Qed.

(* Halving an integer batch. *)
Lemma halved_integer n :
  JS.max_1_floor_half (JS.Finite (inject_Z n)) = JS.VNum (Z.max 1 (n / 2)).
Proof.
  unfold JS.max_1_floor_half, Qdiv, Qmult, Qinv, inject_Z, Qfloor. cbn.
  rewrite Z.mul_1_r. reflexivity.
Qed.

(** X17 (attemptHealing, reduceBatchAndRetry): an attempt under
    reduce_batch_size stores the task with context.batchSize =
    Math.max(1, Math.floor(currentBatch / 2)), where currentBatch is
    context.batchSize when that is truthy and 10 otherwise and the
    division converts it to a number; when the conversion throws, the
    context is stored as it was.  For a batch that is an integer n the
    stored batch is max(1, floor(n / 2)): at least 1, and smaller than n
    whenever n is 2 or more; a context without batchSize gets 5. *)
Theorem reduce_batch_size_halves_stored_batch env task s
    (Hstrategy : strategy task = reduce_batch_size) :
  let s' := state_after (attemptHealing env task) s in
  let ctx := context (issue task) in
  ∃ stored,
    stored_task s' (task_id task) = Some stored
    ∧ context (issue stored)
      = match JS.ToNumber (runtime env) (currentBatch ctx) with
        | Some x => <["batchSize" := JS.max_1_floor_half x]> ctx
        | None => ctx
        end
    ∧ (∀ n, currentBatch ctx = JS.VNum n →
            let after := Z.max 1 (n / 2) in
            context (issue stored) = <["batchSize" := JS.VNum after]> ctx
            ∧ currentBatch (context (issue stored)) = JS.VNum after
            ∧ (1 ≤ after)%Z
            ∧ ((2 ≤ n)%Z → (after < n)%Z))
    ∧ (truthy_field ctx "batchSize" = None →
       currentBatch (context (issue stored)) = JS.VNum 5).
Proof.
  intros s' ctx. subst s' ctx.
  destruct (reduce_batch_body env task s Hstrategy)
    as (res & s2 & Hbody & Hctx).
  destruct (attemptHealing_after_body env task s _ _ Hbody)
    as (r & s' & Hrun & _ & _ & _ & stored & Hst & Hiss).
  unfold state_after. rewrite Hrun. cbn [snd].
  exists stored. split; [exact Hst |].
  rewrite Hctx in Hiss. clear Hctx Hbody.
  assert (Hnum : ∀ n, currentBatch (context (issue task)) = JS.VNum n →
            let after := Z.max 1 (n / 2) in
            context (issue stored)
            = <["batchSize" := JS.VNum after]> (context (issue task))
            ∧ currentBatch (context (issue stored)) = JS.VNum after
            ∧ (1 ≤ after)%Z
            ∧ ((2 ≤ n)%Z → (after < n)%Z)).
  { intros n Hn after. rewrite Hn in Hiss. cbn [JS.ToNumber] in Hiss.
    rewrite halved_integer in Hiss. fold after in Hiss.
    rewrite Hiss. cbn [context set_context].
    split; [reflexivity |]. split; [| split].
    - unfold currentBatch, truthy_field. rewrite lookup_insert_eq. cbn.
      destruct (Z.eqb_spec after 0) as [H0 | _]; [subst after; lia | reflexivity].
    - subst after. lia.
    - intros Hb. subst after.
      assert (n / 2 < n)%Z by (apply Z.div_lt; lia). lia. }
  split; [| split; [exact Hnum |]].
  - rewrite Hiss. destruct (JS.ToNumber _ _); reflexivity.
  - intros Hnone.
    assert (H10 : currentBatch (context (issue task)) = JS.VNum 10).
    { unfold currentBatch. rewrite Hnone. reflexivity. }
    destruct (Hnum 10 H10) as (_ & Hafter & _). exact Hafter.
Qed.

Lemma reduce_batch_size_halves_stored_batch_witness :
  let env := Scenario.env "true" in
  let task :=
    set_issue (set_context (<["batchSize" := JS.VStr "8"]> ∅) Scenario.some_issue)
      (Scenario.task_with reduce_batch_size 0 3 pending) in
  let s' := state_after (attemptHealing env task) (Scenario.fresh 1000) in
  ∃ stored, stored_task s' "h-1" = Some stored
            ∧ context (issue stored) = <["batchSize" := JS.VNum 4]> ∅.
Proof.
  destruct (reduce_batch_size_halves_stored_batch (Scenario.env "true")
              (set_issue
                 (set_context (<["batchSize" := JS.VStr "8"]> ∅) Scenario.some_issue)
                 (Scenario.task_with reduce_batch_size 0 3 pending))
              (Scenario.fresh 1000) eq_refl)
    as (stored & Hst & Hctx & _).
  exists stored. split; [exact Hst |]. rewrite Hctx.
  vm_compute. reflexivity.
Defined.

Lemma clear_cache_body env task s :
  strategy task = clear_cache_retry →
  ∃ res s2,
    execute_strategy env (STRATEGY_CONFIGS (strategy task))
      (attempting_task (clock s) task) (attempt_started task s)
    = (res, s2)
    ∧ clock s2 = clock s
    ∧ REPOS_KV s2
      = match named_by env (context (issue task)) "repoName" with
        | named name =>
            delete ("cohesiveness:" ++ name)
              (delete ("repo:" ++ name) (REPOS_KV s))
        | _ => REPOS_KV s
        end
    ∧ JOBS_KV s2
      = match named_by env (context (issue task)) "repoName",
              named_by env (context (issue task)) "jobId" with
        | unprintable, _ => JOBS_KV s
        | _, named id => delete ("cache:" ++ id) (JOBS_KV s)
        | _, _ => JOBS_KV s
        end.
Proof.
  intros Hs. unfold execute_strategy, attempting_task, attempt_started, named_by.
  destruct task as [tid jid iss strat att mx st res cAt uAt]. cbn in Hs. subst strat.
  cbn [strategy set_status set_attempts set_t_updatedAt].
  unfold clearRelatedCache. cbn [issue set_status set_attempts set_t_updatedAt].
  split_sys s.
  destruct (truthy_field (context iss) "repoName") as [v1 |],
           (truthy_field (context iss) "jobId") as [v2 |]; mrun;
    try destruct (JS.ToString (runtime env) v1);
    try destruct (JS.ToString (runtime env) v2); mrun;
    try (eexists _, _; split; [reflexivity |]; cbn; auto; fail);
    match goal with |- context [retryOriginalOperation ?t ?s1] =>
      destruct (retryOriginalOperation_effect t s1) as (s2 & -> & Heff) end;
    (eexists _, _; split; [reflexivity |]);
    (destruct (names_a_job _);
     [destruct Heff as (j & -> & _) | subst s2]; cbn; auto).
Qed.

(** X18 (attemptHealing, clearRelatedCache): an attempt under
    clear_cache_retry deletes, whatever its outcome, the keys
    `repo:{text}` and `cohesiveness:{text}` for the text of a truthy
    context.repoName (a non-empty string is its own text), so that no
    structure is cached under that name afterwards, and then the key
    `cache:{text}` for the text of a truthy context.jobId.  A falsy field
    is skipped; a field without a text throws, which ends the clearing
    there: an unprintable repoName leaves both namespaces as they were,
    an unprintable jobId leaves the job namespace as it was. *)
Theorem clear_cache_retry_drops_cached_entries env task s
    (Hstrategy : strategy task = clear_cache_retry) :
  let s' := state_after (attemptHealing env task) s in
  let ctx := context (issue task) in
  (∀ k name, name ≠ "" → ctx !! k = Some (JS.VStr name) →
             named_by env ctx k = named name)
  ∧ match named_by env ctx "repoName" with
    | named name =>
        REPOS_KV s'
        = delete ("cohesiveness:" ++ name)
            (delete ("repo:" ++ name) (REPOS_KV s))
        ∧ cached_structure s' name = None
    | _ => REPOS_KV s' = REPOS_KV s
    end
  ∧ match named_by env ctx "repoName", named_by env ctx "jobId" with
    | unprintable, _ => JOBS_KV s' = JOBS_KV s
    | _, named id => JOBS_KV s' = delete ("cache:" ++ id) (JOBS_KV s)
    | _, _ => JOBS_KV s' = JOBS_KV s
    end.
Proof.
  intros s' ctx. subst s' ctx.
  split; [intros k name; apply named_by_string |].
  destruct (clear_cache_body env task s Hstrategy)
    as (res & s2 & Hbody & Hclk & Hrkv & Hjkv).
  destruct (attemptHealing_after_body env task s _ _ Hbody)
    as (r & s' & Hrun & _ & _ & Hsame & _).
  unfold state_after. rewrite Hrun. cbn [snd].
  destruct Hsame as (_ & _ & _ & _ & Hkv & Hjk & _ & Hc & _).
  split.
  - destruct (named_by env (context (issue task)) "repoName") as [| name |];
      [congruence | | congruence].
    split; [congruence |].
    unfold cached_structure. rewrite Hkv, Hrkv.
    rewrite lookup_delete_ne, lookup_delete_eq; [reflexivity |].
    intros Heq. apply (f_equal (fun x => String.get 0 x)) in Heq. discriminate.
  - destruct (named_by env (context (issue task)) "repoName"),
             (named_by env (context (issue task)) "jobId"); congruence.
Qed.

Lemma clear_cache_retry_drops_cached_entries_witness :
  let env := Scenario.env "true" in
  let task := Processors.scrape_failure_task "h-2" Scenario.scrape_acme_foo "boom" 0 in
  let s := state_after
             (Engine.updateRepo (Scenario.repo_with "acme/foo" Scenario.bare_structure))
             (Scenario.fresh 1000) in
  let s' := state_after
              (attemptHealing env (set_strategy clear_cache_retry task)) s in
  cached_structure s "acme/foo" = Some Scenario.bare_structure
  ∧ cached_structure s' "acme/foo" = None.
Proof.
  split; [reflexivity |].
  pose proof (clear_cache_retry_drops_cached_entries (Scenario.env "true")
                (set_strategy clear_cache_retry
                   (Processors.scrape_failure_task "h-2" Scenario.scrape_acme_foo
                      "boom" 0))
                (state_after
                   (Engine.updateRepo
                      (Scenario.repo_with "acme/foo" Scenario.bare_structure))
                   (Scenario.fresh 1000)) eq_refl) as H.
  cbv zeta in H.
  change (named_by _ _ "repoName") with (named "acme/foo") in H.
  destruct H as (_ & (_ & Hnone) & _). exact Hnone.
Defined.

(* A name that is a number: the keys under its decimal text go. *)
Example numeric_name_is_cleared :
  let env := Scenario.env "true" in
  let task :=
    set_issue (set_context (<["repoName" := JS.VNum 123]> ∅) Scenario.some_issue)
      (Scenario.task_with clear_cache_retry 0 2 pending) in
  let s := state_after
             (Engine.updateRepo (Scenario.repo_with "123" Scenario.bare_structure))
             (Scenario.fresh 1000) in
  let s' := state_after (attemptHealing env task) s in
  named_by env (context (issue task)) "repoName" = named "123"
  ∧ cached_structure s "123" = Some Scenario.bare_structure
  ∧ cached_structure s' "123" = None.
Proof. vm_compute. repeat split; reflexivity. Qed.

Lemma balanced_step name ok h :
  balanced h →
  balanced ((if ok : bool then record_success name else record_failure name)
              (record_attempt name h)).
Proof.
  intros Hb name'. specialize (Hb name'). cbv zeta in *.
  destruct h as [ts hm sts]. revert Hb.
  destruct ok; unfold record_success, record_failure, record_attempt, stat_of;
    cbn [strategies set_strategies];
    (destruct (decide (name' = name)) as [-> | Hne];
     [rewrite !lookup_insert_eq; cbn; lia
     | rewrite !lookup_insert_ne by congruence; auto]).
Qed.

(** X19 (SelfHealer.fetch: processHealingTask, attemptHealing,
    resolveTask, runHealthCheck): the healer's counters stay consistent
    under every POST route: for each strategy the attempts recorded are
    the successes plus the failures, and successfulResolutions plus
    failedResolutions never exceeds totalAttempts. *)
Theorem healer_routes_keep_counters_consistent env req s
    (Hconsistent : consistent (healer s)) :
  consistent (healer (state_after (Healer.fetch env req) s)).
Proof.
  destruct req as [task | taskId res |].
  - (* POST /heal *)
    unfold state_after, Healer.fetch. rewrite bind_run.
    destruct (String.eqb (SELF_HEAL_ENABLED env) "true") eqn:Hen.
    + destruct (processHealingTask_run env task s) as (r & s' & Hrun & Hcase).
      rewrite Hen in Hcase. destruct Hcase as (res & Hatt & _).
      rewrite Hrun. cbn [snd mret M_ret].
      destruct (attemptHealing_run env task (with_task task s))
        as (r' & s'' & Hatt' & Hout & _).
      rewrite Hatt in Hatt'. injection Hatt' as <- <-.
      destruct Hout as (stored & _ & _ & _ & _ & Hm).
      cbv zeta in Hm. destruct Hm as (Htot & Hsucc & Hfail & _ & Hstrat).
      destruct Hconsistent as (Hb & Hle). split.
      * intros name. cbv zeta. rewrite Hstrat.
        apply (balanced_step _ (success res) (healer (with_task task s))).
        destruct s; exact Hb.
      * rewrite Htot, Hsucc, Hfail. destruct s; cbn in *.
        destruct (success res); unfold if_nat; cbn;
          [| destruct (_ && _)%bool]; lia.
    + revert Hconsistent. split_sys s. destruct h as [ts hm sts].
      unfold processHealingTask. rewrite Hen. mrun. cbn [negb]. mrun. auto.
  - (* POST /resolve *)
    revert Hconsistent. split_sys s. destruct h as [ts hm sts].
    unfold state_after, Healer.fetch, resolveTask. mrun.
    destruct (ts !! taskId); mrun; auto.
  - (* POST /check *)
    revert Hconsistent. split_sys s. destruct h as [ts hm sts].
    unfold state_after, Healer.fetch, runHealthCheck. mrun. auto.
Qed.

Lemma healer_routes_keep_counters_consistent_witness :
  let env := Scenario.env "true" in
  let task := Scenario.task_with escalate_to_agent 0 1 pending in
  consistent (healer (Scenario.fresh 1000))
  ∧ consistent (healer (state_after (Healer.fetch env (POST_heal task))
                                    (Scenario.fresh 1000))).
Proof.
  assert (H0 : consistent (healer (Scenario.fresh 1000))).
  { split; [intros name; reflexivity | cbn; lia]. }
  split; [exact H0 |].
  exact (healer_routes_keep_counters_consistent (Scenario.env "true")
           (POST_heal (Scenario.task_with escalate_to_agent 0 1 pending))
           (Scenario.fresh 1000) H0).
Defined.

(** X20 (attemptHealing, the rolling average): counting a resolution
    that took t milliseconds raises successfulResolutions by one and
    moves averageTimeToResolve to a value between the old average and t;
    the first resolution counted sets the average to t. *)
Theorem average_time_stays_between_old_and_new t m :
  let m' := count_resolution t m in
  successfulResolutions m' = S (successfulResolutions m)
  ∧ (Z.min (averageTimeToResolve m) t ≤ averageTimeToResolve m'
     ≤ Z.max (averageTimeToResolve m) t)%Z
  ∧ (successfulResolutions m = 0%nat → averageTimeToResolve m' = t)
  ∧ totalAttempts m' = totalAttempts m
  ∧ escalations m' = escalations m.
Proof.
  destruct m as [ta n fr es avg]. cbn.
  split; [reflexivity |]. split; [| split; [| auto]].
  - apply round_mean_bounds; [lia |].
    replace (Z.pos (Pos.of_succ_nat n) - 1)%Z with (Z.of_nat n) by lia.
    replace (Z.pos (Pos.of_succ_nat n)) with (Z.of_nat n + 1)%Z by lia. nia.
  - intros ->. cbn. unfold JS.Math_round_div.
    symmetry. apply (Z.div_unique _ _ t 1); lia.
Qed.

End StrategyFacts.

(* --------------------------------------------------------------------- *)
(* Further properties: the queue processors and the error handler        *)
(* --------------------------------------------------------------------- *)

Section ProcessorMore.
Import Processors.

(* What a loop of scrape-queue sends leaves alone. *)
Lemma send_each_frame env (f : string → string → ScrapeTask) l : ∀ s,
  ∃ s', for_each l (fun repo => id ← randomUUID env; SCRAPE_QUEUE_send (f id repo)) s
        = (Ok tt, s')
        ∧ coordinator s' = coordinator s ∧ HEALING_QUEUE s' = HEALING_QUEUE s
        ∧ clock s' = clock s.
Proof.
  induction l as [| x l IH]; intros s.
  - eexists. split; [reflexivity | auto].
  - split_sys s. cbn [for_each]. mrun.
    match goal with |- context [for_each l ?g ?s1] =>
      destruct (IH s1) as (s' & Hrun & Hc & Hq & Hclk) end.
    revert Hrun. mrun. intros ->. eauto.
Qed.

Lemma triggerFullSync_frame env s :
  ∃ r s', Engine.triggerFullSync env s = (Ok r, s')
          ∧ coordinator s' = coordinator s ∧ HEALING_QUEUE s' = HEALING_QUEUE s
          ∧ clock s' = clock s.
Proof.
  unfold Engine.triggerFullSync, Engine.BLACKROAD_REPOS.
  split_sys s. destruct e as [rs lfs lcc [] er]; cbn [for_each]; mrun;
    eexists _, _; (split; [reflexivity |]); auto.
Qed.

(* A job handler whose payload it accepts returns; it leaves the
   coordinator's counters, its running jobs, the healing queue and the
   clock as they were, and only the cleanup handler touches the
   coordinator at all. *)
Lemma dispatch_frame env job s :
  (job_type job = scrape_repo → is_Some (string_field (payload job) "repoName")) →
  ∃ r s', dispatch env job s = (Ok r, s')
          ∧ metrics (coordinator s') = metrics (coordinator s)
          ∧ (job_type job ≠ cleanup_job → coordinator s' = coordinator s)
          ∧ (∀ id j, jobs (coordinator s) !! id = Some j →
                     job_status j = job_running →
                     jobs (coordinator s') !! id = Some j)
          ∧ HEALING_QUEUE s' = HEALING_QUEUE s
          ∧ clock s' = clock s.
Proof.
  intros Hpayload. unfold dispatch. destruct (job_type job) eqn:Hty.
  - unfold handleScrapeRepoJob.
    destruct (Hpayload eq_refl) as (repoName & ->).
    split_sys s. mrun. eexists _, _. split; [reflexivity |]. cbn. auto.
  - unfold handleSyncContentJob.
    destruct (triggerFullSync_frame env s) as (r & s' & Hrun & Hc & Hq & Hclk).
    unfold mbind, M_bind. rewrite Hrun. cbn.
    eexists _, _. split; [reflexivity |]. rewrite Hc. auto.
  - unfold handleCohesivenessJob.
    unfold mbind, M_bind. rewrite triggerCohesivenessCheck_effect. cbn.
    eexists _, _. split; [reflexivity |]. split_sys s. cbn. auto.
  - unfold handleSelfHealJob, Healer.runHealthCheck.
    split_sys s. mrun. eexists _, _. split; [reflexivity |]. cbn. auto.
  - unfold handleUpdateCacheJob. unfold mbind at 1, M_bind at 1.
    destruct (send_each_frame env
                (fun id repo => {| sk_id := id; repoFullName := repo;
                                   scrapeType := st_metadata; lastScrapeAt := None;
                                   sk_etag := None; sk_priority := prio_normal |})
                (targetRepos (payload job)) s) as (s' & Hrun & Hc & Hq & Hclk).
    rewrite Hrun. cbn. eexists _, _. split; [reflexivity |]. rewrite Hc. auto.
  - unfold handleFullSyncJob.
    destruct (triggerFullSync_frame env s) as (r & s' & Hrun & Hc & Hq & Hclk).
    unfold mbind, M_bind. rewrite Hrun. cbn.
    eexists _, _. split; [reflexivity |]. rewrite Hc. auto.
  - unfold handleCleanupJob. unfold mbind, M_bind. rewrite cleanup_run. cbn.
    eexists _, _. split; [reflexivity |]. split_sys s. destruct c as [js m]. cbn.
    split; [reflexivity |]. split; [congruence |]. split; [| auto].
    intros id j Hid Hrunning. apply map_lookup_filter_Some.
    split; [exact Hid |]. cbn. unfold deletable. rewrite Hrunning.
    intros [[? | ?] _]; discriminate.
  - unfold handleNotifyJob. cbn. eexists _, _. split; [reflexivity |]. auto.
Qed.

(* A handler other than cleanup's that returns has not touched the
   coordinator. *)
Lemma dispatch_result_frame env job s r s' :
  dispatch env job s = (Ok r, s') → job_type job ≠ cleanup_job →
  coordinator s' = coordinator s.
Proof.
  intros Hrun Hty.
  destruct (job_type job) eqn:Ht.
  - revert Hrun. unfold dispatch. rewrite Ht. unfold handleScrapeRepoJob.
    destruct (string_field (payload job) "repoName") as [repoName |] eqn:Hrepo.
    + split_sys s. mrun. intros [= <- <-]. reflexivity.
    + discriminate.
  - destruct (dispatch_frame env job s) as (r' & s'' & Hrun' & _ & Hc & _);
      [rewrite Ht; discriminate |].
    rewrite Hrun in Hrun'. injection Hrun' as <- <-. apply Hc. congruence.
  - destruct (dispatch_frame env job s) as (r' & s'' & Hrun' & _ & Hc & _);
      [rewrite Ht; discriminate |].
    rewrite Hrun in Hrun'. injection Hrun' as <- <-. apply Hc. congruence.
  - destruct (dispatch_frame env job s) as (r' & s'' & Hrun' & _ & Hc & _);
      [rewrite Ht; discriminate |].
    rewrite Hrun in Hrun'. injection Hrun' as <- <-. apply Hc. congruence.
  - destruct (dispatch_frame env job s) as (r' & s'' & Hrun' & _ & Hc & _);
      [rewrite Ht; discriminate |].
    rewrite Hrun in Hrun'. injection Hrun' as <- <-. apply Hc. congruence.
  - destruct (dispatch_frame env job s) as (r' & s'' & Hrun' & _ & Hc & _);
      [rewrite Ht; discriminate |].
    rewrite Hrun in Hrun'. injection Hrun' as <- <-. apply Hc. congruence.
  - contradiction.
  - destruct (dispatch_frame env job s) as (r' & s'' & Hrun' & _ & Hc & _);
      [rewrite Ht; discriminate |].
    rewrite Hrun in Hrun'. injection Hrun' as <- <-. apply Hc. congruence.
Qed.

(** X21 (processJobQueue, one message whose handler returns): for a job
    the coordinator holds, whose PUT requests reach it under its own id
    and whose payload its handler accepts, the processor acks the message
    and leaves the job completed, with the result the handler returned,
    completedAt and updatedAt at the clock reading; totalCompleted goes up
    by exactly one, totalFailed and totalHealing stay, and no healing task
    is enqueued.  The message is an AgentJob: its payload has the types
    JobPayload declares. *)
Theorem successful_job_is_completed_and_acked env job stored s
    (Htyped : JobPayload_typed (payload job) = true)
    (Hreaches : reaches_own_id env job)
    (Hheld : jobs (coordinator s) !! job_id job = Some stored)
    (Hpayload : job_type job = scrape_repo →
                is_Some (string_field (payload job) "repoName")) :
  let s' := state_after (process_job env job) s in
  let running :=
    state_after (Coordinator.updateJob (job_id job)
                   [Coordinator.F_status job_running]) s in
  value_of (process_job env job) s = Ok ack
  ∧ (∃ j r, value_of (dispatch env job) running = Ok r
            ∧ jobs (coordinator s') !! job_id job = Some j
            ∧ job_status j = job_completed ∧ result j = Some r
            ∧ completedAt j = Some (clock s) ∧ updatedAt j = clock s)
  ∧ totalCompleted (metrics (coordinator s'))
    = S (totalCompleted (metrics (coordinator s)))
  ∧ totalFailed (metrics (coordinator s')) = totalFailed (metrics (coordinator s))
  ∧ totalHealing (metrics (coordinator s')) = totalHealing (metrics (coordinator s))
  ∧ HEALING_QUEUE s' = HEALING_QUEUE s.
Proof.
  intros s' running. subst s' running. clear Htyped.
  unfold value_of, state_after, process_job, try_catch, run_job.
  rewrite !bind_run.
  rewrite (fetch_PUT_routed env _ _ _ s Hreaches), bind_run.
  rewrite (updateJob_registered _ [Coordinator.F_status job_running] stored s Hheld).
  cbv zeta. cbn [mret M_ret snd]. rewrite bind_run.
  set (j1 := set_updatedAt (clock s) _).
  set (m1 := (Coordinator.track_status _ _ _ _).1).
  set (s1 := set_coordinator _ s).
  assert (Hj1 : job_status j1 = job_running).
  { subst j1. reflexivity. }
  assert (Hm1 : m1 = metrics (coordinator s)).
  { subst m1. unfold Coordinator.track_status. cbn.
    destruct (decide _); reflexivity. }
  destruct (dispatch_frame env job s1 Hpayload)
    as (r & s2 & Hrun & Hm2 & _ & Hkeep & Hq2 & Hclk2).
  rewrite Hrun.
  assert (Hheld2 : jobs (coordinator s2) !! job_id job = Some j1).
  { apply Hkeep; [| exact Hj1]. subst s1. destruct s. cbn. apply lookup_insert_eq. }
  unfold Date_now, gets. rewrite !bind_run.
  rewrite (fetch_PUT_routed env _ _ _ s2 Hreaches), bind_run.
  rewrite (updateJob_registered _ _ j1 s2 Hheld2).
  cbv zeta. cbn [mret M_ret fst snd].
  assert (Hclk : clock s2 = clock s).
  { rewrite Hclk2. subst s1. destruct s. reflexivity. }
  assert (Hq : HEALING_QUEUE s2 = HEALING_QUEUE s).
  { rewrite Hq2. subst s1. destruct s. reflexivity. }
  assert (Hm : metrics (coordinator s2) = metrics (coordinator s)).
  { rewrite Hm2. subst s1. destruct s. exact Hm1. }
  unfold Coordinator.track_status. cbn [Coordinator.updates_status fold_left].
  rewrite decide_False by (rewrite Hj1; discriminate).
  split; [reflexivity |].
  destruct s2 as [c2 ? ? ? ? ? ? ? ? ? ?]. cbn in *. subst.
  split.
  - eexists _, r. split; [reflexivity |].
    split; [apply lookup_insert_eq |]. cbn. auto.
  - rewrite Hm. destruct (metrics (coordinator s)). cbn. auto.
Qed.

Lemma successful_job_is_completed_and_acked_witness :
  let env := Scenario.env "true" in
  let job := set_job_type notify (Scenario.broken_job 0 2) in
  let s := Scenario.with_job job (Scenario.fresh 1000) in
  let s' := state_after (process_job env job) s in
  let running :=
    state_after (Coordinator.updateJob (job_id job)
                   [Coordinator.F_status job_running]) s in
  value_of (process_job env job) s = Ok ack
  ∧ (∃ j r, value_of (dispatch env job) running = Ok r
            ∧ jobs (coordinator s') !! job_id job = Some j
            ∧ job_status j = job_completed ∧ result j = Some r
            ∧ completedAt j = Some (clock s) ∧ updatedAt j = clock s)
  ∧ totalCompleted (metrics (coordinator s'))
    = S (totalCompleted (metrics (coordinator s)))
  ∧ totalFailed (metrics (coordinator s')) = totalFailed (metrics (coordinator s))
  ∧ totalHealing (metrics (coordinator s')) = totalHealing (metrics (coordinator s))
  ∧ HEALING_QUEUE s' = HEALING_QUEUE s.
Proof.
  refine (successful_job_is_completed_and_acked (Scenario.env "true")
            (set_job_type notify (Scenario.broken_job 0 2))
            (set_job_type notify (Scenario.broken_job 0 2))
            (Scenario.with_job (set_job_type notify (Scenario.broken_job 0 2))
                               (Scenario.fresh 1000))
            eq_refl eq_refl eq_refl _).
  intros H. discriminate H.
Defined.

(* An id with a query reaches another job: with j-1 held, the message of
   the job `j-1?v=2` marks j-1 completed, and the coordinator holds no job
   under the id of the message. *)
Example query_in_id_reaches_another_job :
  let env := Scenario.env "true" in
  let held := set_job_type notify (Scenario.broken_job 0 2) in
  let job := set_job_id "j-1?v=2" held in
  let s := Scenario.with_job held (Scenario.fresh 1000) in
  let s' := state_after (process_job env job) s in
  reached_job env job s = Some held
  ∧ value_of (process_job env job) s = Ok ack
  ∧ (job_status <$> jobs (coordinator s') !! "j-1") = Some job_completed
  ∧ jobs (coordinator s') !! "j-1?v=2" = None
  ∧ totalCompleted (metrics (coordinator s')) = 1%nat.
Proof. vm_compute. repeat split; reflexivity. Qed.

(* The catch blocks of the processors return. *)
Lemma job_failed_handler_returns env job msg s :
  ∃ d s', job_failed_handler env job msg s = (Ok d, s')
          ∧ (reached_job env job s = None → coordinator s' = coordinator s).
Proof.
  unfold job_failed_handler.
  destruct (Nat.ltb (retryCount job) (maxRetries job)); rewrite !bind_run.
  - match goal with |- context [Coordinator.fetch_PUT env ?u ?b s] =>
      destruct (fetch_PUT_returns env u b s) as (r & s1 & Hput);
      pose proof (fetch_PUT_unreached env job b s) as Hnone end.
    rewrite Hput. cbn [mret M_ret].
    eexists _, _. split; [reflexivity |].
    intros Hun. destruct (Hnone Hun) as (r' & Hsame).
    rewrite Hsame in Hput. congruence.
  - match goal with |- context [Coordinator.fetch_PUT env ?u ?b s] =>
      destruct (fetch_PUT_returns env u b s) as (r & s1 & Hput);
      pose proof (fetch_PUT_unreached env job b s) as Hnone end.
    rewrite Hput. cbn [mret M_ret]. rewrite bind_run.
    assert (Hc : reached_job env job s = None → coordinator s1 = coordinator s).
    { intros Hun. destruct (Hnone Hun) as (r' & Hsame).
      rewrite Hsame in Hput. congruence. }
    clear Hput Hnone. split_sys s1. mrun.
    eexists _, _. split; [reflexivity | exact Hc].
Qed.

Lemma process_job_returns env job s :
  ∃ d s', process_job env job s = (Ok d, s').
Proof.
  unfold process_job, try_catch.
  destruct (run_job env job s) as [[d | msg] s1]; [eauto |].
  destruct (job_failed_handler_returns env job msg s1) as (d & s' & -> & _). eauto.
Qed.

Lemma process_scrape_returns env task s :
  ∃ d s', process_scrape env task s = (Ok d, s').
Proof.
  unfold process_scrape, try_catch.
  destruct (run_scrape env task s) as [[d | msg] s1]; [eauto |].
  unfold scrape_failed_handler. split_sys s1. mrun. eauto.
Qed.

Lemma process_healing_returns env task s :
  ∃ d s', process_healing env task s = (Ok d, s').
Proof.
  unfold process_healing, try_catch.
  match goal with |- context [match ?x with _ => _ end] =>
    destruct x as [[d | msg] s1] end; cbn; eauto.
Qed.

Lemma process_all_returns {A} (f : A → M Disposition) :
  (∀ m s, ∃ d s', f m s = (Ok d, s')) →
  ∀ batch s, ∃ ds s', process_all f batch s = (Ok ds, s')
                      ∧ length ds = length batch.
Proof.
  intros Hf. induction batch as [| m batch IH]; intros s.
  - eexists _, _. split; reflexivity.
  - cbn [process_all]. rewrite bind_run.
    destruct (Hf m s) as (d & s1 & ->). rewrite bind_run.
    destruct (IH s1) as (ds & s2 & -> & Hlen). cbn.
    eexists _, _. split; [reflexivity |]. cbn. congruence.
Qed.

(** X22 (processJobQueue, processScrapeQueue, processHealingQueue): no
    exception of a job handler, of the scraper or of the healer escapes a
    queue consumer: for every batch and every state each of the three
    consumers returns, with exactly one disposition, ack or retry, per
    message of the batch. *)
Theorem queue_consumers_never_throw env s
    (jobs_batch : list AgentJob) (scrape_batch : list ScrapeTask)
    (healing_batch : list HealingTask) :
  (∃ ds s', processJobQueue env jobs_batch s = (Ok ds, s')
            ∧ length ds = length jobs_batch)
  ∧ (∃ ds s', processScrapeQueue env scrape_batch s = (Ok ds, s')
              ∧ length ds = length scrape_batch)
  ∧ (∃ ds s', processHealingQueue env healing_batch s = (Ok ds, s')
              ∧ length ds = length healing_batch).
Proof.
  split; [| split].
  - apply process_all_returns, process_job_returns.
  - apply process_all_returns, process_scrape_returns.
  - apply process_all_returns, process_healing_returns.
Qed.

(** X23 (processJobQueue against updateJob): a message whose PUT
    requests reach no job the coordinator holds -- the path made of its id
    is no route PUT /jobs/:id, or the id captured from it is not held, as
    for the jobs the healer re-enqueues -- is still handled and answered,
    and acked when its handler accepts the payload, but leaves no trace in
    the coordinator: unless it is a cleanup job, the coordinator's jobs
    and counters are exactly as before, whether the handler returned or
    threw.  The message is an AgentJob: its payload has the types
    JobPayload declares. *)
Theorem untracked_job_leaves_no_record env job s
    (Htyped : JobPayload_typed (payload job) = true)
    (Hunknown : reached_job env job s = None)
    (Htype : job_type job ≠ cleanup_job) :
  let s' := state_after (process_job env job) s in
  coordinator s' = coordinator s
  ∧ ∃ d, value_of (process_job env job) s = Ok d
         ∧ ((job_type job = scrape_repo →
             is_Some (string_field (payload job) "repoName")) → d = ack).
Proof.
  intros s'. subst s'. clear Htyped.
  unfold value_of, state_after, process_job, try_catch, run_job.
  rewrite !bind_run.
  destruct (fetch_PUT_unreached env job [Coordinator.F_status job_running] s Hunknown)
    as (r1 & ->).
  cbn [mret M_ret]. rewrite bind_run.
  destruct (dispatch_result env job s) as [(r & s2 & Hrun) | (msg & Hrun)].
  - rewrite Hrun.
    assert (Hc2 : coordinator s2 = coordinator s).
    { exact (dispatch_result_frame env job s r s2 Hrun Htype). }
    unfold Date_now, gets. rewrite !bind_run.
    assert (Hunknown2 : reached_job env job s2 = None).
    { unfold reached_job in *. rewrite Hc2. exact Hunknown. }
    destruct (fetch_PUT_unreached env job
                [Coordinator.F_status job_completed; Coordinator.F_result r;
                 Coordinator.F_completedAt (clock s2)] s2 Hunknown2) as (r3 & ->).
    cbn. split; [exact Hc2 |]. eauto.
  - rewrite Hrun.
    destruct (job_failed_handler_returns env job msg s) as (d & s' & Hh & Hc).
    rewrite Hh. cbn. split; [apply Hc, Hunknown |].
    exists d. split; [reflexivity |]. intros Hpayload.
    destruct (dispatch_frame env job s Hpayload) as (r & s2 & Hok & _).
    rewrite Hok in Hrun. discriminate.
Qed.

Lemma untracked_job_leaves_no_record_witness :
  let env := Scenario.env "true" in
  let job := set_job_id "a/b"
               (set_job_type sync_content (Scenario.broken_job 0 2)) in
  let s := Scenario.with_job job (Scenario.fresh 1000) in
  let s' := state_after (process_job env job) s in
  jobs (coordinator s) !! "a/b" = Some job
  ∧ coordinator s' = coordinator s
  ∧ ∃ d, value_of (process_job env job) s = Ok d
         ∧ ((job_type job = scrape_repo →
             is_Some (string_field (payload job) "repoName")) → d = ack).
Proof.
  split; [reflexivity |].
  refine (untracked_job_leaves_no_record (Scenario.env "true")
            (set_job_id "a/b"
               (set_job_type sync_content (Scenario.broken_job 0 2)))
            (Scenario.with_job
               (set_job_id "a/b"
                  (set_job_type sync_content (Scenario.broken_job 0 2)))
               (Scenario.fresh 1000))
            eq_refl eq_refl _).
  intros H. discriminate H.
Defined.

(* The scraper reads: whatever it answers, the state is the one it
   started in. *)
Lemma scrapeRepo_reads_only env name ty etag s :
  state_after (Scraper.scrapeRepo env name ty etag) s = s.
Proof.
  unfold state_after, Scraper.scrapeRepo, Scraper.structure_for, Scraper.lift.
  split_sys s.
  destruct (fetch_repo _ _ _) as [| msg | info newEtag]; mrun; try reflexivity.
  destruct ty; mrun;
    repeat match goal with
           | |- context [full_structure ?g ?a ?b] => destruct (full_structure g a b)
           | |- context [match rkv !! ?k with _ => _ end] =>
               destruct (rkv !! k) as [[[] ? ?] |]
           | |- context [if live ?a ?b then _ else _] => destruct (live a b)
           end; mrun; reflexivity.
Qed.

(** X24 (processScrapeQueue, one message): what the processor does is
    decided by the scraper's answer, and the scraper itself changes
    nothing.  On "not modified" the message is acked and the state is
    untouched.  When the scraper throws, the message is retried and
    exactly one healing task is enqueued (retry_with_backoff, 0 of 3
    attempts, jobId `scrape-{id}`, the error as originalError), nothing
    else changing.  When it returns data the message is acked and the
    data is written under `repo:{repoFullName}` with a TTL of 3600
    seconds. *)
Theorem scrape_message_follows_the_scraper env task s :
  let scrape := Scraper.scrapeRepo env (repoFullName task) (scrapeType task)
                                   (sk_etag task) in
  let s' := state_after (process_scrape env task) s in
  state_after scrape s = s
  ∧ match value_of scrape s with
    | Ok None => run (process_scrape env task) s = (Ok ack, s)
    | Throw msg =>
        run (process_scrape env task) s
        = (Ok retry,
           set_HEALING_QUEUE
             (HEALING_QUEUE s
              ++ [scrape_failure_task (uuid env (draws s)) task msg (clock s)])
             (set_draws (S (draws s)) s))
    | Ok (Some rd) =>
        value_of (process_scrape env task) s = Ok ack
        ∧ REPOS_KV s' !! ("repo:" ++ repoFullName task)
          = Some {| kv_value := kv_repo rd; expirationTtl := Some 3600;
                    putAt := clock s |}
        ∧ HEALING_QUEUE s' = HEALING_QUEUE s
    end.
Proof.
  intros scrape s'. subst scrape s'.
  split; [apply scrapeRepo_reads_only |].
  pose proof (scrapeRepo_reads_only env (repoFullName task) (scrapeType task)
                (sk_etag task) s) as Hs.
  unfold state_after, value_of in *.
  destruct (Scraper.scrapeRepo env _ _ _ s) as [[[rd |] | msg] s1] eqn:Hscrape;
    cbn [fst snd] in *; subst s1.
  - destruct (scraped_data_is_mirrored_and_acked env task rd s s Hscrape)
      as (s' & -> & Hkv & _ & _ & Hq).
    cbn [fst snd]. auto.
  - unfold run, process_scrape, run_scrape, try_catch.
    rewrite !bind_run, Hscrape. reflexivity.
  - unfold run, process_scrape, run_scrape, try_catch.
    rewrite !bind_run, Hscrape. unfold scrape_failed_handler.
    split_sys s. mrun. reflexivity.
Qed.

(** X25 (processHealingQueue, one message): a healing message is acked
    exactly when self-healing is enabled and the attempt succeeded.  A
    task under escalate_to_agent is therefore never acked; and with
    self-healing disabled every message is answered retry while the
    healer only stores the task as escalated: no counter moves, nothing is
    enqueued and no KV entry is written. *)
Theorem healing_message_is_acked_iff_healed env task s :
  let s' := state_after (process_healing env task) s in
  ∃ d, value_of (process_healing env task) s = Ok d
       ∧ (d = ack
          ↔ SELF_HEAL_ENABLED env = "true"
            ∧ ∃ r s1, Healer.attemptHealing env task (with_task task s) = (Ok r, s1)
                      ∧ success r = true)
       ∧ (strategy task = escalate_to_agent → d = retry)
       ∧ (SELF_HEAL_ENABLED env ≠ "true" →
          d = retry
          ∧ stored_status s' (task_id task) = Some escalated
          ∧ h_metrics (healer s') = h_metrics (healer s)
          ∧ strategies (healer s') = strategies (healer s)
          ∧ same_outside_healer s s'
          ∧ HEALING_QUEUE s' = HEALING_QUEUE s).
Proof.
  intros s'. subst s'.
  unfold value_of, state_after, process_healing, try_catch.
  cbn [Healer.fetch]. rewrite !bind_run.
  destruct (String.eqb_spec (SELF_HEAL_ENABLED env) "true") as [Hen | Hdis].
  - destruct (processHealingTask_run env task s) as (r & s1 & Hrun & Hcase).
    rewrite Hen, String.eqb_refl in Hcase. destruct Hcase as (res & Hatt & Hok).
    rewrite Hrun. cbn [mret M_ret fst snd heal_success]. rewrite Hok.
    eexists. split; [reflexivity |]. split; [| split].
    + split.
      * intros Hd. split; [exact Hen |]. exists res, s1. split; [exact Hatt |].
        destruct (success res); [reflexivity | discriminate].
      * intros (_ & r' & s2 & Hatt' & Hr'). rewrite Hatt in Hatt'.
        injection Hatt' as <- <-. rewrite Hr'. reflexivity.
    + intros Hesc.
      destruct (attemptHealing_run env task (with_task task s))
        as (r' & s2 & Hatt' & _ & Hfalse).
      rewrite Hatt in Hatt'. injection Hatt' as <- <-.
      rewrite (Hfalse Hesc). reflexivity.
    + intros Hne. contradiction.
  - apply String.eqb_neq in Hdis as Hfalse.
    split_sys s. destruct h as [ts hm sts].
    unfold Healer.processHealingTask. rewrite Hfalse. mrun. cbn [negb]. mrun.
    cbn [fst snd heal_success Healer.hr_success].
    eexists. split; [reflexivity |]. split; [| split].
    + split; [discriminate | intros (Hen & _); contradiction].
    + reflexivity.
    + intros _. split; [reflexivity |].
      unfold stored_status, stored_task, same_outside_healer. cbn.
      rewrite lookup_insert_eq. cbn. tauto.
Qed.

End ProcessorMore.

Section WorkerFacts.
Import Worker.

(** X26 (app.onError): the worker's error handler always answers 500
    and shows the error's message only when ENVIRONMENT is
    'development'.  With self-healing enabled it enqueues exactly one
    healing task (jobId 'worker-error', retry_with_backoff, 0 of 5
    attempts, pending) and nothing else changes but the identifier
    drawn; that task names no job, so an attempt on it fails, enqueues no
    job and puts the task back on the healing queue.  With self-healing
    disabled the state is untouched. *)
Theorem worker_error_is_queued_but_not_retried env err path method s :
  let s1 := state_after (onError env err path method) s in
  let task := worker_error_task (uuid env (draws s)) err path method (clock s) in
  (∃ resp, value_of (onError env err path method) s = Ok resp
           ∧ er_http resp = 500
           ∧ er_message resp
             = if String.eqb (ENVIRONMENT env) "development"
               then err_message err else "An error occurred")
  ∧ (if String.eqb (SELF_HEAL_ENABLED env) "true"
     then s1 = set_HEALING_QUEUE (HEALING_QUEUE s ++ [task])
                 (set_draws (S (draws s)) s)
     else s1 = s)
  ∧ names_a_job task = false
  ∧ ∀ s2, let s3 := state_after (Healer.attemptHealing env task) s2 in
          (∃ r, value_of (Healer.attemptHealing env task) s2 = Ok r
                ∧ success r = false)
          ∧ JOBS_QUEUE s3 = JOBS_QUEUE s2
          ∧ stored_status s3 (task_id task) = Some pending
          ∧ ∃ m, HEALING_QUEUE s3 = (HEALING_QUEUE s2 ++ [m])%list
                 ∧ task_id m = task_id task.
Proof.
  intros s1 task. subst s1.
  split; [| split; [| split; [reflexivity |]]].
  - unfold value_of, onError. split_sys s.
    destruct (String.eqb (SELF_HEAL_ENABLED env) "true"); mrun;
      eexists; (split; [reflexivity |]); auto.
  - unfold state_after, onError. split_sys s.
    destruct (String.eqb (SELF_HEAL_ENABLED env) "true"); mrun; reflexivity.
  - intros s2 s3. subst s3.
    destruct (retry_without_job env task s2 (or_introl eq_refl) eq_refl)
      as (Hr & _ & Hq & Hst & Hm). auto.
Qed.

End WorkerFacts.

(* --------------------------------------------------------------------- *)
(* Further properties: the scraper's helpers                             *)
(* --------------------------------------------------------------------- *)

Section ScraperPartsFacts.
Import ScraperParts.

Lemma typed_config_is_config name :
  getConfigType name ≠ cfg_other → isConfigFile name = true.
Proof.
  unfold getConfigType, isConfigFile, config_file_names. cbn [existsb].
  destruct (String.eqb_spec name "package.json") as [-> | _]; [reflexivity |].
  destruct (String.eqb_spec name "wrangler.toml") as [-> | _]; [reflexivity |].
  destruct (String.eqb_spec name "wrangler.json") as [-> | _]; [reflexivity |].
  destruct (String.eqb_spec name "tsconfig.json") as [-> | _]; [reflexivity |].
  cbn. congruence.
Qed.

Lemma getConfigType_names name :
  (getConfigType name = cfg_package_json ↔ name = "package.json")
  ∧ (getConfigType name = cfg_tsconfig_json ↔ name = "tsconfig.json")
  ∧ (getConfigType name = cfg_wrangler_toml
     ↔ name = "wrangler.toml" ∨ name = "wrangler.json").
Proof.
  unfold getConfigType.
  destruct (String.eqb_spec name "package.json") as [-> | H1].
  { cbn. repeat split; intros; try discriminate; try reflexivity.
    destruct H; discriminate. }
  destruct (String.eqb_spec name "wrangler.toml") as [-> | H2].
  { cbn. repeat split; intros; try discriminate; try reflexivity; auto. }
  destruct (String.eqb_spec name "wrangler.json") as [-> | H3].
  { cbn. repeat split; intros; try discriminate; try reflexivity; auto. }
  destruct (String.eqb_spec name "tsconfig.json") as [-> | H4].
  { cbn. repeat split; intros; try discriminate; try reflexivity.
    destruct H; discriminate. }
  cbn. repeat split; intros; try discriminate; try contradiction.
  destruct H; contradiction.
Qed.

(* The loop over the tree, array by array. *)
Lemma process_tree_files tree : ∀ acc,
  c_files (fold_left process_entry tree acc)
  = (c_files acc
     ++ map (fun e => {| fe_path := te_path e; fe_type := entry_file;
                         fe_size := te_size e; fe_sha := Some (te_sha e) |})
            (filter is_blob tree))%list.
Proof.
  induction tree as [| e tree IH]; intros acc.
  - cbn. rewrite app_nil_r. reflexivity.
  - cbn [fold_left]. rewrite IH, filter_cons. unfold process_entry, is_blob.
    destruct (String.eqb_spec (te_type e) "blob") as [Hb | Hb].
    + rewrite decide_True by exact Hb. cbn. rewrite <- app_assoc. reflexivity.
    + rewrite decide_False by exact Hb.
      destruct (String.eqb (te_type e) "tree"); reflexivity.
Qed.

Lemma process_tree_directories tree : ∀ acc,
  c_directories (fold_left process_entry tree acc)
  = (c_directories acc ++ map te_path (filter is_tree tree))%list.
Proof.
  induction tree as [| e tree IH]; intros acc.
  - cbn. rewrite app_nil_r. reflexivity.
  - cbn [fold_left]. rewrite IH, filter_cons. unfold process_entry, is_tree.
    destruct (String.eqb_spec (te_type e) "blob") as [Hb | Hb].
    + rewrite decide_False by (rewrite Hb; discriminate). reflexivity.
    + destruct (String.eqb_spec (te_type e) "tree") as [Ht | Ht].
      * rewrite decide_True by exact Ht. cbn. rewrite <- app_assoc. reflexivity.
      * rewrite decide_False by exact Ht. reflexivity.
Qed.

Lemma process_tree_configs tree : ∀ acc,
  c_configFiles (fold_left process_entry tree acc)
  = (c_configFiles acc
     ++ map (fun e => {| cf_path := te_path e;
                         cf_type := getConfigType (basename (te_path e)) |})
            (filter (fun e => is_blob e
                              ∧ isConfigFile (basename (te_path e)) = true) tree))%list.
Proof.
  induction tree as [| e tree IH]; intros acc.
  - cbn. rewrite app_nil_r. reflexivity.
  - cbn [fold_left]. rewrite IH, filter_cons. unfold process_entry, is_blob.
    destruct (String.eqb_spec (te_type e) "blob") as [Hb | Hb].
    + destruct (isConfigFile (basename (te_path e))) eqn:Hc.
      * rewrite decide_True by auto. cbn. rewrite <- app_assoc. reflexivity.
      * rewrite decide_False by (intros [_ ?]; discriminate). reflexivity.
    + rewrite decide_False by tauto.
      destruct (String.eqb (te_type e) "tree"); reflexivity.
Qed.

Lemma has_config_tree tree t :
  t ≠ cfg_other →
  has_config t (configFiles (structure_of_tree tree)) = true
  ↔ ∃ e, e ∈ tree ∧ is_blob e ∧ getConfigType (basename (te_path e)) = t.
Proof.
  intros Ht. unfold structure_of_tree. cbn [configFiles].
  rewrite process_tree_configs. cbn [c_configFiles app].
  unfold has_config, JS.some. rewrite existsb_exists. split.
  - intros (c & Hin & Hc). apply bool_decide_eq_true in Hc.
    apply list_elem_of_In, list_elem_of_fmap in Hin as (e & -> & He).
    apply list_elem_of_filter in He as [[Hb _] He]. eauto.
  - intros (e & He & Hb & Hty). eexists. split.
    + apply list_elem_of_In, list_elem_of_fmap. exists e. split; [reflexivity |].
      apply list_elem_of_filter. split; [| exact He]. split; [exact Hb |].
      apply typed_config_is_config. congruence.
    + cbn. apply bool_decide_eq_true. exact Hty.
Qed.

(** X27 (getFullStructure, isConfigFile, getConfigType): from a fetched
    tree the structure lists every blob as a file and every tree entry
    as a directory, in order, and nothing else; hasPackageJson,
    hasTsConfig and hasWranglerConfig hold exactly when some file of the
    tree, at any depth, is named package.json, tsconfig.json, or
    wrangler.toml or wrangler.json; and every config file listed is a
    file the scraper recognises as one. *)
Theorem tree_structure_lists_files_and_flags tree :
  let st := structure_of_tree tree in
  map fe_path (files st) = map te_path (filter is_blob tree)
  ∧ directories st = map te_path (filter is_tree tree)
  ∧ (hasPackageJson st = true ↔ has_file_named tree "package.json")
  ∧ (hasTsConfig st = true ↔ has_file_named tree "tsconfig.json")
  ∧ (hasWranglerConfig st = true
     ↔ has_file_named tree "wrangler.toml" ∨ has_file_named tree "wrangler.json")
  ∧ Forall (fun c => isConfigFile (basename (cf_path c)) = true) (configFiles st).
Proof.
  intros st.
  pose proof (has_config_tree tree cfg_package_json) as Hp.
  pose proof (has_config_tree tree cfg_tsconfig_json) as Ht.
  pose proof (has_config_tree tree cfg_wrangler_toml) as Hw.
  subst st. unfold structure_of_tree in *.
  cbn [files directories configFiles hasPackageJson hasTsConfig hasWranglerConfig] in *.
  split; [| split].
  { rewrite process_tree_files. cbn [c_files app].
    induction (filter is_blob tree) as [| e l IH]; [reflexivity |].
    cbn. f_equal. exact IH. }
  { rewrite process_tree_directories. reflexivity. }
  unfold has_file_named.
  split; [| split; [| split]].
  - rewrite Hp by discriminate. split; intros (e & He & Hb & Hn); exists e;
      (split; [exact He |]); (split; [exact Hb |]);
      apply (getConfigType_names (basename (te_path e))); exact Hn.
  - rewrite Ht by discriminate. split; intros (e & He & Hb & Hn); exists e;
      (split; [exact He |]); (split; [exact Hb |]);
      apply (getConfigType_names (basename (te_path e))); exact Hn.
  - rewrite Hw by discriminate. split.
    + intros (e & He & Hb & Hn).
      apply (getConfigType_names (basename (te_path e))) in Hn as [Hn | Hn];
        [left | right]; eauto.
    + intros [(e & He & Hb & Hn) | (e & He & Hb & Hn)]; exists e;
        (split; [exact He |]); (split; [exact Hb |]);
        apply (getConfigType_names (basename (te_path e))); auto.
  - rewrite process_tree_configs. cbn [c_configFiles app].
    apply Forall_forall. intros c Hc.
    apply list_elem_of_fmap in Hc as (e & -> & He).
    apply list_elem_of_filter in He as [[_ Hcfg] _]. exact Hcfg.
Qed.

(* Plain objects: reading after writing, and keys staying distinct. *)
Lemma get_set {V} (o : list (string * V)) k v k' :
  get (set o k v) k' = if String.eqb k k' then Some v else get o k'.
Proof.
  induction o as [| [k0 v0] o IH]; cbn.
  - reflexivity.
  - destruct (String.eqb_spec k0 k) as [-> | Hne]; cbn.
    + destruct (String.eqb k k'); reflexivity.
    + rewrite IH. destruct (String.eqb_spec k0 k') as [-> | Hne'].
      * destruct (String.eqb_spec k k') as [-> | _]; [contradiction | reflexivity].
      * reflexivity.
Qed.

Lemma keys_set {V} (o : list (string * V)) k v x :
  x ∈ (set o k v).*1 → x ∈ o.*1 ∨ x = k.
Proof.
  induction o as [| [k0 v0] o IH]; cbn.
  - intros Hx. apply list_elem_of_singleton in Hx. auto.
  - destruct (String.eqb_spec k0 k) as [-> | Hne]; cbn.
    + auto.
    + intros Hx. apply elem_of_cons in Hx as [-> | Hx].
      * left. left.
      * destruct (IH Hx); [left; right; assumption | auto].
Qed.

Lemma NoDup_set {V} (o : list (string * V)) k v :
  NoDup o.*1 → NoDup (set o k v).*1.
Proof.
  induction o as [| [k0 v0] o IH]; cbn; intros Hnd.
  - apply NoDup_singleton.
  - apply NoDup_cons in Hnd as [Hk0 Hnd].
    destruct (String.eqb_spec k0 k) as [-> | Hne]; cbn.
    + apply NoDup_cons. auto.
    + apply NoDup_cons. split; [| apply IH, Hnd].
      intros Hx. apply keys_set in Hx as [Hx | Hx]; [contradiction | congruence].
Qed.

Lemma get_elem_of {V} (o : list (string * V)) k v :
  NoDup o.*1 → ((k, v) ∈ o ↔ get o k = Some v).
Proof.
  induction o as [| [k0 v0] o IH]; cbn; intros Hnd.
  - split; [intros H; apply elem_of_nil in H; contradiction | discriminate].
  - apply NoDup_cons in Hnd as [Hk0 Hnd]. specialize (IH Hnd).
    destruct (String.eqb_spec k0 k) as [-> | Hne].
    + split.
      * intros Hin. apply elem_of_cons in Hin as [Heq | Hin]; [congruence |].
        exfalso. apply Hk0. apply list_elem_of_fmap. exists (k, v). auto.
      * intros [= ->]. left.
    + rewrite <- IH. split.
      * intros Hin. apply elem_of_cons in Hin as [Heq | Hin]; [congruence | exact Hin].
      * intros Hin. right. exact Hin.
Qed.

Lemma detect_keys fs : ∀ acc,
  NoDup acc.*1 → NoDup (fold_left count_file fs acc).*1.
Proof.
  induction fs as [| f fs IH]; intros acc Hnd; [exact Hnd |].
  cbn [fold_left]. apply IH. unfold count_file.
  destruct (language_of f); [apply NoDup_set, Hnd | exact Hnd].
Qed.

(* The count kept for a language: none until a file of the language is
   seen, then the sum of the sizes. *)
Lemma detect_get language fs : ∀ acc,
  get (fold_left count_file fs acc) language
  = if decide (filter (fun f => language_of f = Some language) fs = [])
    then get acc language
    else Some (default 0 (get acc language) + language_total fs language)%Z.
Proof.
  unfold language_total.
  induction fs as [| f fs IH]; intros acc; [reflexivity |].
  cbn [fold_left]. rewrite IH, filter_cons. unfold count_file.
  destruct (language_of f) as [l |] eqn:Hl.
  - rewrite get_set. destruct (String.eqb_spec l language) as [-> | Hne].
    + rewrite (decide_True (P := Some language = Some language)) by reflexivity.
      rewrite (decide_False (P := _ :: _ = [])) by discriminate.
      destruct (decide (filter _ fs = [])) as [-> | _]; cbn; f_equal; lia.
    + rewrite (decide_False (P := Some l = Some language)) by congruence.
      reflexivity.
  - rewrite (decide_False (P := None = Some language)) by discriminate.
    reflexivity.
Qed.

Lemma extensionMap_languages ext : get extensionMap ext ≠ Some "".
Proof.
  unfold extensionMap. cbn [get].
  repeat (destruct (String.eqb _ ext); [discriminate |]). discriminate.
Qed.

(* The first entry after the sort has the largest count. *)
Lemma sort_head_largest (stats : list (string * Z)) x r :
  JSLib.sort (fun a b => b.2 - a.2)%Z stats = x :: r →
  x ∈ stats ∧ ∀ y, y ∈ stats → (y.2 ≤ x.2)%Z.
Proof.
  intros Hsort.
  pose proof (sort_perm (fun a b : string * Z => b.2 - a.2)%Z stats) as Hperm.
  assert (Hsorted : StronglySorted (fun a b : string * Z => b.2 ≤ a.2)%Z
                      (JSLib.sort (fun a b => b.2 - a.2)%Z stats)).
  { apply Sorted_StronglySorted.
    - intros a b c Hab Hbc. lia.
    - apply sort_Sorted; intros a b Hab; lia. }
  rewrite Hsort in Hperm, Hsorted.
  split.
  - rewrite <- Hperm. left.
  - intros y Hy. rewrite <- Hperm in Hy.
    apply elem_of_cons in Hy as [-> | Hy]; [lia |].
    apply StronglySorted_inv in Hsorted as [_ Hall].
    rewrite Forall_forall in Hall. apply Hall, Hy.
Qed.

(** X28 (detectLanguages and the primaryLanguage of getFullStructure):
    the primary language is a language of some file and no language of
    any file has a larger total size, a file without a size (or of size
    0) counting 1; it is null exactly when no file has an extension of
    the extension map. *)
Theorem primary_language_has_largest_total fs :
  match primary_of (detectLanguages fs) with
  | Some language =>
      (∃ f, f ∈ fs ∧ language_of f = Some language)
      ∧ ∀ f other, f ∈ fs → language_of f = Some other →
                   (language_total fs other ≤ language_total fs language)%Z
  | None => ∀ f, f ∈ fs → language_of f = None
  end.
Proof.
  assert (Hnd : NoDup (detectLanguages fs).*1)
    by (apply detect_keys; constructor).
  assert (Hget : ∀ language v,
            (language, v) ∈ detectLanguages fs
            ↔ filter (fun f => language_of f = Some language) fs ≠ []
              ∧ v = language_total fs language).
  { intros language v. rewrite (get_elem_of _ _ _ Hnd).
    unfold detectLanguages. rewrite detect_get. cbn [get default].
    destruct (decide (filter _ fs = [])) as [He | Hne].
    - split; [discriminate | intros [? _]; contradiction].
    - rewrite Z.add_0_l. split; [intros [= <-]; auto | intros [_ ->]; reflexivity]. }
  assert (Hpresent : ∀ f language, f ∈ fs → language_of f = Some language →
            filter (fun f => language_of f = Some language) fs ≠ []).
  { intros f language Hf Hl Hnil.
    assert (Hin : f ∈ filter (fun f => language_of f = Some language) fs)
      by (apply list_elem_of_filter; auto).
    rewrite Hnil in Hin. apply elem_of_nil in Hin. exact Hin. }
  unfold primary_of.
  destruct (JSLib.sort _ (detectLanguages fs)) as [| [language v] r] eqn:Hsort.
  - intros f Hf. destruct (language_of f) as [l |] eqn:Hl; [| reflexivity].
    exfalso.
    assert (Hin : (l, language_total fs l) ∈ detectLanguages fs)
      by (apply Hget; split; [eapply Hpresent; eauto | reflexivity]).
    rewrite <- (sort_perm (fun a b : string * Z => b.2 - a.2)%Z) in Hin.
    rewrite Hsort in Hin. apply elem_of_nil in Hin. exact Hin.
  - destruct (sort_head_largest _ _ _ Hsort) as [Hin Hmax].
    apply Hget in Hin as [Hne ->].
    assert (Hsome : ∃ f, f ∈ fs ∧ language_of f = Some language).
    { destruct (filter _ fs) as [| f l] eqn:Hf; [contradiction |].
      assert (Hfin : f ∈ filter (fun f => language_of f = Some language) fs)
        by (rewrite Hf; left).
      apply list_elem_of_filter in Hfin as [? ?]. eauto. }
    destruct (String.eqb_spec language "") as [-> | _].
    + exfalso. destruct Hsome as (f & _ & Hl). unfold language_of in Hl.
      exact (extensionMap_languages _ Hl).
    + split; [exact Hsome |]. intros f other Hf Hl.
      apply (Hmax (other, language_total fs other)).
      apply Hget. split; [eapply Hpresent; eauto | reflexivity].
Qed.

(* The retry loop: its value, and the clock it leaves. *)
Lemma retry_loop_value parseInt outcome n : ∀ a lastError s,
  value_of (retry_loop parseInt outcome n a lastError) s
  = match first_settled (map outcome (seq a n)) with
    | Some response => Ok response
    | None =>
        Throw (default "Max retries exceeded"
                 (match last_thrown (map outcome (seq a n)) with
                  | Some msg => Some msg
                  | None => lastError
                  end))
    end.
Proof.
  unfold first_settled, last_thrown.
  induction n as [| n IH]; intros a lastError s; [reflexivity |].
  cbn [retry_loop seq map]. unfold value_of in *.
  destruct (outcome a) as [response | msg];
    cbn [omap list_omap settled thrown].
  - destruct (rate_limited response) eqn:Hrl; [| reflexivity].
    rewrite bind_run. unfold sleep, modify at 1. apply IH.
  - rewrite bind_run. unfold sleep, modify at 1. rewrite IH.
    destruct (head _); [reflexivity |].
    rewrite last_cons. destruct (last _); reflexivity.
Qed.

Lemma retry_loop_clock parseInt outcome n : ∀ a lastError s,
  (clock s ≤ clock (state_after (retry_loop parseInt outcome n a lastError) s))%Z.
Proof.
  induction n as [| n IH]; intros a lastError s; [cbn; lia |].
  cbn [retry_loop]. unfold state_after in *.
  destruct (outcome a) as [response | msg].
  - destruct (rate_limited response); [| cbn; lia].
    rewrite bind_run. unfold sleep, modify at 1.
    etransitivity; [| apply IH]. unfold JSLib.timeout_delay.
    destruct s; cbn. lia.
  - rewrite bind_run. unfold sleep, modify at 1.
    etransitivity; [| apply IH]. unfold JSLib.timeout_delay.
    destruct s; cbn. lia.
Qed.

(** X29 (fetchWithRetry): the call returns the first response that is
    not rate limited (status other than 403 and 429) among at most
    maxRetries attempts, whatever its status; when there is none it
    throws the last error fetch threw, or 'Max retries exceeded' when
    every attempt was rate limited.  It only waits: the clock never goes
    back, and a first attempt that is answered and not rate limited
    leaves the state untouched. *)
Theorem fetchWithRetry_returns_first_settled_answer parseInt outcome maxRetries s :
  let answers := map outcome (seq 0 maxRetries) in
  let s' := state_after (fetchWithRetry parseInt outcome maxRetries) s in
  value_of (fetchWithRetry parseInt outcome maxRetries) s
  = match first_settled answers with
    | Some response => Ok response
    | None => Throw (default "Max retries exceeded" (last_thrown answers))
    end
  ∧ (clock s ≤ clock s')%Z
  ∧ (∀ response, head answers = Some (Ok response) →
                 rate_limited response = false → s' = s).
Proof.
  intros answers s'. subst answers s'. unfold fetchWithRetry.
  split; [| split].
  - rewrite retry_loop_value. destruct (first_settled _); [reflexivity |].
    destruct (last_thrown _); reflexivity.
  - apply retry_loop_clock.
  - intros response Hhead Hrl. destruct maxRetries as [| n]; [discriminate |].
    cbn in Hhead. injection Hhead as Hout.
    unfold state_after. cbn [retry_loop]. rewrite Hout, Hrl. reflexivity.
Qed.

(** X30 (getMinimalStructure against calculateInitialCohesiveness): the
    minimal structure has a flag for each of package.json, wrangler.toml
    and tsconfig.json that the host returned, lists at most three files,
    no directory and no primary language; so a repository scraped that
    way is never charged for a missing src/ directory: its initial
    structure score is 100. *)
Theorem minimal_structure_has_three_flags_only contents now :
  let st := minimal_structure_of contents in
  hasPackageJson st = bool_decide (is_Some (contents "package.json"))
  ∧ hasWranglerConfig st = bool_decide (is_Some (contents "wrangler.toml"))
  ∧ hasTsConfig st = bool_decide (is_Some (contents "tsconfig.json"))
  ∧ (length (files st) ≤ 3)%nat
  ∧ length (configFiles st) = length (files st)
  ∧ directories st = []
  ∧ primaryLanguage st = None
  ∧ structure (Cohesiveness.calculateInitialCohesiveness now st) = 100.
Proof.
  intros st. subst st. unfold minimal_structure_of, configPaths.
  cbn [fold_left]. unfold add_config.
  destruct (contents "package.json"), (contents "wrangler.toml"),
    (contents "tsconfig.json");
    cbn; repeat split; try lia.
Qed.

End ScraperPartsFacts.
